(** * Bulk dispatch engine of the WhatsApp messaging backend

    A shallow embedding of the bulk-send code paths:
    - [services/csvProcessor.ts] : [parseCSVBuffer], [findMobileNumber],
      [isValidMobileNumber], [formatMobileNumber], [processBulkMessage],
      [getOptimalConfig], [processBulkMessagesInBackground],
      [processBatchWithConcurrency]
    - [services/whatsapp.ts]     : the gateway wrappers [sendText],
      [sendImage], [sendDocument], [sendDocumentByMediaId], and
      [sendBulkText]
    - [routes/send.ts]           : [POST /bulk] and the batch loop of
      [POST /csv-bulk-document]
    - [models/MessageLog.ts], [models/BulkOperation.ts] : the two documents.

    Asynchronous code is modelled in a state-and-exception monad over a
    [World] holding the two collections, a logical clock and an event trace.
    The gateway, the storage faults and the order in which the workers of a
    chunk go on after an [await] are oracles of the environment. *)

From Stdlib Require Import ZArith Lia String Ascii DecimalString.
From stdpp Require Import base list.

Local Open Scope string_scope.

(** ** JavaScript values used by the code *)

(** [x || y] and [if (x)] on an optional string: [undefined] and the empty
    string are falsy. *)
Definition truthy (x : option string) : bool :=
  match x with
  | Some s => negb (String.eqb s EmptyString)
  | None => false
  end.

Definition js_or (x y : option string) : option string :=
  if truthy x then x else y.

(** [Array.prototype.slice(i, j)] for [0 <= i <= j]. *)
Definition slice {A} (xs : list A) (i j : nat) : list A :=
  take (j - i) (drop i xs).

(** ** services/csvProcessor.ts *)

Definition is_digit (c : ascii) : bool :=
  let n := nat_of_ascii c in (48 <=? n)%nat && (n <=? 57)%nat.

(** [number.replace(/\D/g, '')] *)
Fixpoint strip_non_digits (s : string) : string :=
  match s with
  | EmptyString => EmptyString
  | String c rest =>
      if is_digit c then String c (strip_non_digits rest)
      else strip_non_digits rest
  end.

Definition formatMobileNumber (number : string) : string :=
  let cleanNumber := strip_non_digits number in
  if (String.length cleanNumber =? 10)%nat then "1" ++ cleanNumber
  else cleanNumber.

(** ** The concurrency plan: [getOptimalConfig] *)

Record Config := {
  CONCURRENCY_LIMIT : nat;
  BATCH_SIZE : nat;
  RATE_LIMIT_DELAY : nat
}.

Definition getOptimalConfig (messageCount : Z) : Config :=
  if (messageCount <=? 20)%Z then
    {| CONCURRENCY_LIMIT := 2; BATCH_SIZE := 5; RATE_LIMIT_DELAY := 200 |}
  else if (messageCount <=? 50)%Z then
    {| CONCURRENCY_LIMIT := 3; BATCH_SIZE := 8; RATE_LIMIT_DELAY := 150 |}
  else if (messageCount <=? 200)%Z then
    {| CONCURRENCY_LIMIT := 5; BATCH_SIZE := 15; RATE_LIMIT_DELAY := 100 |}
  else if (messageCount <=? 500)%Z then
    {| CONCURRENCY_LIMIT := 8; BATCH_SIZE := 25; RATE_LIMIT_DELAY := 75 |}
  else if (messageCount <=? 1000)%Z then
    {| CONCURRENCY_LIMIT := 10; BATCH_SIZE := 40; RATE_LIMIT_DELAY := 50 |}
  else
    {| CONCURRENCY_LIMIT := 12; BATCH_SIZE := 60; RATE_LIMIT_DELAY := 25 |}.

(** The fixed configuration of the [/csv-bulk-document] route. *)
Definition routeConfig : Config :=
  {| CONCURRENCY_LIMIT := 5; BATCH_SIZE := 10; RATE_LIMIT_DELAY := 50 |}.

(** ** The batcher

    [for (let i = 0; i < xs.length; i += size) out.push(xs.slice(i, i + size))].
    The loop is not structurally recursive (with [size = 0] it never ends),
    so it runs on fuel and answers [None] when the fuel is spent. *)
Fixpoint sliceLoop {A} (fuel : nat) (xs : list A) (size i : nat)
    (out : list (list A)) : option (list (list A)) :=
  if (i <? length xs)%nat then
    match fuel with
    | O => None
    | S fuel' =>
        sliceLoop fuel' xs size (i + size) (out ++ [slice xs i (i + size)])
    end
  else Some out.

Definition batches {A} (xs : list A) (size : nat) : option (list (list A)) :=
  sliceLoop (length xs) xs size 0 [].

(** ** Errors and gateway replies *)

Record WaError := { code : Z; wa_message : option string }.

(** [error.response.data]: an object, with its [error] member when the
    gateway sent one. [json_members] stands for the text of its members
    as [JSON.stringify] prints them. *)
Record ErrorData := { wa_error : option WaError; json_members : string }.

Definition JSON_stringify (d : ErrorData) : string :=
  "{" ++ json_members d ++ "}".

Record AxiosResponse := { http_status : nat; data : option ErrorData }.

(** The class of a thrown error object; [class_name] is its [name]. *)
Inductive ErrorClass :=
| ClassError | ClassTypeError | ClassAxiosError
| ClassMongoServerError | ClassMongoNetworkError | ClassMongooseError
| ClassValidationError | ClassDatabaseError.

Definition class_name (c : ErrorClass) : string :=
  match c with
  | ClassError => "Error"
  | ClassTypeError => "TypeError"
  | ClassAxiosError => "AxiosError"
  | ClassMongoServerError => "MongoServerError"
  | ClassMongoNetworkError => "MongoNetworkError"
  | ClassMongooseError => "MongooseError"
  | ClassValidationError => "ValidationError"
  | ClassDatabaseError => "DatabaseError"
  end.

(** A thrown JavaScript [Error] object. *)
Record JsError := {
  name : ErrorClass;
  message : string;
  response : option AxiosResponse
}.

Definition new_Error (msg : string) : JsError :=
  {| name := ClassError; message := msg; response := None |}.

Definition new_TypeError (msg : string) : JsError :=
  {| name := ClassTypeError; message := msg; response := None |}.

(** [String(error)], that is [Error.prototype.toString] on an object whose
    [name] is not empty. *)
Definition String_of_error (e : JsError) : string :=
  if String.eqb (message e) EmptyString then class_name (name e)
  else class_name (name e) ++ ": " ++ message e.

(** [error?.response?.data] *)
Definition response_data (e : JsError) : option ErrorData :=
  match response e with
  | Some r => data r
  | None => None
  end.

Record WaMessage := { msg_id : option string }.

(** [res.data] of a successful call. *)
Record ResponseData := { messages : option (list WaMessage) }.

Inductive HttpReply :=
| Http2xx (body : option ResponseData)
| HttpFailure (e : JsError).

(** [result?.messages?.[0]?.id] *)
Definition first_message_id (result : option ResponseData) : option string :=
  match result with
  | Some d =>
      match messages d with
      | Some (m :: _) => msg_id m
      | _ => None
      end
  | None => None
  end.

(** The body each wrapper runs on the reply of [axios.post]: the success
    check of the [try] block, then the [catch] block, which also receives
    the errors the check throws. *)
Definition check_success (reply : HttpReply) : JsError + ResponseData :=
  match reply with
  | Http2xx (Some d) =>
      match messages d with
      | Some (m :: _) =>
          if truthy (msg_id m) then inr d
          else inl (new_Error
            "WhatsApp API returned no message ID - number may not be registered on WhatsApp")
      | _ => inl (new_Error
            "WhatsApp API returned invalid response - number may not be registered on WhatsApp")
      end
  | Http2xx None => inl (new_Error
            "WhatsApp API returned invalid response - number may not be registered on WhatsApp")
  | HttpFailure e => inl e
  end.

Definition translate_error (error : JsError) : JsError :=
  match response_data error with
  | Some d =>
      match wa_error d with
      | Some waError =>
          if (code waError =? 131026)%Z then
            new_Error "Phone number is not registered on WhatsApp"
          else if (code waError =? 131021)%Z then
            new_Error "Invalid phone number format"
          else if (code waError =? 131047)%Z then
            new_Error "Phone number is not a WhatsApp number"
          else if (code waError =? 100)%Z then
            new_Error "Invalid parameter - phone number may not be valid or registered on WhatsApp"
          else
            new_Error ("WhatsApp API Error: " ++
              (if truthy (wa_message waError)
               then default EmptyString (wa_message waError) else "Unknown error"))
      | None => error
      end
  | None => error
  end.

Definition wrap_reply (reply : HttpReply) : JsError + ResponseData :=
  match check_success reply with
  | inr d => inr d
  | inl error => inl (translate_error error)
  end.

(** ** The documents *)

Inductive MsgType := TEXT | IMAGE | DOCUMENT | TEMPLATE.

(** The type of a bulk send: ['TEXT' | 'IMAGE' | 'DOCUMENT']. *)
Module Bulk.
Inductive type := TEXT | IMAGE | DOCUMENT.
End Bulk.

Definition msg_type (t : Bulk.type) : MsgType :=
  match t with
  | Bulk.TEXT => TEXT
  | Bulk.IMAGE => IMAGE
  | Bulk.DOCUMENT => DOCUMENT
  end.

Inductive Payload :=
| PayloadText (body : option string)
| PayloadImage (imageUrl caption : option string)
| PayloadDocument (documentUrl caption : option string)
| PayloadMedia (mediaId : string) (filename : string)
    (caption : option string) (operationId : nat).

(** models/MessageLog.ts. [retryCount] has the schema default 0. *)
Module MessageLog.
Inductive Status := QUEUED | SENT | FAILED | DELIVERED | READ | UPLOADED.

Record t := {
    to : string;
    type : MsgType;
    payload : Payload;
    waMessageId : option string;
    status : Status;
    department : option string;
    sentBy : string;
    error : option string;
    retryCount : nat;
    updatedAt : N
  }.

Definition queued (to : string) (type : MsgType) (payload : Payload)
      (department : option string) (sentBy : string) (now : N) : t :=
    {| to := to; type := type; payload := payload; waMessageId := None;
       status := QUEUED; department := department; sentBy := sentBy;
       error := None; retryCount := 0; updatedAt := now |}.
End MessageLog.

(** The [$set] documents the engine builds. *)
Inductive SetDoc :=
| SetSent (waMessageId : option string) (updatedAt : N)
| SetFailed (error : string) (updatedAt : N).

(** [{ updateOne: { filter: { _id }, update: { $set } } }] *)
Record UpdateOne := { filter_id : nat; update : SetDoc }.

Definition apply_set (u : SetDoc) (l : MessageLog.t) : MessageLog.t :=
  match u with
  | SetSent wa at_ =>
      {| MessageLog.to := MessageLog.to l; MessageLog.type := MessageLog.type l;
         MessageLog.payload := MessageLog.payload l;
         MessageLog.waMessageId := wa;
         MessageLog.status := MessageLog.SENT;
         MessageLog.department := MessageLog.department l;
         MessageLog.sentBy := MessageLog.sentBy l;
         MessageLog.error := MessageLog.error l;
         MessageLog.retryCount := MessageLog.retryCount l;
         MessageLog.updatedAt := at_ |}
  | SetFailed err at_ =>
      {| MessageLog.to := MessageLog.to l; MessageLog.type := MessageLog.type l;
         MessageLog.payload := MessageLog.payload l;
         MessageLog.waMessageId := MessageLog.waMessageId l;
         MessageLog.status := MessageLog.FAILED;
         MessageLog.department := MessageLog.department l;
         MessageLog.sentBy := MessageLog.sentBy l;
         MessageLog.error := Some err;
         MessageLog.retryCount := MessageLog.retryCount l;
         MessageLog.updatedAt := at_ |}
  end.

(** models/BulkOperation.ts *)
Module BulkOperation.
Inductive Status := PENDING | PROCESSING | COMPLETED | FAILED.

Record t := {
    name : string;
    type : Bulk.type;
    messageContent : option string;
    mediaUrl : option string;
    caption : option string;
    department : option string;
    totalRecipients : nat;
    processedCount : nat;
    successCount : nat;
    failedCount : nat;
    status : Status;
    sentBy : string;
    error : option string;
    startedAt : option N;
    completedAt : option N
  }.

Definition set_status (s : Status) (o : t) : t :=
    {| name := name o; type := type o; messageContent := messageContent o;
       mediaUrl := mediaUrl o; caption := caption o; department := department o;
       totalRecipients := totalRecipients o; processedCount := processedCount o;
       successCount := successCount o; failedCount := failedCount o;
       status := s; sentBy := sentBy o; error := error o;
       startedAt := startedAt o; completedAt := completedAt o |}.

Definition set_counts (p s f : nat) (o : t) : t :=
    {| name := name o; type := type o; messageContent := messageContent o;
       mediaUrl := mediaUrl o; caption := caption o; department := department o;
       totalRecipients := totalRecipients o; processedCount := p;
       successCount := s; failedCount := f;
       status := status o; sentBy := sentBy o; error := error o;
       startedAt := startedAt o; completedAt := completedAt o |}.

Definition set_error (e : string) (o : t) : t :=
    {| name := name o; type := type o; messageContent := messageContent o;
       mediaUrl := mediaUrl o; caption := caption o; department := department o;
       totalRecipients := totalRecipients o; processedCount := processedCount o;
       successCount := successCount o; failedCount := failedCount o;
       status := status o; sentBy := sentBy o; error := Some e;
       startedAt := startedAt o; completedAt := completedAt o |}.

Definition set_completedAt (d : N) (o : t) : t :=
    {| name := name o; type := type o; messageContent := messageContent o;
       mediaUrl := mediaUrl o; caption := caption o; department := department o;
       totalRecipients := totalRecipients o; processedCount := processedCount o;
       successCount := successCount o; failedCount := failedCount o;
       status := status o; sentBy := sentBy o; error := error o;
       startedAt := startedAt o; completedAt := Some d |}.
End BulkOperation.

(** The request of a bulk send ([BulkMessageData]). *)
Module BulkMessageData.
Record t := {
    type : Bulk.type;
    messageContent : option string;
    mediaUrl : option string;
    imageUrl : option string;
    documentUrl : option string;
    mediaId : option string;
    caption : option string;
    department : string;
    mobileNumbers : list string;
    sentBy : string;
    operationName : string
  }.
End BulkMessageData.

(** ** The world, its oracles and the monad of asynchronous code *)

(** The body of a [POST .../messages] call, as far as the wrappers differ. *)
Inductive WaRequest :=
| ReqText (to : string) (body : option string)
| ReqImageLink (to : string) (link : string) (caption : string)
| ReqImageId (to : string) (mediaId : string) (caption : string)
| ReqDocument (to : string) (link : option string) (caption : option string)
| ReqTemplateDocument (to : string) (mediaId : string).

Definition request_to (r : WaRequest) : string :=
  match r with
  | ReqText to _ | ReqImageLink to _ _ | ReqImageId to _ _
  | ReqDocument to _ _ | ReqTemplateDocument to _ => to
  end.

Inductive StoreCall :=
| CallCreate | CallFindById | CallSave
| CallInsertMany | CallBulkWrite | CallFindByIdAndUpdate.

Inductive Event :=
| EvRequest (req : WaRequest)
| EvSleep (ms : N)
| EvUpdate (u : UpdateOne)
| EvStoreFault (c : StoreCall) (e : JsError)
| EvConsoleError (what : string).

(** The environment: what the gateway answers to the n-th request of the
    run, whether the n-th storage call of the run fails, and which of the
    workers of a chunk that await something goes on next: [arrival tr k] is
    asked with the trace so far when [k] workers of the chunk have been
    resumed, and is taken modulo the number of workers that wait. *)
Record Env := {
  gateway : nat -> WaRequest -> HttpReply;
  store_fault : nat -> StoreCall -> option JsError;
  arrival : list Event -> nat -> nat
}.

Record World := {
  messageLogs : list MessageLog.t;        (* the collection; [_id] = position *)
  operationSaves : list BulkOperation.t;  (* states of the Operation record in
                                             the store, oldest first *)
  bulkOperation : option BulkOperation.t; (* the in-memory document *)
  trace : list Event;
  now : N;                                (* logical clock, milliseconds *)
  requests : nat;
  storeCalls : nat
}.

Definition emptyWorld : World :=
  {| messageLogs := []; operationSaves := []; bulkOperation := None;
     trace := []; now := 0%N; requests := 0; storeCalls := 0 |}.

Inductive Outcome (A : Type) :=
| Ret (a : A)
| Throw (e : JsError)
| Diverge.
Arguments Ret {A} a.
Arguments Throw {A} e.
Arguments Diverge {A}.

Definition M (A : Type) : Type := World -> Outcome A * World.

Definition ret {A} (a : A) : M A := fun w => (Ret a, w).
Definition throw {A} (e : JsError) : M A := fun w => (Throw e, w).
Definition diverge {A} : M A := fun w => (Diverge, w).

Definition bind {A B} (m : M A) (k : A -> M B) : M B :=
  fun w =>
    match m w with
    | (Ret a, w') => k a w'
    | (Throw e, w') => (Throw e, w')
    | (Diverge, w') => (Diverge, w')
    end.

(** [try { m } catch (e) { h e }] *)
Definition try_catch {A} (m : M A) (h : JsError -> M A) : M A :=
  fun w =>
    match m w with
    | (Throw e, w') => h e w'
    | r => r
    end.

Notation "x <- m ;; k" := (bind m (fun x => k))
  (at level 90, m at level 80, right associativity).
Notation "m ;;; k" := (bind m (fun _ => k))
  (at level 90, right associativity).

Definition emit (ev : Event) : M unit :=
  fun w =>
    (Ret tt,
     {| messageLogs := messageLogs w; operationSaves := operationSaves w;
        bulkOperation := bulkOperation w; trace := trace w ++ [ev];
        now := now w; requests := requests w; storeCalls := storeCalls w |}).

(** [new Date()] *)
Definition new_Date : M N := fun w => (Ret (now w), w).

(** [await new Promise(resolve => setTimeout(resolve, ms))] *)
Definition sleep (ms : N) : M unit :=
  fun w =>
    (Ret tt,
     {| messageLogs := messageLogs w; operationSaves := operationSaves w;
        bulkOperation := bulkOperation w; trace := trace w ++ [EvSleep ms];
        now := (now w + ms)%N; requests := requests w;
        storeCalls := storeCalls w |}).

Definition console_error (what : string) : M unit := emit (EvConsoleError what).

(** [await axios.post(...)] *)
Definition axios_post (env : Env) (req : WaRequest) : M HttpReply :=
  fun w =>
    (Ret (gateway env (requests w) req),
     {| messageLogs := messageLogs w; operationSaves := operationSaves w;
        bulkOperation := bulkOperation w; trace := trace w ++ [EvRequest req];
        now := now w; requests := S (requests w);
        storeCalls := storeCalls w |}).

(** Every storage call first asks the environment whether it fails. *)
Definition store_call (env : Env) (c : StoreCall) : M unit :=
  fun w =>
    let w' :=
      {| messageLogs := messageLogs w; operationSaves := operationSaves w;
         bulkOperation := bulkOperation w; trace := trace w;
         now := now w; requests := requests w;
         storeCalls := S (storeCalls w) |} in
    match store_fault env (storeCalls w) c with
    | Some e => (emit (EvStoreFault c e) ;;; throw e) w'
    | None => (Ret tt, w')
    end.

Definition set_messageLogs (ls : list MessageLog.t) (w : World) : World :=
  {| messageLogs := ls; operationSaves := operationSaves w;
     bulkOperation := bulkOperation w; trace := trace w; now := now w;
     requests := requests w; storeCalls := storeCalls w |}.

Definition set_operationSaves (ss : list BulkOperation.t) (w : World) : World :=
  {| messageLogs := messageLogs w; operationSaves := ss;
     bulkOperation := bulkOperation w; trace := trace w; now := now w;
     requests := requests w; storeCalls := storeCalls w |}.

Definition set_bulkOperation (o : option BulkOperation.t) (w : World) : World :=
  {| messageLogs := messageLogs w; operationSaves := operationSaves w;
     bulkOperation := o; trace := trace w; now := now w;
     requests := requests w; storeCalls := storeCalls w |}.

(** ** The storage calls *)

(** [MessageLogModel.insertMany(docs)]: appends the documents and returns
    them; a created document is identified by its [_id]. *)
Definition insertMany (env : Env) (docs : list MessageLog.t) : M (list nat) :=
  store_call env CallInsertMany ;;;
  fun w =>
    (Ret (seq (length (messageLogs w)) (length docs)),
     set_messageLogs (messageLogs w ++ docs) w).

(** One [updateOne]: a filter that matches no document changes nothing. *)
Definition write_update (u : UpdateOne) : M unit :=
  fun w =>
    match messageLogs w !! filter_id u with
    | Some _ =>
        emit (EvUpdate u)
          (set_messageLogs
             (alter (apply_set (update u)) (filter_id u) (messageLogs w)) w)
    | None => (Ret tt, w)
    end.

Fixpoint write_updates (us : list UpdateOne) : M unit :=
  match us with
  | [] => ret tt
  | u :: rest => write_update u ;;; write_updates rest
  end.

(** [MessageLogModel.bulkWrite(ops)]; a failing call writes nothing. *)
Definition bulkWrite (env : Env) (ops : list UpdateOne) : M unit :=
  store_call env CallBulkWrite ;;; write_updates ops.

(** [MessageLogModel.findByIdAndUpdate(_id, update)] *)
Definition findByIdAndUpdate (env : Env) (u : UpdateOne) : M unit :=
  store_call env CallFindByIdAndUpdate ;;; write_update u.

(** [BulkOperationModel.create(doc)] *)
Definition create (env : Env) (doc : BulkOperation.t) : M unit :=
  store_call env CallCreate ;;;
  fun w =>
    (Ret tt,
     set_bulkOperation (Some doc)
       (set_operationSaves (operationSaves w ++ [doc]) w)).

(** [BulkOperationModel.findById(operationId)]: the record as last saved. *)
Definition findById (env : Env) : M (option BulkOperation.t) :=
  store_call env CallFindById ;;;
  fun w =>
    (Ret (last (operationSaves w)),
     set_bulkOperation (last (operationSaves w)) w).

(** An assignment to a field of the in-memory document. *)
Definition assign (f : BulkOperation.t -> BulkOperation.t) : M unit :=
  fun w => (Ret tt, set_bulkOperation (f <$> bulkOperation w) w).

(** [await bulkOperation.save()] *)
Definition save (env : Env) : M unit :=
  store_call env CallSave ;;;
  fun w =>
    match bulkOperation w with
    | Some doc => (Ret tt, set_operationSaves (operationSaves w ++ [doc]) w)
    | None => (Ret tt, w)
    end.

(** ** services/whatsapp.ts: the wrappers *)

Definition finish (r : JsError + ResponseData) : M ResponseData :=
  match r with
  | inr d => ret d
  | inl e => throw e
  end.

Definition sendText (env : Env) (to : string) (body : option string)
    : M ResponseData :=
  res <- axios_post env (ReqText to body) ;;
  finish (wrap_reply res).

(** The parameter [caption] has the default [''] *)
Definition sendImage (env : Env) (to : string)
    (imageUrl mediaId caption : option string) : M ResponseData :=
  let caption := default EmptyString caption in
  if truthy mediaId then
    res <- axios_post env (ReqImageId to (default EmptyString mediaId) caption) ;;
    finish (wrap_reply res)
  else if truthy imageUrl then
    res <- axios_post env (ReqImageLink to (default EmptyString imageUrl) caption) ;;
    finish (wrap_reply res)
  else throw (new_Error "Either mediaId or imageUrl must be provided").

Definition sendDocument (env : Env) (to : string)
    (documentUrl caption : option string) : M ResponseData :=
  res <- axios_post env (ReqDocument to documentUrl caption) ;;
  finish (wrap_reply res).

Definition sendDocumentByMediaId (env : Env) (to : string) (mediaId : string)
    : M ResponseData :=
  res <- axios_post env (ReqTemplateDocument to mediaId) ;;
  finish (wrap_reply res).

(** ** services/csvProcessor.ts: the dispatch worker *)

Definition maxRetries : nat := 2.

(** The [switch (type)] of one attempt; [result] is undefined until a
    wrapper returns. *)
Definition send_by_type (env : Env) (md : BulkMessageData.t)
    (mobileNumber : string) : M (option ResponseData) :=
  match BulkMessageData.type md with
  | Bulk.TEXT =>
      r <- sendText env mobileNumber (BulkMessageData.messageContent md) ;;
      ret (Some r)
  | Bulk.IMAGE =>
      r <- sendImage env mobileNumber
             (js_or (BulkMessageData.imageUrl md) (BulkMessageData.mediaUrl md))
             None (BulkMessageData.caption md) ;;
      ret (Some r)
  | Bulk.DOCUMENT =>
      if truthy (BulkMessageData.mediaId md) then
        r <- sendDocumentByMediaId env mobileNumber
               (default EmptyString (BulkMessageData.mediaId md)) ;;
        ret (Some r)
      else
        r <- sendDocument env mobileNumber
               (js_or (BulkMessageData.documentUrl md) (BulkMessageData.mediaUrl md))
               (BulkMessageData.caption md) ;;
        ret (Some r)
  end.

(** [while (retries <= maxRetries) { try { send; break } catch (retryError) {
      retries++; if (retries > maxRetries) throw retryError;
      await sleep(Math.pow(2, retries) * 1000) } }] *)
Fixpoint retryLoop (env : Env) (md : BulkMessageData.t) (mobileNumber : string)
    (fuel retries : nat) : M (option ResponseData) :=
  match fuel with
  | O => diverge
  | S fuel' =>
      if (retries <=? maxRetries)%nat then
        try_catch (send_by_type env md mobileNumber)
          (fun retryError =>
             let retries := S retries in
             if (maxRetries <? retries)%nat then throw retryError
             else
               sleep (2 ^ N.of_nat retries * 1000)%N ;;;
               retryLoop env md mobileNumber fuel' retries)
      else ret None
  end.

(** How a worker's promise settles. *)
Inductive Settled :=
| Fulfilled (success : bool)
| Rejected (reason : JsError).

(** [error?.response?.data ? JSON.stringify(error.response.data) : String(error)] *)
Definition error_detail (error : JsError) : string :=
  match response_data error with
  | Some d => JSON_stringify d
  | None => String_of_error error
  end.

(** Runs [m] and hands its result or its exception to the caller. *)
Definition attempt {A} (m : M A) : M (JsError + A) :=
  try_catch (a <- m ;; ret (inr a)) (fun e => ret (inl e)).

(** The end of a worker: the update is pushed on [bulkUpdates]. Reading
    [messageLog._id] of an undefined [messageLog] throws in the [try] and
    again in the [catch], which rejects the promise. *)
Definition push_outcome (messageLog : option nat)
    (r : JsError + option string) (bulkUpdates : list UpdateOne)
    : M (Settled * list UpdateOne) :=
  match messageLog with
  | None =>
      ret (Rejected (new_TypeError
             "Cannot read properties of undefined (reading '_id')"),
           bulkUpdates)
  | Some _id =>
      d <- new_Date ;;
      match r with
      | inr waMessageId =>
          ret (Fulfilled true,
               (bulkUpdates ++
                  [{| filter_id := _id; update := SetSent waMessageId d |}])%list)
      | inl error =>
          ret (Fulfilled false,
               (bulkUpdates ++
                  [{| filter_id := _id;
                      update := SetFailed (error_detail error) d |}])%list)
      end
  end.

(** The callback of [chunk.map(async (mobileNumber, index) => ...)], from
    its call to its end when no other worker runs between its [await]s. *)
Definition worker (env : Env) (md : BulkMessageData.t) (createdLogs : list nat)
    (bulkUpdates : list UpdateOne) (mobileNumber : string) (index : nat)
    : M (Settled * list UpdateOne) :=
  let messageLog := createdLogs !! index in
  r <- attempt (retryLoop env md mobileNumber (S maxRetries) 0) ;;
  push_outcome messageLog
    (match r with
     | inr result => inr (first_message_id result)
     | inl error => inl error
     end)
    bulkUpdates.

(** ** The workers of a chunk

    [chunk.map(async ...)] calls the workers one after the other; a call
    runs up to the first [await] of the worker. From then on a worker goes
    on when what it awaits is there, the reply to its request or the end
    of its pause, and runs alone up to its next [await] or its end. Which
    of the waiting workers goes on next is up to the environment. *)

(** A worker of a chunk awaits something or its promise has settled. *)
Inductive Phase (W : Type) :=
| Waits (awaited : W)
| Done (s : Settled).
Arguments Waits {W} awaited.
Arguments Done {W} s.

(** A callback of [chunk.map], cut at its [await]s: [begin] is the call, up
    to the first [await]; [resume] goes from one [await] to the next, or to
    the end of the callback. [bulkUpdates] is the array the workers share. *)
Record Steps (W : Type) := {
  begin : string -> nat -> M W;
  resume : string -> nat -> W -> list UpdateOne -> M (Phase W * list UpdateOne)
}.
Arguments begin {W} _ _ _.
Arguments resume {W} _ _ _ _ _.

Definition settle {W} (m : M (Settled * list UpdateOne))
    : M (Phase W * list UpdateOne) :=
  p <- m ;; ret (Done (fst p), snd p).

(** The end of a pause of [ms] milliseconds that is due at [due]: the clock
    is at [due] or later. *)
Definition wake (ms due : N) : M unit :=
  fun w =>
    (Ret tt,
     {| messageLogs := messageLogs w; operationSaves := operationSaves w;
        bulkOperation := bulkOperation w; trace := trace w ++ [EvSleep ms];
        now := N.max (now w) due; requests := requests w;
        storeCalls := storeCalls w |}).

(** What a worker of the background path awaits: the outcome of the send
    of attempt [retries], which is fixed when the request is posted, or the
    end of the pause before attempt [retries]. *)
Inductive Waiting :=
| AwaitSend (retries : nat) (sent : JsError + option ResponseData)
| AwaitPause (retries : nat) (ms due : N).

(** The callback of the background path, cut at its [await]s. *)
Definition workerSteps (env : Env) (md : BulkMessageData.t)
    (createdLogs : list nat) : Steps Waiting :=
  {| begin := fun mobileNumber index =>
       sent <- attempt (send_by_type env md mobileNumber) ;;
       ret (AwaitSend 0 sent);
     resume := fun mobileNumber index awaited bulkUpdates =>
       let messageLog := createdLogs !! index in
       match awaited with
       | AwaitSend retries (inr result) =>
           settle (push_outcome messageLog (inr (first_message_id result))
                     bulkUpdates)
       | AwaitSend retries (inl retryError) =>
           let retries := S retries in
           if (maxRetries <? retries)%nat then
             settle (push_outcome messageLog (inl retryError) bulkUpdates)
           else
             d <- new_Date ;;
             let ms := (2 ^ N.of_nat retries * 1000)%N in
             ret (Waits (AwaitPause retries ms (d + ms)), bulkUpdates)
       | AwaitPause retries ms due =>
           wake ms due ;;;
           if (retries <=? maxRetries)%nat then
             sent <- attempt (send_by_type env md mobileNumber) ;;
             ret (Waits (AwaitSend retries sent), bulkUpdates)
           else
             settle (push_outcome messageLog (inr (first_message_id None))
                       bulkUpdates)
       end |}.

(** A worker awaits [maxRetries + 1] sends and [maxRetries] pauses at most.
    The loop that resumes the workers of a chunk until all have settled
    runs on fuel for that many turns per worker. *)
Definition maxAwaits : nat := 2 * maxRetries + 1.

Definition past : M (list Event) := fun w => (Ret (trace w), w).

Section RunChunk.
Context {W : Type}.
Variables (env : Env) (work : Steps W).

(** [chunk.map(async ...)]: every worker, in index order, up to its first
    [await]. *)
Fixpoint startAll (chunk : list string) (index : nat) : M (list (Phase W)) :=
  match chunk with
  | [] => ret []
  | mobileNumber :: rest =>
      awaited <- begin work mobileNumber index ;;
      others <- startAll rest (S index) ;;
      ret (Waits awaited :: others)
  end.

(** The workers that await something, with their index and recipient. *)
Fixpoint waitingFrom (index : nat) (chunk : list string)
    (phases : list (Phase W)) : list (nat * string * W) :=
  match chunk, phases with
  | mobileNumber :: chunk', Waits awaited :: phases' =>
      (index, mobileNumber, awaited) :: waitingFrom (S index) chunk' phases'
  | _ :: chunk', Done _ :: phases' => waitingFrom (S index) chunk' phases'
  | _, _ => []
  end.

(** What [Promise.allSettled] resolves with: the outcomes in the order of
    the promises. *)
Definition outcomes (phases : list (Phase W)) : list Settled :=
  omap (fun phase => match phase with Done s => Some s | Waits _ => None end)
    phases.

(** [await Promise.allSettled(promises)]: as long as a worker waits, one of
    the waiting workers goes on. *)
Fixpoint settleAll (fuel turn : nat) (chunk : list string)
    (phases : list (Phase W)) (bulkUpdates : list UpdateOne)
    : M (list Settled * list UpdateOne) :=
  match waitingFrom 0 chunk phases with
  | [] => ret (outcomes phases, bulkUpdates)
  | first :: others =>
      match fuel with
      | O => diverge
      | S fuel' =>
          tr <- past ;;
          let '(index, mobileNumber, awaited) :=
            nth (arrival env tr turn mod S (length others)) (first :: others)
              first in
          q <- resume work mobileNumber index awaited bulkUpdates ;;
          settleAll fuel' (S turn) chunk (<[index := fst q]> phases) (snd q)
      end
  end.

(** The promises of one chunk. *)
Definition runChunk (chunk : list string) (bulkUpdates : list UpdateOne)
    : M (list Settled * list UpdateOne) :=
  phases <- startAll chunk 0 ;;
  settleAll (length chunk * maxAwaits) 0 chunk phases bulkUpdates.
End RunChunk.

(** [results.forEach(...)]: a rejected promise counts as a failure. *)
Definition count_result (c : nat * nat) (r : Settled) : nat * nat :=
  match r with
  | Fulfilled true => (S (fst c), snd c)
  | Fulfilled false => (fst c, S (snd c))
  | Rejected _ => (fst c, S (snd c))
  end.

Definition count_results (results : list Settled) (c : nat * nat) : nat * nat :=
  foldl count_result c results.

(** [for (const chunk of concurrencyChunks)]: [k] is the position of the
    chunk, what [concurrencyChunks.indexOf(chunk)] finds. Inside the loop
    [nchunks >= 1], so [nchunks - 1] is the exact difference. *)
Fixpoint chunkLoop {W} (env : Env) (work : Steps W)
    (concurrencyChunks : list (list string)) (nchunks k : nat)
    (counts : nat * nat) (bulkUpdates : list UpdateOne)
    : M (nat * nat * list UpdateOne) :=
  match concurrencyChunks with
  | [] => ret (counts, bulkUpdates)
  | chunk :: rest =>
      p <- runChunk env work chunk bulkUpdates ;;
      let counts := count_results (fst p) counts in
      (if (k <? nchunks - 1)%nat then sleep 25%N else ret tt) ;;;
      chunkLoop env work rest nchunks (S k) counts (snd p)
  end.

(** The fallback of the bulk update: one [findByIdAndUpdate] per update, a
    failing one is logged. *)
Fixpoint individual_updates (env : Env) (bulkUpdates : list UpdateOne) : M unit :=
  match bulkUpdates with
  | [] => ret tt
  | u :: rest =>
      try_catch (findByIdAndUpdate env u)
        (fun individualError => console_error "Individual update failed") ;;;
      individual_updates env rest
  end.

Definition queued_payload (md : BulkMessageData.t) : Payload :=
  let media :=
    js_or (BulkMessageData.mediaUrl md)
      (js_or (BulkMessageData.imageUrl md)
         (js_or (BulkMessageData.documentUrl md) (BulkMessageData.mediaId md))) in
  match BulkMessageData.type md with
  | Bulk.TEXT => PayloadText (BulkMessageData.messageContent md)
  | Bulk.IMAGE => PayloadImage media (BulkMessageData.caption md)
  | Bulk.DOCUMENT => PayloadDocument media (BulkMessageData.caption md)
  end.

Record BatchResult := { processed : nat; success : nat; failed : nat }.

Definition processBatchWithConcurrency (env : Env) (mobileNumbers : list string)
    (md : BulkMessageData.t) (startIndex : nat) (config : Config)
    : M BatchResult :=
  d <- new_Date ;;
  let messageLogs :=
    map (fun number =>
           MessageLog.queued (formatMobileNumber number)
             (msg_type (BulkMessageData.type md)) (queued_payload md)
             (Some (BulkMessageData.department md))
             (BulkMessageData.sentBy md) d)
        mobileNumbers in
  createdLogs <- insertMany env messageLogs ;;
  match batches mobileNumbers (CONCURRENCY_LIMIT config) with
  | None => diverge
  | Some concurrencyChunks =>
      r <- chunkLoop env (workerSteps env md createdLogs) concurrencyChunks
             (length concurrencyChunks) 0 (0, 0) [] ;;
      let bulkUpdates := snd r in
      (if (0 <? length bulkUpdates)%nat then
         try_catch (bulkWrite env bulkUpdates)
           (fun error =>
              console_error "Error in batch update" ;;;
              individual_updates env bulkUpdates)
       else ret tt) ;;;
      ret {| processed := length mobileNumbers;
             success := fst (fst r); failed := snd (fst r) |}
  end.

(** The batch loop of [processBulkMessagesInBackground]; the three counters
    are its local variables. *)
Fixpoint batchLoop (env : Env) (md : BulkMessageData.t) (config : Config)
    (bs : list (list string)) (nbatches batchIndex : nat)
    (processedCount successCount failedCount : nat) : M unit :=
  match bs with
  | [] => ret tt
  | batch :: rest =>
      batchResults <- processBatchWithConcurrency env batch md
                        (batchIndex * BATCH_SIZE config) config ;;
      let processedCount := processedCount + processed batchResults in
      let successCount := successCount + success batchResults in
      let failedCount := failedCount + failed batchResults in
      assign (BulkOperation.set_counts processedCount successCount failedCount) ;;;
      (if (batchIndex mod 3 =? 0)%nat || (batchIndex =? nbatches - 1)%nat
       then save env else ret tt) ;;;
      (if (batchIndex <? nbatches - 1)%nat
       then sleep (N.of_nat (RATE_LIMIT_DELAY config)) else ret tt) ;;;
      batchLoop env md config rest nbatches (S batchIndex)
        processedCount successCount failedCount
  end.

Definition processBulkMessagesInBackground (env : Env)
    (mobileNumbers : list string) (md : BulkMessageData.t) : M unit :=
  found <- findById env ;;
  match found with
  | None => ret tt
  | Some _ =>
      assign (BulkOperation.set_status BulkOperation.PROCESSING) ;;;
      save env ;;;
      try_catch
        (let config := getOptimalConfig (Z.of_nat (length mobileNumbers)) in
         match batches mobileNumbers (BATCH_SIZE config) with
         | None => diverge
         | Some bs =>
             batchLoop env md config bs (length bs) 0 0 0 0 ;;;
             assign (BulkOperation.set_status BulkOperation.COMPLETED) ;;;
             d <- new_Date ;;
             assign (BulkOperation.set_completedAt d) ;;;
             save env
         end)
        (fun error =>
           assign (BulkOperation.set_status BulkOperation.FAILED) ;;;
           assign (BulkOperation.set_error (String_of_error error)) ;;;
           d <- new_Date ;;
           assign (BulkOperation.set_completedAt d) ;;;
           save env ;;;
           console_error "Bulk operation failed")
  end.

(** A call that is not awaited: its exception is not the caller's. *)
Definition detached (m : M unit) : M unit :=
  fun w =>
    match m w with
    | (Diverge, w') => (Diverge, w')
    | (_, w') => (Ret tt, w')
    end.

Definition processBulkMessage (env : Env) (md : BulkMessageData.t) : M unit :=
  d <- new_Date ;;
  create env
    {| BulkOperation.name := BulkMessageData.operationName md;
       BulkOperation.type := BulkMessageData.type md;
       BulkOperation.messageContent := BulkMessageData.messageContent md;
       BulkOperation.mediaUrl :=
         js_or (BulkMessageData.mediaUrl md)
           (js_or (BulkMessageData.imageUrl md)
              (js_or (BulkMessageData.documentUrl md)
                 (BulkMessageData.mediaId md)));
       BulkOperation.caption := BulkMessageData.caption md;
       BulkOperation.department := Some (BulkMessageData.department md);
       BulkOperation.totalRecipients := length (BulkMessageData.mobileNumbers md);
       BulkOperation.processedCount := 0;
       BulkOperation.successCount := 0;
       BulkOperation.failedCount := 0;
       BulkOperation.status := BulkOperation.PENDING;
       BulkOperation.sentBy := BulkMessageData.sentBy md;
       BulkOperation.error := None;
       BulkOperation.startedAt := Some d;
       BulkOperation.completedAt := None |} ;;;
  detached
    (processBulkMessagesInBackground env (BulkMessageData.mobileNumbers md) md).

(** ** routes/send.ts: [POST /csv-bulk-document], from the creation of the
    Operation record to its completion *)

(** [batch.indexOf(mobileNumber)] *)
Fixpoint indexOf (xs : list string) (x : string) : option nat :=
  match xs with
  | [] => None
  | y :: rest => if String.eqb y x then Some 0 else S <$> indexOf rest x
  end.

Record RouteRequest := {
  rq_mobileNumbers : list string;   (* csvData.mobileNumbers *)
  rq_mediaId : string;              (* of the uploaded document *)
  rq_filename : string;
  rq_caption : option string;
  rq_department : option string;
  rq_operationName : string;
  rq_userId : string
}.

(** The callback of [chunk.map] in the route, from its call to its end
    when no other worker runs in between. *)
Definition routeWorker (env : Env) (rq : RouteRequest) (batch : list string)
    (createdLogs : list nat) (bulkUpdates : list UpdateOne)
    (mobileNumber : string) (index : nat) : M (Settled * list UpdateOne) :=
  let batchIndex := indexOf batch mobileNumber in
  let messageLog := batchIndex ≫= (fun i => createdLogs !! i) in
  r <- attempt (sendDocumentByMediaId env mobileNumber (rq_mediaId rq)) ;;
  push_outcome messageLog
    (match r with
     | inr data => inr (first_message_id (Some data))
     | inl error => inl error
     end)
    bulkUpdates.

(** The same callback, cut at its only [await]: what it awaits is the
    outcome of its send. *)
Definition routeWorkerSteps (env : Env) (rq : RouteRequest)
    (batch : list string) (createdLogs : list nat)
    : Steps (JsError + ResponseData) :=
  {| begin := fun mobileNumber index =>
       attempt (sendDocumentByMediaId env mobileNumber (rq_mediaId rq));
     resume := fun mobileNumber index sent bulkUpdates =>
       let batchIndex := indexOf batch mobileNumber in
       let messageLog := batchIndex ≫= (fun i => createdLogs !! i) in
       settle (push_outcome messageLog
                 (match sent with
                  | inr data => inr (first_message_id (Some data))
                  | inl error => inl error
                  end)
                 bulkUpdates) |}.

Fixpoint routeBatchLoop (env : Env) (rq : RouteRequest)
    (bs : list (list string)) (nbatches batchIndex : nat)
    (processedCount successCount failedCount : nat) : M unit :=
  match bs with
  | [] => ret tt
  | batch :: rest =>
      d <- new_Date ;;
      let messageLogs :=
        map (fun mobileNumber =>
               MessageLog.queued mobileNumber DOCUMENT
                 (PayloadMedia (rq_mediaId rq) (rq_filename rq)
                    (rq_caption rq) 0)
                 (rq_department rq) (rq_userId rq) d)
            batch in
      createdLogs <- insertMany env messageLogs ;;
      match batches batch (CONCURRENCY_LIMIT routeConfig) with
      | None => diverge
      | Some concurrencyChunks =>
          r <- chunkLoop env (routeWorkerSteps env rq batch createdLogs)
                 concurrencyChunks (length concurrencyChunks) 0
                 (successCount, failedCount) [] ;;
          let successCount := fst (fst r) in
          let failedCount := snd (fst r) in
          let bulkUpdates := snd r in
          (if (0 <? length bulkUpdates)%nat then
             try_catch (bulkWrite env bulkUpdates)
               (fun error => console_error "Error in batch update")
           else ret tt) ;;;
          let processedCount := processedCount + length batch in
          assign (BulkOperation.set_counts processedCount successCount failedCount) ;;;
          (if (batchIndex mod 3 =? 0)%nat || (batchIndex =? nbatches - 1)%nat
           then save env else ret tt) ;;;
          (if (batchIndex <? nbatches - 1)%nat
           then sleep (N.of_nat (RATE_LIMIT_DELAY routeConfig)) else ret tt) ;;;
          routeBatchLoop env rq rest nbatches (S batchIndex)
            processedCount successCount failedCount
      end
  end.

Definition csvBulkDocument (env : Env) (rq : RouteRequest) : M unit :=
  if (length (rq_mobileNumbers rq) =? 0)%nat then
    throw {| name := ClassValidationError;
             message := "No valid mobile numbers found in CSV file";
             response := None |}
  else
    d <- new_Date ;;
    try_catch
      (create env
         {| BulkOperation.name := rq_operationName rq;
            BulkOperation.type := Bulk.DOCUMENT;
            BulkOperation.messageContent := None;
            BulkOperation.mediaUrl := Some (rq_mediaId rq);
            BulkOperation.caption := rq_caption rq;
            BulkOperation.department := rq_department rq;
            BulkOperation.totalRecipients := length (rq_mobileNumbers rq);
            BulkOperation.processedCount := 0;
            BulkOperation.successCount := 0;
            BulkOperation.failedCount := 0;
            BulkOperation.status := BulkOperation.PENDING;
            BulkOperation.sentBy := rq_userId rq;
            BulkOperation.error := None;
            BulkOperation.startedAt := Some d;
            BulkOperation.completedAt := None |})
      (fun error =>
         throw {| name := ClassDatabaseError;
                  message := "Failed to create bulk operation record";
                  response := None |}) ;;;
    assign (BulkOperation.set_status BulkOperation.PROCESSING) ;;;
    save env ;;;
    match batches (rq_mobileNumbers rq) (BATCH_SIZE routeConfig) with
    | None => diverge
    | Some bs =>
        routeBatchLoop env rq bs (length bs) 0 0 0 0 ;;;
        assign (BulkOperation.set_status BulkOperation.COMPLETED) ;;;
        d <- new_Date ;;
        assign (BulkOperation.set_completedAt d) ;;;
        save env
    end.

(** ** Notions used in the statements *)

Definition outcome_of {A} (r : JsError + A) : Outcome A :=
  match r with
  | inr a => Ret a
  | inl e => Throw e
  end.

(** The world after one request. *)
Definition after_request (req : WaRequest) (w : World) : World :=
  {| messageLogs := messageLogs w; operationSaves := operationSaves w;
     bulkOperation := bulkOperation w; trace := trace w ++ [EvRequest req];
     now := now w; requests := S (requests w); storeCalls := storeCalls w |}.

(** The world after a pause. *)
Definition after_sleep (ms : N) (w : World) : World :=
  {| messageLogs := messageLogs w; operationSaves := operationSaves w;
     bulkOperation := bulkOperation w; trace := trace w ++ [EvSleep ms];
     now := (now w + ms)%N; requests := requests w; storeCalls := storeCalls w |}.

(** The request one attempt for [mobileNumber] posts; [sendImage] posts
    none when it is given neither a media id nor a URL. *)
Definition request_of (md : BulkMessageData.t) (mobileNumber : string)
    : option WaRequest :=
  match BulkMessageData.type md with
  | Bulk.TEXT => Some (ReqText mobileNumber (BulkMessageData.messageContent md))
  | Bulk.IMAGE =>
      let url := js_or (BulkMessageData.imageUrl md) (BulkMessageData.mediaUrl md) in
      if truthy url
      then Some (ReqImageLink mobileNumber (default EmptyString url)
                   (default EmptyString (BulkMessageData.caption md)))
      else None
  | Bulk.DOCUMENT =>
      if truthy (BulkMessageData.mediaId md)
      then Some (ReqTemplateDocument mobileNumber
                   (default EmptyString (BulkMessageData.mediaId md)))
      else Some (ReqDocument mobileNumber
                   (js_or (BulkMessageData.documentUrl md) (BulkMessageData.mediaUrl md))
                   (BulkMessageData.caption md))
  end.

(** The recipients of the requests of a trace, in order. *)
Definition destination (ev : Event) : option string :=
  match ev with
  | EvRequest req => Some (request_to req)
  | _ => None
  end.

Definition dests (tr : list Event) : list string := omap destination tr.

Fixpoint all_digits (s : string) : bool :=
  match s with
  | EmptyString => true
  | String c rest => is_digit c && all_digits rest
  end.

(** [ms] with its i-th element taken [ns !! i] times. *)
Definition repeated (ns : list nat) (ms : list string) : list string :=
  concat (zip_with (fun n to => replicate n to) ns ms).

(** Whether an attempt for this message posts a request. *)
Definition posts (md : BulkMessageData.t) : bool :=
  match request_of md EmptyString with
  | Some _ => true
  | None => false
  end.

(** The updates a trace applied to the record [_id], in order. *)
Definition update_for (_id : nat) (ev : Event) : option SetDoc :=
  match ev with
  | EvUpdate u => if (filter_id u =? _id)%nat then Some (update u) else None
  | _ => None
  end.

Definition updates_of (tr : list Event) (_id : nat) : list SetDoc :=
  omap (update_for _id) tr.

Definition is_store_fault (ev : Event) : bool :=
  match ev with
  | EvStoreFault _ _ => true
  | _ => false
  end.

(** A storage call of the run has failed. *)
Definition faulted (w : World) : Prop :=
  Exists (fun ev => is_store_fault ev = true) (trace w).




(** Steps that leave the Operation record and the recipients of the stored
    Dispatch Records alone and add only [allowed] events to the trace. *)
Definition tos (w : World) : list string := map MessageLog.to (messageLogs w).

Definition quiet_step (allowed : Event -> Prop) (w w' : World) : Prop :=
  operationSaves w' = operationSaves w /\
  bulkOperation w' = bulkOperation w /\
  tos w' = tos w /\
  exists evs, trace w' = (trace w ++ evs)%list /\ Forall allowed evs.

Definition steps (allowed : Event -> Prop) {A} (m : M A) : Prop :=
  forall w, quiet_step allowed w (snd (m w)).

Definition any_event (ev : Event) : Prop := True.

Definition not_request (ev : Event) : Prop := destination ev = None.

(** [m] always returns: it neither throws nor runs out of fuel. *)
Definition returns {A} (m : M A) : Prop :=
  forall w, exists a, fst (m w) = Ret a.

(** [m] ends: it returns or throws. *)
Definition halts {A} (m : M A) : Prop :=
  forall w, fst (m w) <> Diverge.

(** The counters of an Operation record. *)
Definition counts_ok (o : BulkOperation.t) : Prop :=
  BulkOperation.processedCount o =
    BulkOperation.successCount o + BulkOperation.failedCount o /\
  BulkOperation.processedCount o <= BulkOperation.totalRecipients o.

Definition settled (o : BulkOperation.t) : nat :=
  BulkOperation.successCount o + BulkOperation.failedCount o.

Definition terminal (o : BulkOperation.t) : bool :=
  match BulkOperation.status o with
  | BulkOperation.COMPLETED | BulkOperation.FAILED => true
  | _ => false
  end.

Definition no_store_fault (env : Env) : Prop :=
  forall n c, store_fault env n c = None.

(** ** Sample environments and requests *)

Definition ok_reply (wamid : string) : HttpReply :=
  Http2xx (Some {| messages := Some [{| msg_id := Some wamid |}] |}).

(** HTTP 400, error 131026: the recipient is not on WhatsApp. *)
Definition unregistered_reply : HttpReply :=
  HttpFailure
    {| name := ClassAxiosError;
       message := "Request failed with status code 400";
       response := Some
         {| http_status := 400;
            data := Some
              {| wa_error := Some {| code := 131026;
                                     wa_message := Some "Message undeliverable" |};
                 json_members := "error" |} |} |}.

(** A network timeout: no response at all. *)
Definition timeout_reply : HttpReply :=
  HttpFailure
    {| name := ClassAxiosError;
       message := "timeout of 10000ms exceeded";
       response := None |}.

Definition env_ok : Env :=
  {| gateway := fun _ _ => ok_reply "wamid.1";
     store_fault := fun _ _ => None;
     arrival := fun _ _ => 0 |}.

(** Every reply is a 2xx whose first message has no id. *)
Definition env_no_id : Env :=
  {| gateway := fun _ _ => Http2xx (Some {| messages := Some [{| msg_id := None |}] |});
     store_fault := fun _ _ => None;
     arrival := fun _ _ => 0 |}.

Definition env_unregistered : Env :=
  {| gateway := fun _ _ => unregistered_reply;
     store_fault := fun _ _ => None;
     arrival := fun _ _ => 0 |}.

Definition env_timeout : Env :=
  {| gateway := fun _ _ => timeout_reply;
     store_fault := fun _ _ => None;
     arrival := fun _ _ => 0 |}.

(** The first two requests time out, the third succeeds. *)
Definition env_third_time : Env :=
  {| gateway := fun n _ => if (n <? 2)%nat then timeout_reply else ok_reply "wamid.1";
     store_fault := fun _ _ => None;
     arrival := fun _ _ => 0 |}.

(** The gateway answers; every [bulkWrite] fails. *)
Definition env_bulkWrite_down : Env :=
  {| gateway := fun _ _ => ok_reply "wamid.1";
     store_fault := fun _ c =>
       match c with
       | CallBulkWrite =>
           Some {| name := ClassMongoNetworkError;
                   message := "connection closed"; response := None |}
       | _ => None
       end;
     arrival := fun _ _ => 0 |}.

(** Every [insertMany] fails. *)
Definition env_insert_down : Env :=
  {| gateway := fun _ _ => ok_reply "wamid.1";
     store_fault := fun _ c =>
       match c with
       | CallInsertMany =>
           Some {| name := ClassMongoNetworkError;
                   message := "connection closed"; response := None |}
       | _ => None
       end;
     arrival := fun _ _ => 0 |}.

(** The gateway answers; the seventh storage call fails if it is a [save]:
    in a run of the background path for one recipient that is the save of
    the COMPLETED state. *)
Definition env_completed_save_down : Env :=
  {| gateway := fun _ _ => ok_reply "wamid.1";
     store_fault := fun n c =>
       match c with
       | CallSave =>
           if (n =? 6)%nat
           then Some {| name := ClassMongoNetworkError;
                        message := "connection closed"; response := None |}
           else None
       | _ => None
       end;
     arrival := fun _ _ => 0 |}.

(** The same gateway and the same store, but the workers of a chunk that
    wait go on in turn: the [k]-th turn is for the waiting worker at
    position [k] modulo their number. With [arrival] constantly 0, as in
    the environments above, the first of the waiting workers goes on. *)
Definition in_turn (env : Env) : Env :=
  {| gateway := gateway env;
     store_fault := store_fault env;
     arrival := fun _ k => k |}.

(** The same again, but of two or more waiting workers the second goes
    on. *)
Definition second_first (env : Env) : Env :=
  {| gateway := gateway env;
     store_fault := store_fault env;
     arrival := fun _ _ => 1 |}.

(** The first request times out, the later ones succeed. *)
Definition env_first_lost : Env :=
  {| gateway := fun n _ => if (n =? 0)%nat then timeout_reply else ok_reply "wamid.1";
     store_fault := fun _ _ => None;
     arrival := fun _ _ => 0 |}.

Definition text_to (numbers : list string) : BulkMessageData.t :=
  {| BulkMessageData.type := Bulk.TEXT;
     BulkMessageData.messageContent := Some "Notice";
     BulkMessageData.mediaUrl := None;
     BulkMessageData.imageUrl := None;
     BulkMessageData.documentUrl := None;
     BulkMessageData.mediaId := None;
     BulkMessageData.caption := None;
     BulkMessageData.department := "MAG";
     BulkMessageData.mobileNumbers := numbers;
     BulkMessageData.sentBy := "clerk";
     BulkMessageData.operationName := "notice" |}.

Definition document_to (numbers : list string) : RouteRequest :=
  {| rq_mobileNumbers := numbers;
     rq_mediaId := "media.1";
     rq_filename := "Notice.pdf";
     rq_caption := None;
     rq_department := Some "MAG";
     rq_operationName := "notice";
     rq_userId := "clerk" |}.

(** A world in which the Operation does not exist yet and nothing has been
    traced; the rest is as in [w]. *)
Definition start (w : World) : World :=
  {| messageLogs := messageLogs w; operationSaves := []; bulkOperation := None;
     trace := []; now := now w; requests := requests w;
     storeCalls := storeCalls w |}.

(** [successCount + failedCount] does not decrease along a history. *)
Definition nondecreasing (l : list BulkOperation.t) : Prop :=
  forall i j oi oj,
    i <= j -> l !! i = Some oi -> l !! j = Some oj -> settled oi <= settled oj.

(** A saved state of an Operation that is not closed yet. *)
Definition in_progress (o : BulkOperation.t) : Prop :=
  counts_ok o /\ terminal o = false /\ BulkOperation.completedAt o = None.

(** The in-memory document during the batch loop. *)
Definition live (T : nat) (doc : BulkOperation.t) : Prop :=
  BulkOperation.totalRecipients doc = T /\
  counts_ok doc /\
  BulkOperation.status doc = BulkOperation.PROCESSING /\
  BulkOperation.completedAt doc = None.

(** The saved states while the in-memory document is [doc]. *)
Definition history (doc : BulkOperation.t) (l : list BulkOperation.t) : Prop :=
  Forall (fun o => in_progress o /\ settled o <= settled doc) l /\
  nondecreasing l.

(** The saved states at the end of a run: states in progress, then at most
    one closing state. A FAILED closing state comes with a storage fault in
    the trace and a non-empty error. *)
Definition closed_by (w' : World) (mid : list BulkOperation.t)
    (d : BulkOperation.t) : Prop :=
  operationSaves w' = (mid ++ [d])%list /\
  counts_ok d /\
  (forall o, o ∈ mid -> settled o <= settled d) /\
  is_Some (BulkOperation.completedAt d) /\
  (BulkOperation.status d = BulkOperation.COMPLETED \/
   (BulkOperation.status d = BulkOperation.FAILED /\
    faulted w' /\
    exists e, BulkOperation.error d = Some e /\ e <> EmptyString)).

Definition run_shape (env : Env) (w' : World) : Prop :=
  exists mid,
    Forall in_progress mid /\ nondecreasing mid /\
    ((operationSaves w' = mid /\ ~ no_store_fault env) \/
     (exists d, closed_by w' mid d /\
                (no_store_fault env ->
                 BulkOperation.status d = BulkOperation.COMPLETED))).

(** The same for the route, which has no [catch] block of its own. *)
Definition route_shape (w' : World) : Prop :=
  exists mid,
    Forall in_progress mid /\ nondecreasing mid /\
    (operationSaves w' = mid \/
     exists d,
       closed_by w' mid d /\
       BulkOperation.status d = BulkOperation.COMPLETED).

(** ** services/csvProcessor.ts: the rows of a CSV file *)

Definition isValidMobileNumber (number : string) : bool :=
  let cleanNumber := strip_non_digits number in
  if (String.length cleanNumber <? 8)%nat || (15 <? String.length cleanNumber)%nat
  then false
  else
    (* /^\d{8,15}$/.test(cleanNumber) *)
    all_digits cleanNumber
    && (8 <=? String.length cleanNumber)%nat
    && (String.length cleanNumber <=? 15)%nat.

(** A row as [csv-parser] hands it over: the header names with their
    values, in the order of [Object.entries]; a name occurs once. *)
Definition CSVRow : Type := list (string * string).

(** [row[key]] *)
Fixpoint row_get (row : CSVRow) (key : string) : option string :=
  match row with
  | [] => None
  | (k, v) :: rest => if String.eqb k key then Some v else row_get rest key
  end.

Definition upper_ascii (c : ascii) : ascii :=
  let n := nat_of_ascii c in
  if (97 <=? n)%nat && (n <=? 122)%nat then ascii_of_nat (n - 32) else c.

Definition lower_ascii (c : ascii) : ascii :=
  let n := nat_of_ascii c in
  if (65 <=? n)%nat && (n <=? 90)%nat then ascii_of_nat (n + 32) else c.

(** [toUpperCase] and [toLowerCase], as they act on the column names. *)
Fixpoint toUpperCase (s : string) : string :=
  match s with
  | EmptyString => EmptyString
  | String c rest => String (upper_ascii c) (toUpperCase rest)
  end.

Fixpoint toLowerCase (s : string) : string :=
  match s with
  | EmptyString => EmptyString
  | String c rest => String (lower_ascii c) (toLowerCase rest)
  end.

Definition possibleColumns : list string :=
  ["mobile"; "phone"; "number"; "contact"; "mobile_number"; "phone_number";
   "contact_number"; "whatsapp"; "whatsapp_number"; "cell"; "cellphone"].

(** [row[col] || row[col.toLowerCase()] || row[col.toUpperCase()]] *)
Definition named_value (row : CSVRow) (col : string) : option string :=
  js_or (row_get row col)
    (js_or (row_get row (toLowerCase col)) (row_get row (toUpperCase col))).

Section FindMobileNumber.
(** [String.prototype.trim] is taken as it is. *)
Variable trim : string -> string.

(** The first loop: the first named column with a non-empty value. *)
Fixpoint find_named (row : CSVRow) (cols : list string) : option string :=
  match cols with
  | [] => None
  | col :: rest =>
      let value := named_value row col in
      if truthy value then Some (trim (default EmptyString value))
      else find_named row rest
  end.

(** The second loop: the first value that is a valid number once trimmed. *)
Fixpoint scan_values (entries : CSVRow) : option string :=
  match entries with
  | [] => None
  | (key, value) :: rest =>
      if truthy (Some value) then
        let trimmed := trim value in
        if isValidMobileNumber trimmed then Some trimmed
        else scan_values rest
      else scan_values rest
  end.

Definition findMobileNumber (row : CSVRow) : option string :=
  match find_named row possibleColumns with
  | Some value => Some value
  | None => scan_values row
  end.
End FindMobileNumber.

Module ParsedCSVData.
Record t := {
    mobileNumbers : list string;
    totalRows : nat;
    validNumbers : nat;
    invalidNumbers : nat;
    errors : list string
  }.
End ParsedCSVData.

(** [`${n}`] for a row number. *)
Definition decimal (n : nat) : string :=
  NilEmpty.string_of_uint (Nat.to_uint n).

(** The handler of the ['data'] event of [parseCSVBuffer]. *)
Definition on_data (trim : string -> string) (acc : ParsedCSVData.t)
    (row : CSVRow) : ParsedCSVData.t :=
  let totalRows := S (ParsedCSVData.totalRows acc) in
  let mobileNumber := findMobileNumber trim row in
  if truthy mobileNumber then
    let number := default EmptyString mobileNumber in
    if isValidMobileNumber number then
      {| ParsedCSVData.mobileNumbers :=
           ParsedCSVData.mobileNumbers acc ++ [number];
         ParsedCSVData.totalRows := totalRows;
         ParsedCSVData.validNumbers := S (ParsedCSVData.validNumbers acc);
         ParsedCSVData.invalidNumbers := ParsedCSVData.invalidNumbers acc;
         ParsedCSVData.errors := ParsedCSVData.errors acc |}
    else
      {| ParsedCSVData.mobileNumbers := ParsedCSVData.mobileNumbers acc;
         ParsedCSVData.totalRows := totalRows;
         ParsedCSVData.validNumbers := ParsedCSVData.validNumbers acc;
         ParsedCSVData.invalidNumbers := S (ParsedCSVData.invalidNumbers acc);
         ParsedCSVData.errors :=
           ParsedCSVData.errors acc ++
             ["Invalid mobile number format: " ++ number ++ " at row "
                ++ decimal totalRows] |}
  else
    {| ParsedCSVData.mobileNumbers := ParsedCSVData.mobileNumbers acc;
       ParsedCSVData.totalRows := totalRows;
       ParsedCSVData.validNumbers := ParsedCSVData.validNumbers acc;
       ParsedCSVData.invalidNumbers := S (ParsedCSVData.invalidNumbers acc);
       ParsedCSVData.errors :=
         ParsedCSVData.errors acc ++
           ["No mobile number found at row " ++ decimal totalRows] |}.

(** [parseCSVBuffer] on the rows the parser emits before ['end']. *)
Definition parseCSVRows (trim : string -> string) (rows : list CSVRow)
    : ParsedCSVData.t :=
  foldl (on_data trim)
    {| ParsedCSVData.mobileNumbers := []; ParsedCSVData.totalRows := 0;
       ParsedCSVData.validNumbers := 0; ParsedCSVData.invalidNumbers := 0;
       ParsedCSVData.errors := [] |}
    rows.

(** ** services/whatsapp.ts: [sendBulkText] *)

(** [{ to, status: 'success', data }] or [{ to, status: 'failed', error }]
    with [error = error.response?.data || error.message]. *)
Inductive BulkTextResult :=
| BulkSuccess (to : string) (data : ResponseData)
| BulkFailed (to : string) (error : string + ErrorData).

Definition result_to (r : BulkTextResult) : string :=
  match r with
  | BulkSuccess to _ | BulkFailed to _ => to
  end.

Definition bulk_result (to : string) (r : JsError + ResponseData)
    : BulkTextResult :=
  match r with
  | inr data => BulkSuccess to data
  | inl error =>
      BulkFailed to
        (match response_data error with
         | Some d => inr d
         | None => inl (message error)
         end)
  end.

(** [for (const to of recipients) { try { ... } catch { ... } }] *)
Fixpoint sendBulkText_loop (env : Env) (recipients : list string)
    (body : string) (results : list BulkTextResult)
    : M (list BulkTextResult) :=
  match recipients with
  | [] => ret results
  | to :: rest =>
      r <- attempt (sendText env to (Some body)) ;;
      sendBulkText_loop env rest body (results ++ [bulk_result to r])
  end.

Definition sendBulkText (env : Env) (recipients : list string) (body : string)
    : M (list BulkTextResult) :=
  sendBulkText_loop env recipients body [].

(** ** routes/send.ts: [POST /bulk], after the validation of the body *)

Definition bulk_log (body : string) (department : option string)
    (userId : string) (now : N) (r : BulkTextResult) : MessageLog.t :=
  {| MessageLog.to := result_to r;
     MessageLog.type := TEXT;
     MessageLog.payload := PayloadText (Some body);
     MessageLog.waMessageId :=
       match r with
       | BulkSuccess _ data => first_message_id (Some data)
       | BulkFailed _ _ => None
       end;
     MessageLog.status :=
       match r with
       | BulkSuccess _ _ => MessageLog.SENT
       | BulkFailed _ _ => MessageLog.FAILED
       end;
     MessageLog.department := department;
     MessageLog.sentBy := userId;
     MessageLog.error :=
       match r with
       | BulkSuccess _ _ => None
       | BulkFailed _ (inl text) => Some text
       | BulkFailed _ (inr d) => Some (JSON_stringify d)
       end;
     MessageLog.retryCount := 0;
     MessageLog.updatedAt := now |}.

(** The handler answers 200 with the results; an exception is answered
    with 502. *)
Definition bulkTextRoute (env : Env) (recipients : list string) (body : string)
    (department : option string) (userId : string)
    : M (list BulkTextResult) :=
  results <- sendBulkText env recipients body ;;
  d <- new_Date ;;
  insertMany env (map (bulk_log body department userId d) results) ;;;
  ret results.

(** ** Notions used in the further statements *)

(** The effect of a list of updates on the collection. *)
Definition apply_updates (us : list UpdateOne) (logs : list MessageLog.t)
    : list MessageLog.t :=
  foldl (fun ls u => alter (apply_set (update u)) (filter_id u) ls) logs us.

(** The records a trace has updated, in order. *)
Definition updated_id (ev : Event) : option nat :=
  match ev with
  | EvUpdate u => Some (filter_id u)
  | _ => None
  end.

Definition updated_ids (tr : list Event) : list nat := omap updated_id tr.

Definition closed_log (l : MessageLog.t) : Prop :=
  MessageLog.status l = MessageLog.SENT \/ MessageLog.status l = MessageLog.FAILED.

(** The bound of the background path on the requests for one recipient. *)
Definition attempts_ok (md : BulkMessageData.t) (n : nat) : Prop :=
  n <= S maxRetries /\ (posts md = true -> 1 <= n).

(** A record of the [/bulk] route. *)
Definition bulk_logged (l : MessageLog.t) : Prop :=
  (MessageLog.status l = MessageLog.SENT /\
   truthy (MessageLog.waMessageId l) = true /\ MessageLog.error l = None) \/
  (MessageLog.status l = MessageLog.FAILED /\
   MessageLog.waMessageId l = None /\ is_Some (MessageLog.error l)).

(** ** The workers of a chunk, for the statements *)

(** Steps that touch neither the Operation nor the collection nor the
    storage: what the workers of a chunk do. *)
Definition calm (w w' : World) : Prop :=
  quiet_step any_event w w' /\
  messageLogs w' = messageLogs w /\
  updated_ids (trace w') = updated_ids (trace w) /\
  storeCalls w' = storeCalls w.

(** What the steps of a worker do for a recipient [to]. The call posts
    [n0] requests to [to]; every step returns, is calm and posts requests
    to [to] only; a step that leaves the worker waiting pushes no update
    and brings the worker nearer to its end as [rank] measures it; the step
    that ends the worker has, with the steps before it and after the call,
    posted a number of requests that [P] accepts, and has pushed updates
    that [Q] accepts. [inv] relates what a worker awaits to the number of
    requests it has posted since its call. *)
Definition steps_spec {W} (n0 : nat) (P : nat -> Prop)
    (Q : string -> nat -> list UpdateOne -> Prop)
    (inv : W -> nat -> Prop) (rank : W -> nat) (work : Steps W) : Prop :=
  (forall to index w,
     exists awaited w',
       begin work to index w = (Ret awaited, w') /\
       calm w w' /\
       dests (trace w') = (dests (trace w) ++ replicate n0 to)%list /\
       inv awaited 0 /\ S (rank awaited) <= maxAwaits) /\
  (forall to index awaited bulkUpdates w n,
     inv awaited n ->
     exists phase bulkUpdates' w' m,
       resume work to index awaited bulkUpdates w = (Ret (phase, bulkUpdates'), w') /\
       calm w w' /\
       dests (trace w') = (dests (trace w) ++ replicate m to)%list /\
       match phase with
       | Waits awaited' =>
           inv awaited' (n + m) /\ rank awaited' < rank awaited /\
           bulkUpdates' = bulkUpdates
       | Done s =>
           P (n + m) /\
           exists added,
             bulkUpdates' = (bulkUpdates ++ added)%list /\ Q to index added
       end).

(** The turns the workers of a chunk can still take. *)
Definition weight {W} (rank : W -> nat) (phases : list (Phase W)) : nat :=
  sum_list
    (map (fun phase => match phase with
                       | Waits awaited => S (rank awaited)
                       | Done _ => 0
                       end) phases).

(** What a worker of the background path has posted since its call, and
    the turns it can still take. *)
Definition worker_inv (md : BulkMessageData.t) (awaited : Waiting) (n : nat)
    : Prop :=
  match awaited with
  | AwaitSend retries _ =>
      retries <= maxRetries /\ n = (if posts md then retries else 0)
  | AwaitPause retries _ _ =>
      1 <= retries <= maxRetries /\ n = (if posts md then retries - 1 else 0)
  end.

Definition worker_rank (awaited : Waiting) : nat :=
  match awaited with
  | AwaitSend retries _ => 2 * (maxRetries - retries)
  | AwaitPause retries _ _ => 2 * (maxRetries - retries) + 1
  end.

(** * Theorems *)

(** ** The monad *)

Lemma bind_Ret {A B} (m : M A) (k : A -> M B) w a w' :
  m w = (Ret a, w') -> bind m k w = k a w'.
Proof. unfold bind. by intros ->. Qed.

Lemma bind_Throw {A B} (m : M A) (k : A -> M B) w e w' :
  m w = (Throw e, w') -> bind m k w = (Throw e, w').
Proof. unfold bind. by intros ->. Qed.

Lemma try_catch_Ret {A} (m : M A) h w a w' :
  m w = (Ret a, w') -> try_catch m h w = (Ret a, w').
Proof. unfold try_catch. by intros ->. Qed.

Lemma try_catch_Throw {A} (m : M A) h w e w' :
  m w = (Throw e, w') -> try_catch m h w = h e w'.
Proof. unfold try_catch. by intros ->. Qed.

Lemma returns_run {A} (m : M A) w :
  returns m -> exists a w', m w = (Ret a, w').
Proof.
  intros H. destruct (H w) as [a Ha]. exists a, (snd (m w)).
  destruct (m w); simpl in *. by subst.
Qed.

Lemma returns_ret {A} (a : A) : returns (ret a).
Proof. intros w. by exists a. Qed.

Lemma returns_bind {A B} (m : M A) (k : A -> M B) :
  returns m -> (forall a, returns (k a)) -> returns (bind m k).
Proof.
  intros Hm Hk w. destruct (returns_run m w Hm) as (a & w' & E).
  rewrite (bind_Ret _ _ _ _ _ E). apply Hk.
Qed.

Lemma returns_halts {A} (m : M A) : returns m -> halts m.
Proof. intros H w. destruct (H w) as [a ->]. discriminate. Qed.

Lemma halts_throw {A} e : halts (@throw A e).
Proof. intros w. discriminate. Qed.

Lemma halts_bind {A B} (m : M A) (k : A -> M B) :
  halts m -> (forall a, halts (k a)) -> halts (bind m k).
Proof.
  intros Hm Hk w. unfold bind. specialize (Hm w).
  destruct (m w) as [[a|e|] w']; simpl in *; try done. apply Hk.
Qed.

Lemma halts_try_catch {A} (m : M A) h :
  halts m -> (forall e, halts (h e)) -> halts (try_catch m h).
Proof.
  intros Hm Hh w. unfold try_catch. specialize (Hm w).
  destruct (m w) as [[a|e|] w']; simpl in *; try done. apply Hh.
Qed.

(** A [try] whose handler returns cannot throw. *)
Lemma returns_try_catch {A} (m : M A) h :
  halts m -> (forall e, returns (h e)) -> returns (try_catch m h).
Proof.
  intros Hm Hh w. unfold try_catch. specialize (Hm w).
  destruct (m w) as [[a|e|] w']; simpl in *; try done.
  - by exists a.
  - apply Hh.
Qed.

Lemma returns_attempt {A} (m : M A) : halts m -> returns (attempt m).
Proof.
  intros Hm. unfold attempt. apply returns_try_catch.
  - apply halts_bind; [done|]. intros a. apply returns_halts, returns_ret.
  - intros e. apply returns_ret.
Qed.

Section Steps.
Variable allowed : Event -> Prop.

Lemma quiet_step_refl w : quiet_step allowed w w.
  Proof.
    repeat split. exists []. by rewrite app_nil_r.
  Qed.

Lemma quiet_step_trans w1 w2 w3 :
    quiet_step allowed w1 w2 -> quiet_step allowed w2 w3 ->
    quiet_step allowed w1 w3.
  Proof.
    intros (S1 & D1 & T1 & evs1 & E1 & F1) (S2 & D2 & T2 & evs2 & E2 & F2).
    repeat split; try congruence.
    exists (evs1 ++ evs2)%list. split.
    - by rewrite E2, E1, app_assoc.
    - by apply Forall_app.
  Qed.

Lemma steps_ret {A} (a : A) : steps allowed (ret a).
  Proof. intros w. apply quiet_step_refl. Qed.

Lemma steps_throw {A} e : steps allowed (@throw A e).
  Proof. intros w. apply quiet_step_refl. Qed.

Lemma steps_diverge {A} : steps allowed (@diverge A).
  Proof. intros w. apply quiet_step_refl. Qed.

Lemma steps_bind {A B} (m : M A) (k : A -> M B) :
    steps allowed m -> (forall a, steps allowed (k a)) ->
    steps allowed (bind m k).
  Proof.
    intros Hm Hk w. unfold bind. specialize (Hm w).
    destruct (m w) as [[a|e|] w']; simpl in *; auto.
    eapply quiet_step_trans; [exact Hm | apply Hk].
  Qed.

Lemma steps_try_catch {A} (m : M A) h :
    steps allowed m -> (forall e, steps allowed (h e)) ->
    steps allowed (try_catch m h).
  Proof.
    intros Hm Hh w. unfold try_catch. specialize (Hm w).
    destruct (m w) as [[a|e|] w']; simpl in *; auto.
    eapply quiet_step_trans; [exact Hm | apply Hh].
  Qed.

Lemma steps_new_Date : steps allowed new_Date.
  Proof. intros w. apply quiet_step_refl. Qed.

Lemma steps_emit ev : allowed ev -> steps allowed (emit ev).
  Proof.
    intros Hev w. repeat split. exists [ev]. split; [done|].
    by constructor.
  Qed.

Lemma steps_attempt {A} (m : M A) :
    steps allowed m -> steps allowed (attempt m).
  Proof.
    intros Hm. unfold attempt. apply steps_try_catch.
    - apply steps_bind; [done|]. intros a. apply steps_ret.
    - intros e. apply steps_ret.
  Qed.

Lemma steps_detached (m : M unit) :
    steps allowed m -> steps allowed (detached m).
  Proof.
    intros Hm w. unfold detached. specialize (Hm w).
    by destruct (m w) as [[a|e|] w'].
  Qed.
End Steps.

Lemma quiet_step_weaken (P Q : Event -> Prop) w w' :
  (forall ev, P ev -> Q ev) -> quiet_step P w w' -> quiet_step Q w w'.
Proof.
  intros HPQ (S1 & D1 & T1 & evs & E & F). repeat split; auto.
  exists evs. split; [done|]. eapply Forall_impl; eauto.
Qed.

Lemma steps_weaken (P Q : Event -> Prop) {A} (m : M A) :
  (forall ev, P ev -> Q ev) -> steps P m -> steps Q m.
Proof. intros HPQ Hm w. eapply quiet_step_weaken; eauto. Qed.

Lemma steps_any {A} (m : M A) : steps not_request m -> steps any_event m.
Proof. apply steps_weaken. by intros. Qed.

(** What a quiet step keeps. *)
Lemma quiet_step_faulted allowed w w' :
  quiet_step allowed w w' -> faulted w -> faulted w'.
Proof.
  intros (_ & _ & _ & evs & E & _). unfold faulted. rewrite E.
  intros H. apply Exists_app. by left.
Qed.

Lemma dests_app tr1 tr2 : dests (tr1 ++ tr2) = (dests tr1 ++ dests tr2)%list.
Proof. apply omap_app. Qed.

Lemma quiet_step_dests w w' :
  quiet_step not_request w w' -> dests (trace w') = dests (trace w).
Proof.
  intros (_ & _ & _ & evs & E & F). rewrite E, dests_app.
  replace (dests evs) with (@nil string); [by rewrite app_nil_r|].
  clear E. induction F as [|ev evs Hev _ IH]; [done|].
  unfold dests in *. cbn. unfold not_request in Hev. rewrite Hev. exact IH.
Qed.

(** ** The batcher *)

Section Batcher.
Context {A : Type}.
Implicit Types (xs : list A) (out rest : list (list A)).

Lemma slice_length xs i size :
    length (slice xs i (i + size)) = min size (length xs - i).
  Proof.
    unfold slice. rewrite length_take, length_drop. f_equal. lia.
  Qed.

Lemma slice_then_drop xs i size :
    (slice xs i (i + size) ++ drop (i + size) xs)%list = drop i xs.
  Proof.
    unfold slice. replace (i + size - i) with size by lia.
    rewrite <- (take_drop size (drop i xs)) at 2.
    by rewrite drop_drop.
  Qed.

  (** What the loop adds to [out] from position [i] on. *)
Lemma sliceLoop_spec size (Hsize : 0 < size) xs :
    forall fuel i out,
      length xs - i <= fuel ->
      exists rest,
        sliceLoop fuel xs size i out = Some (out ++ rest)%list /\
        concat rest = drop i xs /\
        (rest = [] <-> length xs <= i) /\
        (forall k c, rest !! k = Some c ->
           1 <= length c <= size /\ (S k < length rest -> length c = size)).
  Proof.
    induction fuel as [|fuel IH]; intros i out Hfuel.
    - exists []. simpl.
      destruct (Nat.ltb_spec i (length xs)); [lia|].
      rewrite app_nil_r, drop_ge by lia.
      split; [done|]. split; [done|]. split; [split; [lia|done]|].
      intros k c Hk. by rewrite lookup_nil in Hk.
    - simpl. destruct (Nat.ltb_spec i (length xs)) as [Hlt|Hge].
      + destruct (IH (i + size) (out ++ [slice xs i (i + size)])%list)
          as (rest & Heq & Hcat & Hnil & Hlen); [lia|].
        exists (slice xs i (i + size) :: rest). split; [|split; [|split]].
        * rewrite Heq. by rewrite <- app_assoc.
        * simpl. rewrite Hcat. apply slice_then_drop.
        * split; [discriminate | lia].
        * intros [|k] c Hk; simpl in Hk.
          -- injection Hk as <-. rewrite slice_length. split; [lia|].
             simpl. intros Hmore.
             assert (rest <> []) as Hne by (destruct rest; simpl in *; [lia | discriminate]).
             assert (~ length xs <= i + size) by (intros ?; apply Hne, Hnil; lia).
             lia.
          -- destruct (Hlen k c Hk) as [? Hfull]. split; [done|].
             simpl. intros ?. apply Hfull. lia.
      + exists []. rewrite app_nil_r, drop_ge by lia.
        split; [done|]. split; [done|]. split; [split; [lia|done]|].
        intros k c Hk. by rewrite lookup_nil in Hk.
  Qed.

Lemma batches_spec xs size :
    0 < size ->
    exists bs,
      batches xs size = Some bs /\
      concat bs = xs /\
      (bs = [] <-> xs = []) /\
      (forall k c, bs !! k = Some c ->
         1 <= length c <= size /\ (S k < length bs -> length c = size)).
  Proof.
    intros Hsize.
    destruct (sliceLoop_spec size Hsize xs (length xs) 0 []) as (bs & H1 & H2 & H3 & H4);
      [lia|].
    exists bs. unfold batches. rewrite H1.
    rewrite drop_0 in H2. split; [done|]. split; [done|]. split; [|done].
    split.
    - intros ->. by rewrite <- H2.
    - intros ->. apply H3. simpl. lia.
  Qed.
End Batcher.

(** ** C4: the concurrency plan *)

(** C4. [getOptimalConfig] is a total function of the recipient count whose
    value is fixed by the tier of [n]: (batch 5, width 2, 200ms) up to 20,
    (8, 3, 150) up to 50, (15, 5, 100) up to 200, (25, 8, 75) up to 500,
    (40, 10, 50) up to 1000 and (60, 12, 25) above; the product of batch
    size and width is positive for every [n]. *)
Theorem getOptimalConfig_tiers (n : Z) :
  ((n <= 20)%Z -> getOptimalConfig n =
     {| CONCURRENCY_LIMIT := 2; BATCH_SIZE := 5; RATE_LIMIT_DELAY := 200 |}) /\
  ((20 < n <= 50)%Z -> getOptimalConfig n =
     {| CONCURRENCY_LIMIT := 3; BATCH_SIZE := 8; RATE_LIMIT_DELAY := 150 |}) /\
  ((50 < n <= 200)%Z -> getOptimalConfig n =
     {| CONCURRENCY_LIMIT := 5; BATCH_SIZE := 15; RATE_LIMIT_DELAY := 100 |}) /\
  ((200 < n <= 500)%Z -> getOptimalConfig n =
     {| CONCURRENCY_LIMIT := 8; BATCH_SIZE := 25; RATE_LIMIT_DELAY := 75 |}) /\
  ((500 < n <= 1000)%Z -> getOptimalConfig n =
     {| CONCURRENCY_LIMIT := 10; BATCH_SIZE := 40; RATE_LIMIT_DELAY := 50 |}) /\
  ((1000 < n)%Z -> getOptimalConfig n =
     {| CONCURRENCY_LIMIT := 12; BATCH_SIZE := 60; RATE_LIMIT_DELAY := 25 |}) /\
  0 < BATCH_SIZE (getOptimalConfig n) * CONCURRENCY_LIMIT (getOptimalConfig n).
Proof.
  unfold getOptimalConfig.
  repeat match goal with
         | |- context [(?a <=? ?b)%Z] => destruct (Z.leb_spec a b)
         end; simpl; repeat split; intros; try lia; reflexivity.
Qed.

Lemma getOptimalConfig_tiers_witness :
  getOptimalConfig 20 =
    {| CONCURRENCY_LIMIT := 2; BATCH_SIZE := 5; RATE_LIMIT_DELAY := 200 |} /\
  getOptimalConfig 21 =
    {| CONCURRENCY_LIMIT := 3; BATCH_SIZE := 8; RATE_LIMIT_DELAY := 150 |} /\
  getOptimalConfig 1001 =
    {| CONCURRENCY_LIMIT := 12; BATCH_SIZE := 60; RATE_LIMIT_DELAY := 25 |}.
Proof.
  split; [|split].
  - apply (proj1 (getOptimalConfig_tiers 20)). lia.
  - apply (proj1 (proj2 (getOptimalConfig_tiers 21))). lia.
  - apply (proj1 (proj2 (proj2 (proj2 (proj2 (proj2 (getOptimalConfig_tiers 1001))))))). lia.
Defined.

Lemma getOptimalConfig_positive (n : Z) :
  0 < BATCH_SIZE (getOptimalConfig n) /\ 0 < CONCURRENCY_LIMIT (getOptimalConfig n).
Proof.
  unfold getOptimalConfig.
  repeat match goal with
         | |- context [(?a <=? ?b)%Z] => destruct (Z.leb_spec a b)
         end; simpl; lia.
Qed.

(** C5. For a batch size [b > 0] the batcher returns a sequence of batches
    whose concatenation is the recipient list (so the sizes add up to its
    length and the order is kept); every batch has between 1 and [b]
    elements and every batch but the last has exactly [b]. *)
Theorem batches_partition (R : list string) (b : nat) :
  0 < b ->
  exists bs,
    batches R b = Some bs /\
    concat bs = R /\
    sum_list (map length bs) = length R /\
    (forall k batch, bs !! k = Some batch ->
       1 <= length batch <= b /\ (S k < length bs -> length batch = b)).
Proof.
  intros Hb. destruct (batches_spec R b Hb) as (bs & H1 & H2 & _ & H4).
  exists bs. split; [done|]. split; [done|]. split; [|done].
  rewrite <- H2. clear. induction bs as [|c bs IH]; simpl; [done|].
  rewrite length_app. lia.
Qed.

Lemma batches_partition_witness :
  exists bs,
    batches ["a"; "b"; "c"; "d"; "e"; "f"; "g"] 3 = Some bs /\
    concat bs = ["a"; "b"; "c"; "d"; "e"; "f"; "g"] /\
    sum_list (map length bs) = 7 /\
    (forall k batch, bs !! k = Some batch ->
       1 <= length batch <= 3 /\ (S k < length bs -> length batch = 3)).
Proof. apply (batches_partition ["a"; "b"; "c"; "d"; "e"; "f"; "g"] 3). lia. Defined.

(** ** The primitives *)

Lemma steps_sleep ms : steps not_request (sleep ms).
Proof.
  intros w. repeat split. exists [EvSleep ms]. split; [done|].
  by constructor.
Qed.

Lemma steps_console_error what : steps not_request (console_error what).
Proof. by apply steps_emit. Qed.

Lemma steps_axios_post env req : steps any_event (axios_post env req).
Proof.
  intros w. repeat split. exists [EvRequest req]. split; [done|].
  by constructor.
Qed.

Lemma store_call_run env c w :
  store_call env c w =
    match store_fault env (storeCalls w) c with
    | Some e =>
        (Throw e,
         {| messageLogs := messageLogs w; operationSaves := operationSaves w;
            bulkOperation := bulkOperation w;
            trace := trace w ++ [EvStoreFault c e];
            now := now w; requests := requests w;
            storeCalls := S (storeCalls w) |})
    | None =>
        (Ret tt,
         {| messageLogs := messageLogs w; operationSaves := operationSaves w;
            bulkOperation := bulkOperation w; trace := trace w;
            now := now w; requests := requests w;
            storeCalls := S (storeCalls w) |})
    end.
Proof. unfold store_call. by destruct (store_fault env (storeCalls w) c). Qed.

Lemma steps_store_call env c : steps not_request (store_call env c).
Proof.
  intros w. rewrite store_call_run.
  destruct (store_fault env (storeCalls w) c) as [e|]; simpl.
  - repeat split. exists [EvStoreFault c e]. split; [done|]. by constructor.
  - repeat split. exists []. by rewrite app_nil_r.
Qed.

(** A failing storage call leaves its mark in the trace. *)
Lemma store_call_Throw env c w e w' :
  store_call env c w = (Throw e, w') ->
  store_fault env (storeCalls w) c = Some e /\ faulted w'.
Proof.
  rewrite store_call_run.
  destruct (store_fault env (storeCalls w) c) as [e'|]; [|discriminate].
  intros [= <- <-]. split; [done|].
  unfold faulted. simpl. apply Exists_app. right. by constructor.
Qed.

Lemma store_call_no_fault env c w :
  no_store_fault env -> exists w', store_call env c w = (Ret tt, w').
Proof. intros H. rewrite store_call_run, H. eauto. Qed.

Lemma to_apply_set u l : MessageLog.to (apply_set u l) = MessageLog.to l.
Proof. by destruct u. Qed.

Lemma retryCount_apply_set u l :
  MessageLog.retryCount (apply_set u l) = MessageLog.retryCount l.
Proof. by destruct u. Qed.

Lemma tos_alter u i (ls : list MessageLog.t) :
  map MessageLog.to (alter (apply_set u) i ls) = map MessageLog.to ls.
Proof.
  revert i. induction ls as [|l ls IH]; intros [|i]; simpl; auto.
  - by rewrite to_apply_set.
  - f_equal. apply IH.
Qed.

Lemma steps_write_update u : steps not_request (write_update u).
Proof.
  intros w. unfold write_update.
  destruct (messageLogs w !! filter_id u); simpl.
  - repeat split.
    + unfold tos. simpl. apply tos_alter.
    + exists [EvUpdate u]. split; [done|]. by constructor.
  - apply quiet_step_refl.
Qed.

Lemma steps_write_updates us : steps not_request (write_updates us).
Proof.
  induction us as [|u us IH]; simpl.
  - apply steps_ret.
  - apply steps_bind; [apply steps_write_update | done].
Qed.

Lemma steps_bulkWrite env us : steps not_request (bulkWrite env us).
Proof.
  apply steps_bind; [apply steps_store_call | intros; apply steps_write_updates].
Qed.

Lemma steps_findByIdAndUpdate env u : steps not_request (findByIdAndUpdate env u).
Proof.
  apply steps_bind; [apply steps_store_call | intros; apply steps_write_update].
Qed.

Lemma steps_individual_updates env us :
  steps not_request (individual_updates env us).
Proof.
  induction us as [|u us IH]; simpl.
  - apply steps_ret.
  - apply steps_bind; [|done]. apply steps_try_catch.
    + apply steps_findByIdAndUpdate.
    + intros. apply steps_console_error.
Qed.

Lemma returns_write_update u : returns (write_update u).
Proof.
  intros w. unfold write_update. destruct (messageLogs w !! filter_id u); by exists tt.
Qed.

Lemma returns_write_updates us : returns (write_updates us).
Proof.
  induction us as [|u us IH]; simpl.
  - apply returns_ret.
  - apply returns_bind; [apply returns_write_update | done].
Qed.

Lemma halts_store_call env c : halts (store_call env c).
Proof.
  intros w. rewrite store_call_run.
  by destruct (store_fault env (storeCalls w) c).
Qed.

Lemma halts_findByIdAndUpdate env u : halts (findByIdAndUpdate env u).
Proof.
  apply halts_bind; [apply halts_store_call|].
  intros. apply returns_halts, returns_write_update.
Qed.

Lemma halts_bulkWrite env us : halts (bulkWrite env us).
Proof.
  apply halts_bind; [apply halts_store_call|].
  intros. apply returns_halts, returns_write_updates.
Qed.

Lemma returns_console_error what : returns (console_error what).
Proof. intros w. by exists tt. Qed.

Lemma returns_individual_updates env us : returns (individual_updates env us).
Proof.
  induction us as [|u us IH]; simpl.
  - apply returns_ret.
  - apply returns_bind; [|done]. apply returns_try_catch.
    + apply halts_findByIdAndUpdate.
    + intros. apply returns_console_error.
Qed.

(** The bulk update with its fallback never throws. *)
Lemma returns_bulk_update env us :
  returns (try_catch (bulkWrite env us)
             (fun error => console_error "Error in batch update" ;;;
                           individual_updates env us)).
Proof.
  apply returns_try_catch; [apply halts_bulkWrite|].
  intros e. apply returns_bind; [apply returns_console_error|].
  intros. apply returns_individual_updates.
Qed.

(** ** The wrappers *)

Lemma sendText_run env to body w :
  sendText env to body w =
    (outcome_of (wrap_reply (gateway env (requests w) (ReqText to body))),
     after_request (ReqText to body) w).
Proof.
  unfold sendText, bind, axios_post, finish. simpl.
  by destruct (wrap_reply _).
Qed.

Lemma sendDocument_run env to url caption w :
  sendDocument env to url caption w =
    (outcome_of (wrap_reply (gateway env (requests w) (ReqDocument to url caption))),
     after_request (ReqDocument to url caption) w).
Proof.
  unfold sendDocument, bind, axios_post, finish. simpl.
  by destruct (wrap_reply _).
Qed.

Lemma sendDocumentByMediaId_run env to mediaId w :
  sendDocumentByMediaId env to mediaId w =
    (outcome_of (wrap_reply (gateway env (requests w) (ReqTemplateDocument to mediaId))),
     after_request (ReqTemplateDocument to mediaId) w).
Proof.
  unfold sendDocumentByMediaId, bind, axios_post, finish. simpl.
  by destruct (wrap_reply _).
Qed.

Lemma sendImage_link_run env to url caption w :
  truthy url = true ->
  sendImage env to url None caption w =
    (outcome_of (wrap_reply (gateway env (requests w)
                               (ReqImageLink to (default EmptyString url) (default EmptyString caption)))),
     after_request (ReqImageLink to (default EmptyString url) (default EmptyString caption)) w).
Proof.
  intros Hurl. unfold sendImage. simpl. rewrite Hurl.
  unfold bind, axios_post, finish. simpl. by destruct (wrap_reply _).
Qed.

Lemma sendImage_id_run env to url mediaId caption w :
  truthy mediaId = true ->
  sendImage env to url mediaId caption w =
    (outcome_of (wrap_reply (gateway env (requests w)
                               (ReqImageId to (default EmptyString mediaId) (default EmptyString caption)))),
     after_request (ReqImageId to (default EmptyString mediaId) (default EmptyString caption)) w).
Proof.
  intros Hid. unfold sendImage. rewrite Hid.
  unfold bind, axios_post, finish. simpl. by destruct (wrap_reply _).
Qed.

Lemma translate_new_Error msg : translate_error (new_Error msg) = new_Error msg.
Proof. reflexivity. Qed.


(** One attempt of the worker. *)
Lemma send_by_type_run env md to req w :
  request_of md to = Some req ->
  send_by_type env md to w =
    (match wrap_reply (gateway env (requests w) req) with
     | inr d => Ret (Some d)
     | inl e => Throw e
     end,
     after_request req w).
Proof.
  unfold request_of, send_by_type.
  destruct (BulkMessageData.type md).
  - intros [= <-]. unfold bind. rewrite sendText_run.
    by destruct (wrap_reply _).
  - destruct (truthy (js_or _ _)) eqn:Hurl; [|discriminate].
    intros [= <-]. unfold bind. rewrite sendImage_link_run by done.
    by destruct (wrap_reply _).
  - destruct (truthy (BulkMessageData.mediaId md)); intros [= <-]; unfold bind.
    + rewrite sendDocumentByMediaId_run. by destruct (wrap_reply _).
    + rewrite sendDocument_run. by destruct (wrap_reply _).
Qed.

Lemma send_by_type_no_request env md to w :
  request_of md to = None ->
  send_by_type env md to w =
    (Throw (new_Error "Either mediaId or imageUrl must be provided"), w).
Proof.
  unfold request_of, send_by_type.
  destruct (BulkMessageData.type md); try discriminate.
  - destruct (truthy (js_or _ _)) eqn:Hurl; [discriminate|].
    intros _. unfold bind, sendImage. simpl. by rewrite Hurl.
  - by destruct (truthy (BulkMessageData.mediaId md)).
Qed.

Lemma request_of_to md to req : request_of md to = Some req -> request_to req = to.
Proof.
  unfold request_of. destruct (BulkMessageData.type md).
  - by intros [= <-].
  - destruct (truthy _); [by intros [= <-] | discriminate].
  - destruct (truthy _); by intros [= <-].
Qed.

Lemma quiet_after_request req w : quiet_step any_event w (after_request req w).
Proof.
  repeat split. exists [EvRequest req]. split; [done|]. by constructor.
Qed.

Lemma steps_send_by_type env md to : steps any_event (send_by_type env md to).
Proof.
  intros w. destruct (request_of md to) as [req|] eqn:Hreq.
  - rewrite (send_by_type_run _ _ _ _ _ Hreq). apply quiet_after_request.
  - rewrite (send_by_type_no_request _ _ _ _ Hreq). apply quiet_step_refl.
Qed.

Lemma steps_retryLoop env md to fuel retries :
  steps any_event (retryLoop env md to fuel retries).
Proof.
  revert retries. induction fuel as [|fuel IH]; intros retries; simpl.
  - apply steps_diverge.
  - destruct (retries <=? maxRetries)%nat; [|apply steps_ret].
    apply steps_try_catch; [apply steps_send_by_type|].
    intros e. destruct (maxRetries <? S retries)%nat; [apply steps_throw|].
    apply steps_bind; [apply steps_any, steps_sleep | intros; apply IH].
Qed.

Lemma steps_push_outcome messageLog r bulkUpdates :
  steps any_event (push_outcome messageLog r bulkUpdates).
Proof.
  unfold push_outcome. destruct messageLog; [|apply steps_ret].
  apply steps_bind; [apply steps_new_Date|].
  intros d. destruct r; apply steps_ret.
Qed.

Lemma steps_worker env md createdLogs bulkUpdates to index :
  steps any_event (worker env md createdLogs bulkUpdates to index).
Proof.
  unfold worker. apply steps_bind.
  - apply steps_attempt, steps_retryLoop.
  - intros r. apply steps_push_outcome.
Qed.

Lemma steps_routeWorker env rq batch createdLogs bulkUpdates to index :
  steps any_event (routeWorker env rq batch createdLogs bulkUpdates to index).
Proof.
  unfold routeWorker. apply steps_bind.
  - apply steps_attempt. intros w. rewrite sendDocumentByMediaId_run.
    apply quiet_after_request.
  - intros r. apply steps_push_outcome.
Qed.

(** ** The retry loop *)

Lemma halts_send_by_type env md to : halts (send_by_type env md to).
Proof.
  intros w. destruct (request_of md to) as [req|] eqn:Hreq.
  - rewrite (send_by_type_run _ _ _ _ _ Hreq). simpl.
    by destruct (wrap_reply _).
  - by rewrite (send_by_type_no_request _ _ _ _ Hreq).
Qed.

(** Fuel for the remaining iterations is enough. *)
Lemma halts_retryLoop env md to fuel retries :
  maxRetries < retries + fuel -> 0 < fuel ->
  halts (retryLoop env md to fuel retries).
Proof.
  revert retries. induction fuel as [|fuel IH]; intros retries Hsum Hfuel; [lia|].
  simpl. destruct (Nat.leb_spec retries maxRetries); [|apply returns_halts, returns_ret].
  apply halts_try_catch; [apply halts_send_by_type|].
  intros e. destruct (Nat.ltb_spec maxRetries (S retries)); [apply halts_throw|].
  apply halts_bind; [apply returns_halts; intros w; by exists tt|].
  intros _. apply IH; lia.
Qed.

Lemma sleep_run ms w : sleep ms w = (Ret tt, after_sleep ms w).
Proof. reflexivity. Qed.

(** The three iterations, written out. *)
Lemma retryLoop_run env md to req w :
  request_of md to = Some req ->
  retryLoop env md to (S maxRetries) 0 w =
    match wrap_reply (gateway env (requests w) req) with
    | inr d => (Ret (Some d), after_request req w)
    | inl _ =>
        let w1 := after_sleep 2000%N (after_request req w) in
        match wrap_reply (gateway env (S (requests w)) req) with
        | inr d => (Ret (Some d), after_request req w1)
        | inl _ =>
            let w2 := after_sleep 4000%N (after_request req w1) in
            match wrap_reply (gateway env (S (S (requests w))) req) with
            | inr d => (Ret (Some d), after_request req w2)
            | inl e => (Throw e, after_request req w2)
            end
        end
    end.
Proof.
  intros Hreq. unfold maxRetries.
  change (retryLoop env md to 3 0 w) with
    (try_catch (send_by_type env md to)
       (fun retryError =>
          sleep (2 ^ N.of_nat 1 * 1000)%N ;;;
          try_catch (send_by_type env md to)
            (fun retryError =>
               sleep (2 ^ N.of_nat 2 * 1000)%N ;;;
               try_catch (send_by_type env md to)
                 (fun retryError => throw retryError))) w).
  change (2 ^ N.of_nat 1 * 1000)%N with 2000%N. change (2 ^ N.of_nat 2 * 1000)%N with 4000%N.
  unfold try_catch at 1. rewrite (send_by_type_run _ _ _ _ _ Hreq).
  destruct (wrap_reply (gateway env (requests w) req)); [|done].
  unfold bind at 1. rewrite sleep_run.
  unfold try_catch at 1. rewrite (send_by_type_run _ _ _ _ _ Hreq). simpl requests.
  destruct (wrap_reply (gateway env (S (requests w)) req)); [|done].
  unfold bind at 1. rewrite sleep_run.
  unfold try_catch at 1. rewrite (send_by_type_run _ _ _ _ _ Hreq). simpl requests.
  by destruct (wrap_reply (gateway env (S (S (requests w))) req)).
Qed.

Lemma retryLoop_run_no_request env md to w :
  request_of md to = None ->
  retryLoop env md to (S maxRetries) 0 w =
    (Throw (new_Error "Either mediaId or imageUrl must be provided"),
     after_sleep 4000%N (after_sleep 2000%N w)).
Proof.
  intros Hreq. unfold maxRetries.
  change (retryLoop env md to 3 0 w) with
    (try_catch (send_by_type env md to)
       (fun retryError =>
          sleep (2 ^ N.of_nat 1 * 1000)%N ;;;
          try_catch (send_by_type env md to)
            (fun retryError =>
               sleep (2 ^ N.of_nat 2 * 1000)%N ;;;
               try_catch (send_by_type env md to)
                 (fun retryError => throw retryError))) w).
  change (2 ^ N.of_nat 1 * 1000)%N with 2000%N. change (2 ^ N.of_nat 2 * 1000)%N with 4000%N.
  unfold try_catch at 1. rewrite (send_by_type_no_request _ _ _ _ Hreq).
  unfold bind at 1. rewrite sleep_run.
  unfold try_catch at 1. rewrite (send_by_type_no_request _ _ _ _ Hreq).
  unfold bind at 1. rewrite sleep_run.
  unfold try_catch at 1. by rewrite (send_by_type_no_request _ _ _ _ Hreq).
Qed.

Lemma attempt_Ret {A} (m : M A) w a w' :
  m w = (Ret a, w') -> attempt m w = (Ret (inr a), w').
Proof. intros E. unfold attempt, try_catch, bind. by rewrite E. Qed.

Lemma attempt_Throw {A} (m : M A) w e w' :
  m w = (Throw e, w') -> attempt m w = (Ret (inl e), w').
Proof. intros E. unfold attempt, try_catch, bind. by rewrite E. Qed.

(** A recipient whose three attempts fail: the worker has posted three
    requests, paused 2 s and 4 s, and pushes a FAILED update. *)
Lemma worker_three_failures env md createdLogs bulkUpdates to index _id req w
    e1 e2 e3 :
  request_of md to = Some req ->
  createdLogs !! index = Some _id ->
  wrap_reply (gateway env (requests w) req) = inl e1 ->
  wrap_reply (gateway env (S (requests w)) req) = inl e2 ->
  wrap_reply (gateway env (S (S (requests w))) req) = inl e3 ->
  worker env md createdLogs bulkUpdates to index w =
    (Ret (Fulfilled false,
          (bulkUpdates ++
             [{| filter_id := _id;
                 update := SetFailed (error_detail e3) (now w + 2000 + 4000)%N |}])%list),
     after_request req
       (after_sleep 4000%N (after_request req
          (after_sleep 2000%N (after_request req w))))).
Proof.
  intros Hreq Hlog H1 H2 H3. unfold worker.
  erewrite bind_Ret; cycle 1.
  { apply attempt_Throw. rewrite (retryLoop_run _ _ _ _ _ Hreq).
    rewrite H1, H2, H3. reflexivity. }
  rewrite Hlog. reflexivity.
Qed.

(** A recipient whose third attempt is the first to succeed. *)
Lemma worker_third_time env md createdLogs bulkUpdates to index _id req w
    e1 e2 d :
  request_of md to = Some req ->
  createdLogs !! index = Some _id ->
  wrap_reply (gateway env (requests w) req) = inl e1 ->
  wrap_reply (gateway env (S (requests w)) req) = inl e2 ->
  wrap_reply (gateway env (S (S (requests w))) req) = inr d ->
  worker env md createdLogs bulkUpdates to index w =
    (Ret (Fulfilled true,
          (bulkUpdates ++
             [{| filter_id := _id;
                 update := SetSent (first_message_id (Some d))
                             (now w + 2000 + 4000)%N |}])%list),
     after_request req
       (after_sleep 4000%N (after_request req
          (after_sleep 2000%N (after_request req w))))).
Proof.
  intros Hreq Hlog H1 H2 H3. unfold worker.
  erewrite bind_Ret; cycle 1.
  { apply attempt_Ret. rewrite (retryLoop_run _ _ _ _ _ Hreq).
    rewrite H1, H2, H3. reflexivity. }
  rewrite Hlog. reflexivity.
Qed.




(** ** A chunk of one worker *)

Lemma wake_run ms w : wake ms (now w + ms) w = (Ret tt, after_sleep ms w).
Proof. unfold wake, after_sleep. by rewrite N.max_r by lia. Qed.

Lemma bind_assoc {A B C} (m : M A) (k : A -> M B) (h : B -> M C) w :
  (b <- (a <- m ;; k a) ;; h b) w = (a <- m ;; b <- k a ;; h b) w.
Proof. unfold bind. by destruct (m w) as [[a|e|] w']. Qed.

Lemma attempt_run {A} (m : M A) w :
  attempt m w =
    match m w with
    | (Ret a, w') => (Ret (inr a), w')
    | (Throw e, w') => (Ret (inl e), w')
    | (Diverge, w') => (Diverge, w')
    end.
Proof. unfold attempt, try_catch, bind. by destruct (m w) as [[a|e|] w']. Qed.

(** One send of the worker, with its outcome. *)
Lemma attempt_send_run env md to w :
  attempt (send_by_type env md to) w =
    match request_of md to with
    | Some req =>
        (Ret (match wrap_reply (gateway env (requests w) req) with
              | inr d => inr (Some d)
              | inl e => inl e
              end), after_request req w)
    | None =>
        (Ret (inl (new_Error "Either mediaId or imageUrl must be provided")), w)
    end.
Proof.
  rewrite attempt_run. destruct (request_of md to) as [req|] eqn:Hreq.
  - rewrite (send_by_type_run _ _ _ _ _ Hreq). by destruct (wrap_reply _).
  - by rewrite (send_by_type_no_request _ _ _ _ Hreq).
Qed.

Section Alone.
Context {W : Type}.
Variables (env : Env) (work : Steps W).

Lemma settleAll_turn fuel turn to awaited bulkUpdates w :
  settleAll env work (S fuel) turn [to] [Waits awaited] bulkUpdates w =
    (q <- resume work to 0 awaited bulkUpdates ;;
     settleAll env work fuel (S turn) [to] [fst q] (snd q)) w.
Proof.
  cbn [settleAll waitingFrom length]. unfold bind at 1, past.
  by rewrite Nat.mod_1_r.
Qed.

Lemma settleAll_over fuel turn to s bulkUpdates w :
  settleAll env work fuel turn [to] [Done s] bulkUpdates w =
    (Ret ([s], bulkUpdates), w).
Proof. by destruct fuel. Qed.

Lemma runChunk_one to bulkUpdates w :
  runChunk env work [to] bulkUpdates w =
    (awaited <- begin work to 0 ;;
     settleAll env work maxAwaits 0 [to] [Waits awaited] bulkUpdates) w.
Proof.
  unfold runChunk. cbn [startAll length]. unfold bind.
  by destruct (begin work to 0 w) as [[awaited|e|] w1].
Qed.
End Alone.

Lemma settle_push {W} messageLog r bulkUpdates w :
  @settle W (push_outcome messageLog r bulkUpdates) w =
    match push_outcome messageLog r bulkUpdates w with
    | (Ret p, w') => (Ret (Done (fst p), snd p), w')
    | (Throw e, w') => (Throw e, w')
    | (Diverge, w') => (Diverge, w')
    end.
Proof. unfold settle, bind. by destruct (push_outcome _ _ _ w) as [[p|e|] w']. Qed.

Lemma push_outcome_run messageLog r bulkUpdates w :
  exists s us,
    push_outcome messageLog r bulkUpdates w = (Ret (s, (bulkUpdates ++ us)%list), w) /\
    match messageLog with
    | Some _id => exists u, us = [u] /\ filter_id u = _id
    | None => us = []
    end.
Proof.
  unfold push_outcome. destruct messageLog as [_id|].
  - destruct r; simpl; eauto 6.
  - exists (Rejected (new_TypeError
                        "Cannot read properties of undefined (reading '_id')")), [].
    by rewrite app_nil_r.
Qed.

Section WorkerAlone.
Variables (env : Env) (md : BulkMessageData.t) (createdLogs : list nat).
Variables (to : string).

Lemma alone_sent fuel turn retries result bulkUpdates w :
  settleAll env (workerSteps env md createdLogs) (S fuel) turn [to]
    [Waits (AwaitSend retries (inr result))] bulkUpdates w =
    (p <- push_outcome (createdLogs !! 0) (inr (first_message_id result))
            bulkUpdates ;;
     ret ([fst p], snd p)) w.
Proof.
  rewrite settleAll_turn. cbn [resume workerSteps].
  unfold bind at 1 2. rewrite settle_push.
  destruct (push_outcome_run (createdLogs !! 0) (inr (first_message_id result))
              bulkUpdates w) as (s & us & -> & _).
  cbn [fst snd]. by rewrite settleAll_over.
Qed.

Lemma alone_failed fuel turn retries retryError bulkUpdates w :
  maxRetries <= retries ->
  settleAll env (workerSteps env md createdLogs) (S fuel) turn [to]
    [Waits (AwaitSend retries (inl retryError))] bulkUpdates w =
    (p <- push_outcome (createdLogs !! 0) (inl retryError) bulkUpdates ;;
     ret ([fst p], snd p)) w.
Proof.
  intros Hmax. rewrite settleAll_turn. cbn [resume workerSteps].
  destruct (Nat.ltb_spec maxRetries (S retries)) as [_|]; [|lia].
  unfold bind at 1 2. rewrite settle_push.
  destruct (push_outcome_run (createdLogs !! 0) (inl retryError)
              bulkUpdates w) as (s & us & -> & _).
  cbn [fst snd]. by rewrite settleAll_over.
Qed.

Lemma alone_retried fuel turn retries retryError bulkUpdates w :
  retries < maxRetries ->
  settleAll env (workerSteps env md createdLogs) (S (S fuel)) turn [to]
    [Waits (AwaitSend retries (inl retryError))] bulkUpdates w =
    (sent <- attempt (send_by_type env md to) ;;
     settleAll env (workerSteps env md createdLogs) fuel (S (S turn)) [to]
       [Waits (AwaitSend (S retries) sent)] bulkUpdates)
      (after_sleep (2 ^ N.of_nat (S retries) * 1000)%N w).
Proof.
  intros Hmax. rewrite settleAll_turn. cbn [resume workerSteps].
  destruct (Nat.ltb_spec maxRetries (S retries)) as [|_]; [lia|].
  unfold bind at 1. unfold bind at 1. unfold new_Date at 1, ret at 1.
  cbn [fst snd]. rewrite settleAll_turn. cbn [resume workerSteps].
  unfold bind at 1. unfold bind at 1. rewrite wake_run.
  destruct (Nat.leb_spec (S retries) maxRetries) as [_|]; [|lia].
  unfold bind at 1. unfold bind at 1.
  destruct (attempt (send_by_type env md to) _) as [[sent|e|] w1]; try done.
Qed.

(** Alone in its chunk, a worker of the background path does what
    [worker] does. *)
Lemma worker_alone bulkUpdates w :
  runChunk env (workerSteps env md createdLogs) [to] bulkUpdates w =
    (p <- worker env md createdLogs bulkUpdates to 0 ;;
     ret ([fst p], snd p)) w.
Proof.
  rewrite runChunk_one. unfold worker. rewrite bind_assoc.
  cbn [begin workerSteps]. rewrite bind_assoc. unfold maxAwaits.
  change (2 * maxRetries + 1) with 5.
  pose proof (attempt_send_run env md to) as Hsend.
  pose proof (attempt_run (retryLoop env md to (S maxRetries) 0) w) as Hloop.
  destruct (request_of md to) as [req|] eqn:Hreq.
  - rewrite (retryLoop_run _ _ _ _ _ Hreq) in Hloop.
    rewrite (bind_Ret _ _ _ _ _ (Hsend w)). unfold ret at 1, bind at 1.
    cbv beta iota.
    destruct (wrap_reply (gateway env (requests w) req)) as [e1|d1].
    2:{ rewrite alone_sent. by rewrite (bind_Ret _ _ _ _ _ Hloop). }
    rewrite alone_retried by (unfold maxRetries; lia).
    change (2 ^ N.of_nat 1 * 1000)%N with 2000%N.
    rewrite (bind_Ret _ _ _ _ _ (Hsend _)). simpl requests.
    destruct (wrap_reply (gateway env (S (requests w)) req)) as [e2|d2].
    2:{ rewrite alone_sent. by rewrite (bind_Ret _ _ _ _ _ Hloop). }
    rewrite alone_retried by (unfold maxRetries; lia).
    change (2 ^ N.of_nat 2 * 1000)%N with 4000%N.
    rewrite (bind_Ret _ _ _ _ _ (Hsend _)). simpl requests.
    destruct (wrap_reply (gateway env (S (S (requests w))) req)) as [e3|d3].
    2:{ rewrite alone_sent. by rewrite (bind_Ret _ _ _ _ _ Hloop). }
    rewrite alone_failed by (unfold maxRetries; lia).
    by rewrite (bind_Ret _ _ _ _ _ Hloop).
  - rewrite (retryLoop_run_no_request _ _ _ _ Hreq) in Hloop.
    rewrite (bind_Ret _ _ _ _ _ (Hsend w)). unfold ret at 1, bind at 1.
    cbv beta iota.
    rewrite alone_retried by (unfold maxRetries; lia).
    change (2 ^ N.of_nat 1 * 1000)%N with 2000%N.
    rewrite (bind_Ret _ _ _ _ _ (Hsend _)).
    rewrite alone_retried by (unfold maxRetries; lia).
    change (2 ^ N.of_nat 2 * 1000)%N with 4000%N.
    rewrite (bind_Ret _ _ _ _ _ (Hsend _)).
    rewrite alone_failed by (unfold maxRetries; lia).
    by rewrite (bind_Ret _ _ _ _ _ Hloop).
Qed.
End WorkerAlone.

(** Alone in its chunk, a worker of the route does what [routeWorker]
    does. *)
Lemma routeWorker_alone env rq batch createdLogs to bulkUpdates w :
  runChunk env (routeWorkerSteps env rq batch createdLogs) [to] bulkUpdates w =
    (p <- routeWorker env rq batch createdLogs bulkUpdates to 0 ;;
     ret ([fst p], snd p)) w.
Proof.
  rewrite runChunk_one. unfold routeWorker. rewrite bind_assoc.
  cbn [begin routeWorkerSteps].
  destruct (attempt (sendDocumentByMediaId env to (rq_mediaId rq)) w)
    as [[sent|e|] w1] eqn:E.
  - rewrite !(bind_Ret _ _ _ _ _ E).
    unfold maxAwaits. change (2 * maxRetries + 1) with 5.
    rewrite settleAll_turn. cbn [resume routeWorkerSteps].
    unfold bind at 1. rewrite settle_push.
    match goal with |- context [push_outcome ?a ?b ?c w1] =>
      destruct (push_outcome_run a b c w1) as (s & us & Hp & _) end.
    rewrite Hp, (bind_Ret _ _ _ _ _ Hp). cbn [fst snd].
    by rewrite settleAll_over.
  - by rewrite !(bind_Throw _ _ _ _ _ E).
  - unfold bind. by rewrite E.
Qed.

(** ** C7: a success without a message identifier *)



(** ** C8: one recipient, two failures, then the third attempt *)

Lemma batches_single {A} (x : A) size :
  0 < size -> batches [x] size = Some [[x]].
Proof.
  intros Hs. unfold batches. simpl.
  destruct size as [|size]; [lia|]. simpl.
  unfold slice. simpl. destruct size; reflexivity.
Qed.

Lemma class_name_nonempty c : class_name c <> EmptyString.
Proof. by destruct c. Qed.

Lemma error_detail_nonempty e : error_detail e <> EmptyString.
Proof.
  unfold error_detail. destruct (response_data e); [done|].
  unfold String_of_error. destruct (String.eqb (message e) EmptyString).
  - apply class_name_nonempty.
  - destruct (name e); discriminate.
Qed.

Lemma insertMany_run env docs w :
  store_fault env (storeCalls w) CallInsertMany = None ->
  insertMany env docs w =
    (Ret (seq (length (messageLogs w)) (length docs)),
     {| messageLogs := messageLogs w ++ docs;
        operationSaves := operationSaves w; bulkOperation := bulkOperation w;
        trace := trace w; now := now w; requests := requests w;
        storeCalls := S (storeCalls w) |}).
Proof.
  intros H. unfold insertMany, bind. by rewrite store_call_run, H.
Qed.

Lemma insertMany_fault env docs w e :
  store_fault env (storeCalls w) CallInsertMany = Some e ->
  insertMany env docs w =
    (Throw e,
     {| messageLogs := messageLogs w;
        operationSaves := operationSaves w; bulkOperation := bulkOperation w;
        trace := trace w ++ [EvStoreFault CallInsertMany e];
        now := now w; requests := requests w;
        storeCalls := S (storeCalls w) |}).
Proof.
  intros H. unfold insertMany, bind. by rewrite store_call_run, H.
Qed.

(** A batch of one recipient, given what its worker does. *)
Lemma processBatch_single env raw md startIndex config w settled u w2 :
  0 < CONCURRENCY_LIMIT config ->
  no_store_fault env ->
  let doc :=
    MessageLog.queued (formatMobileNumber raw) (msg_type (BulkMessageData.type md))
      (queued_payload md) (Some (BulkMessageData.department md))
      (BulkMessageData.sentBy md) (now w) in
  let w1 :=
    {| messageLogs := messageLogs w ++ [doc];
       operationSaves := operationSaves w; bulkOperation := bulkOperation w;
       trace := trace w; now := now w; requests := requests w;
       storeCalls := S (storeCalls w) |} in
  worker env md [length (messageLogs w)] [] raw 0 w1 = (Ret (settled, [u]), w2) ->
  messageLogs w2 = messageLogs w1 ->
  filter_id u = length (messageLogs w) ->
  exists w',
    processBatchWithConcurrency env [raw] md startIndex config w =
      (Ret {| processed := 1;
              success := fst (count_result (0, 0) settled);
              failed := snd (count_result (0, 0) settled) |}, w') /\
    messageLogs w' = (messageLogs w ++ [apply_set (update u) doc])%list.
Proof.
  intros Hc Hnf doc w1 Hworker Hlogs Hid.
  unfold processBatchWithConcurrency.
  erewrite bind_Ret by reflexivity.
  erewrite bind_Ret by (apply insertMany_run, Hnf).
  rewrite batches_single by done. simpl map. simpl length. fold doc. fold w1.
  assert (chunkLoop env (workerSteps env md [length (messageLogs w)]) [[raw]]
            1 0 (0, 0) [] w1 =
            (Ret (count_result (0, 0) settled, [u]), w2)) as Hloop.
  { cbn [chunkLoop]. erewrite bind_Ret; cycle 1.
    { rewrite worker_alone. erewrite bind_Ret by exact Hworker. reflexivity. }
    reflexivity. }
  erewrite bind_Ret by exact Hloop.
  simpl snd. simpl fst. simpl length.
  change (0 <? 1)%nat with true. cbv iota.
  unfold try_catch, bulkWrite, bind at 1 2.
  rewrite store_call_run, Hnf.
  unfold write_updates, bind at 1, write_update.
  simpl messageLogs. rewrite Hlogs, Hid. unfold w1 at 1. simpl messageLogs.
  rewrite lookup_app_r, Nat.sub_diag by lia. simpl lookup.
  cbv beta iota. unfold emit, set_messageLogs, ret. simpl.
  eexists. split; [reflexivity|]. simpl.
  rewrite <- (Nat.add_0_r (length (messageLogs w))) at 1.
  by rewrite alter_app_r.
Qed.

(** C8 (amended). A recipient whose first two attempts fail and whose
    third succeeds ends with a record in status SENT that carries the
    message id; a recipient whose three attempts fail ends with a record in
    status FAILED and a non-empty error detail. In both cases [retryCount]
    keeps its default 0: the engine does not write it. *)
Theorem record_after_retries env md raw startIndex config w req e1 e2 :
  0 < CONCURRENCY_LIMIT config ->
  no_store_fault env ->
  request_of md raw = Some req ->
  wrap_reply (gateway env (requests w) req) = inl e1 ->
  wrap_reply (gateway env (S (requests w)) req) = inl e2 ->
  exists r w' l,
    processBatchWithConcurrency env [raw] md startIndex config w = (Ret r, w') /\
    messageLogs w' = (messageLogs w ++ [l])%list /\
    MessageLog.retryCount l = 0 /\
    match wrap_reply (gateway env (S (S (requests w))) req) with
    | inr d =>
        MessageLog.status l = MessageLog.SENT /\
        MessageLog.waMessageId l = first_message_id (Some d) /\
        success r = 1 /\ failed r = 0
    | inl e3 =>
        MessageLog.status l = MessageLog.FAILED /\
        (exists detail, MessageLog.error l = Some detail /\ detail <> EmptyString) /\
        success r = 0 /\ failed r = 1
    end.
Proof.
  intros Hc Hnf Hreq H1 H2.
  set (doc := MessageLog.queued (formatMobileNumber raw)
                (msg_type (BulkMessageData.type md)) (queued_payload md)
                (Some (BulkMessageData.department md))
                (BulkMessageData.sentBy md) (now w)).
  set (w1 := {| messageLogs := messageLogs w ++ [doc];
                operationSaves := operationSaves w;
                bulkOperation := bulkOperation w;
                trace := trace w; now := now w; requests := requests w;
                storeCalls := S (storeCalls w) |}).
  destruct (wrap_reply (gateway env (S (S (requests w))) req)) as [e3|d] eqn:H3.
  - pose proof (worker_three_failures env md [length (messageLogs w)] [] raw 0
                  (length (messageLogs w)) req w1 e1 e2 e3 Hreq eq_refl H1 H2 H3)
      as Hworker.
    destruct (processBatch_single env raw md startIndex config w _ _ _ Hc Hnf
                Hworker eq_refl eq_refl) as (w' & Hrun & Hlogs).
    do 3 eexists. split; [exact Hrun|]. split; [exact Hlogs|].
    simpl. repeat split; try reflexivity.
    eexists. split; [reflexivity|]. apply error_detail_nonempty.
  - pose proof (worker_third_time env md [length (messageLogs w)] [] raw 0
                  (length (messageLogs w)) req w1 e1 e2 d Hreq eq_refl H1 H2 H3)
      as Hworker.
    destruct (processBatch_single env raw md startIndex config w _ _ _ Hc Hnf
                Hworker eq_refl eq_refl) as (w' & Hrun & Hlogs).
    do 3 eexists. split; [exact Hrun|]. split; [exact Hlogs|].
    simpl. repeat split; reflexivity.
Qed.

Lemma record_after_retries_witness :
  exists r w' l,
    processBatchWithConcurrency env_third_time ["919876543210"]
      (text_to ["919876543210"]) 0 (getOptimalConfig 1) emptyWorld = (Ret r, w') /\
    messageLogs w' = [l] /\
    MessageLog.retryCount l = 0 /\
    MessageLog.status l = MessageLog.SENT /\
    MessageLog.waMessageId l = Some "wamid.1" /\
    success r = 1 /\ failed r = 0.
Proof.
  eapply (record_after_retries env_third_time (text_to ["919876543210"]) "919876543210"
            0 (getOptimalConfig 1) emptyWorld (ReqText "919876543210" (Some "Notice"))).
  - simpl. lia.
  - intros n c. reflexivity.
  - reflexivity.
  - reflexivity.
  - reflexivity.
Defined.

(** C8, as stated, fails on [retryCount]: after two failed attempts and a
    successful third the record is SENT with [retryCount = 0], and after
    three failed attempts it is FAILED with [retryCount = 0]. *)
Lemma retryCount_stays_zero :
  (MessageLog.status <$> messageLogs
     (snd (processBulkMessage env_third_time (text_to ["919876543210"]) emptyWorld)),
   MessageLog.retryCount <$> messageLogs
     (snd (processBulkMessage env_third_time (text_to ["919876543210"]) emptyWorld)))
    = ([MessageLog.SENT], [0]) /\
  (MessageLog.status <$> messageLogs
     (snd (processBulkMessage env_timeout (text_to ["919876543210"]) emptyWorld)),
   MessageLog.retryCount <$> messageLogs
     (snd (processBulkMessage env_timeout (text_to ["919876543210"]) emptyWorld)))
    = ([MessageLog.FAILED], [0]) /\
  ~ (forall l,
       messageLogs
         (snd (processBulkMessage env_third_time (text_to ["919876543210"]) emptyWorld))
         !! 0 = Some l ->
       MessageLog.status l = MessageLog.SENT /\ MessageLog.retryCount l = 2).
Proof.
  split; [by vm_compute|]. split; [by vm_compute|].
  intros H. edestruct H as [_ Hcount]; [by vm_compute|]. discriminate.
Qed.

(** ** C1 and C9: what the code does on two inputs *)

(** C1. Three recipients in the background path, every send succeeds. The
    plan for three recipients has width 2, so the third recipient is alone
    in the second chunk, at chunk index 0: its worker reads
    [createdLogs[0]], the record of the first recipient. That record is
    updated twice and the record of the third recipient stays QUEUED, while
    the Operation counts three successes. In the route the worker looks the
    record up with [batch.indexOf(mobileNumber)]: of two equal numbers in a
    batch the second updates the record of the first. *)
Theorem update_keyed_by_chunk_index :
  let w := snd (processBulkMessage env_ok
                  (text_to ["911111111111"; "922222222222"; "933333333333"])
                  emptyWorld) in
  dests (trace w) = ["911111111111"; "922222222222"; "933333333333"] /\
  MessageLog.to <$> messageLogs w = ["911111111111"; "922222222222"; "933333333333"] /\
  MessageLog.status <$> messageLogs w =
    [MessageLog.SENT; MessageLog.SENT; MessageLog.QUEUED] /\
  length (updates_of (trace w) 0) = 2 /\
  length (updates_of (trace w) 1) = 1 /\
  length (updates_of (trace w) 2) = 0 /\
  (BulkOperation.successCount <$> last (operationSaves w)) = Some 3 /\
  let w' := snd (csvBulkDocument env_ok (document_to ["911111111111"; "911111111111"])
                   emptyWorld) in
  MessageLog.status <$> messageLogs w' = [MessageLog.SENT; MessageLog.QUEUED] /\
  length (updates_of (trace w') 0) = 2 /\
  length (updates_of (trace w') 1) = 0.
Proof. by vm_compute. Qed.

(** C9. One recipient, the gateway accepts the message, [bulkWrite] fails.
    The background path falls back to [findByIdAndUpdate] and the record
    ends SENT. The route only logs the error: no update is applied, the
    record stays QUEUED, and the Operation is completed with one success. *)
Theorem route_has_no_fallback :
  let w := snd (processBulkMessage env_bulkWrite_down (text_to ["911111111111"])
                  emptyWorld) in
  let w' := snd (csvBulkDocument env_bulkWrite_down (document_to ["911111111111"])
                   emptyWorld) in
  MessageLog.status <$> messageLogs w = [MessageLog.SENT] /\
  length (updates_of (trace w) 0) = 1 /\
  (BulkOperation.status <$> last (operationSaves w)) = Some BulkOperation.COMPLETED /\
  MessageLog.status <$> messageLogs w' = [MessageLog.QUEUED] /\
  updates_of (trace w') 0 = [] /\
  filter (fun ev => is_store_fault ev = true) (trace w') =
    [EvStoreFault CallBulkWrite
       {| name := ClassMongoNetworkError; message := "connection closed";
          response := None |}] /\
  (BulkOperation.status <$> last (operationSaves w')) = Some BulkOperation.COMPLETED /\
  (BulkOperation.successCount <$> last (operationSaves w')) = Some 1.
Proof. by vm_compute. Qed.

(** ** C6: failed sends and the records *)

(** C6. Seven recipients in the background path, none of whom can be
    reached (HTTP 400, error 131026, on every attempt); no storage call
    fails. Whether the first waiting worker of a chunk always goes on or
    the waiting workers go on in turn, every recipient is attempted three
    times and counted as failed, and the Operation is completed with seven
    failures: the failed sends do not fail the Operation. But they do not
    all become FAILED records. The plan for seven recipients has batches of
    five and width 2; a worker reads [createdLogs[index]] with its index in
    its chunk, so in the first batch the five FAILED updates go to the
    records of the first two recipients, and the records of the third,
    fourth and fifth recipient are never updated and stay QUEUED. In the
    last run the only recipient is sent to and the save of the COMPLETED
    state fails: the Operation, COMPLETED in memory, is then saved FAILED
    with [completedAt]. *)
Theorem failed_sends_stay_queued :
  Forall
    (fun env =>
       let w := snd (processBulkMessage env
                       (text_to ["911"; "912"; "913"; "914"; "915"; "916"; "917"])
                       emptyWorld) in
       MessageLog.status <$> messageLogs w =
         [MessageLog.FAILED; MessageLog.FAILED; MessageLog.QUEUED;
          MessageLog.QUEUED; MessageLog.QUEUED; MessageLog.FAILED;
          MessageLog.FAILED] /\
       (fun _id => length (updates_of (trace w) _id)) <$> seq 0 7 =
         [3; 2; 0; 0; 0; 1; 1] /\
       length (dests (trace w)) = 21 /\
       (fun o => (BulkOperation.status o, BulkOperation.processedCount o,
                  BulkOperation.successCount o, BulkOperation.failedCount o)) <$>
         last (operationSaves w) = Some (BulkOperation.COMPLETED, 7, 0, 7))
    [env_unregistered; in_turn env_unregistered] /\
  let w' := snd (processBulkMessage env_completed_save_down
                   (text_to ["911111111111"]) emptyWorld) in
  MessageLog.status <$> messageLogs w' = [MessageLog.SENT] /\
  (fun o => (BulkOperation.status o, BulkOperation.processedCount o,
             BulkOperation.successCount o, BulkOperation.error o,
             BulkOperation.completedAt o)) <$> operationSaves w' =
    [(BulkOperation.PENDING, 0, 0, None, None);
     (BulkOperation.PROCESSING, 0, 0, None, None);
     (BulkOperation.PROCESSING, 1, 1, None, None);
     (BulkOperation.FAILED, 1, 1, Some "MongoNetworkError: connection closed",
      Some 0%N)].
Proof.
  split; [|by vm_compute].
  apply Forall_cons_2; [by vm_compute|].
  apply Forall_cons_2; [by vm_compute|]. apply Forall_nil_2.
Qed.

(** ** A batch *)

Lemma dests_after_request req w :
  dests (trace (after_request req w)) = (dests (trace w) ++ [request_to req])%list.
Proof. simpl. by rewrite dests_app. Qed.

Lemma dests_after_sleep ms w :
  dests (trace (after_sleep ms w)) = dests (trace w).
Proof. simpl. rewrite dests_app. apply app_nil_r. Qed.

Lemma request_of_posts md to :
  posts md = true -> exists req, request_of md to = Some req.
Proof.
  unfold posts, request_of. destruct (BulkMessageData.type md); eauto.
  - destruct (truthy _); [eauto | discriminate].
  - destruct (truthy _); eauto.
Qed.

Lemma snd_push_outcome messageLog r bulkUpdates w :
  exists s bulkUpdates',
    push_outcome messageLog r bulkUpdates w = (Ret (s, bulkUpdates'), w).
Proof.
  unfold push_outcome. destruct messageLog; [|by eauto].
  destruct r; by eauto.
Qed.

Lemma count_result_sum c r :
  (count_result c r).1 + (count_result c r).2 = S (c.1 + c.2).
Proof. destruct r as [[|]|]; simpl; lia. Qed.

Lemma count_results_sum rs c :
  (count_results rs c).1 + (count_results rs c).2 = c.1 + c.2 + length rs.
Proof.
  unfold count_results. revert c. induction rs as [|r rs IH]; intros c; simpl.
  - lia.
  - rewrite IH, count_result_sum. lia.
Qed.

Lemma repeated_nil : repeated [] [] = [].
Proof. reflexivity. Qed.

Lemma repeated_cons n ns to ms :
  repeated (n :: ns) (to :: ms) = (replicate n to ++ repeated ns ms)%list.
Proof. reflexivity. Qed.

Lemma repeated_app ns1 ns2 ms1 ms2 :
  length ns1 = length ms1 ->
  repeated (ns1 ++ ns2) (ms1 ++ ms2) = (repeated ns1 ms1 ++ repeated ns2 ms2)%list.
Proof.
  intros Hlen. unfold repeated. rewrite zip_with_app by done.
  apply concat_app.
Qed.

(** *** Lists *)

Lemma concat_insert_app {A} (l : list (list A)) i x y :
  l !! i = Some x -> concat (<[i := (x ++ y)%list]> l) ≡ₚ (concat l ++ y)%list.
Proof.
  intros Hi. pose proof (take_drop_middle l i x Hi) as E.
  rewrite insert_take_drop by (by eapply lookup_lt_Some).
  rewrite <- E at 3. rewrite !concat_app. simpl.
  rewrite <- !app_assoc. do 2 apply Permutation_app_head.
  apply Permutation_app_comm.
Qed.

Lemma repeated_insert ns chunk i n m to :
  ns !! i = Some n -> chunk !! i = Some to ->
  repeated (<[i := n + m]> ns) chunk ≡ₚ (repeated ns chunk ++ replicate m to)%list.
Proof.
  intros Hn Hto. unfold repeated.
  rewrite <- (list_insert_id chunk i to Hto) at 1.
  rewrite <- insert_zip_with, replicate_add. apply concat_insert_app.
  by rewrite lookup_zip_with, Hn, Hto.
Qed.

Section Weight.
Context {W : Type}.
Variable rank : W -> nat.

Lemma weight_cons (phase : Phase W) phases :
  weight rank (phase :: phases) =
    match phase with Waits awaited => S (rank awaited) | Done _ => 0 end
    + weight rank phases.
Proof. reflexivity. Qed.

Lemma weight_insert (phases : list (Phase W)) i awaited phase :
  phases !! i = Some (Waits awaited) ->
  match phase with Waits awaited' => rank awaited' < rank awaited | Done _ => True end ->
  S (weight rank (<[i := phase]> phases)) <= weight rank phases.
Proof.
  revert i. induction phases as [|ph phases IH]; intros i Hi Hlt.
  - by rewrite lookup_nil in Hi.
  - destruct i as [|i]; simpl in Hi.
    + injection Hi as ->. simpl. rewrite !weight_cons. destruct phase; lia.
    + simpl. rewrite !weight_cons. specialize (IH i Hi Hlt). lia.
Qed.

Lemma weight_waits (phases : list (Phase W)) i awaited :
  phases !! i = Some (Waits awaited) -> 0 < weight rank phases.
Proof.
  intros Hi. pose proof (weight_insert phases i awaited (Done (Fulfilled true)) Hi I).
  lia.
Qed.

Lemma weight_begun (awaiteds : list W) n :
  Forall (fun awaited => S (rank awaited) <= n) awaiteds ->
  weight rank (map Waits awaiteds) <= length awaiteds * n.
Proof.
  induction 1 as [|awaited awaiteds H _ IH]; [done|].
  simpl map. rewrite weight_cons. simpl length. lia.
Qed.
End Weight.

Lemma waitingFrom_elem {W} chunk (phases : list (Phase W)) j i to awaited :
  (i, to, awaited) ∈ waitingFrom j chunk phases ->
  exists i', i = j + i' /\ chunk !! i' = Some to /\
             phases !! i' = Some (Waits awaited).
Proof.
  revert phases j. induction chunk as [|to' chunk IH]; intros phases j Hin.
  - by apply elem_of_nil in Hin.
  - destruct phases as [|[awaited'|s] phases]; simpl in Hin.
    + by apply elem_of_nil in Hin.
    + apply elem_of_cons in Hin as [[= -> -> ->]|Hin].
      * exists 0. by rewrite Nat.add_0_r.
      * destruct (IH _ _ Hin) as (i' & -> & H1 & H2). exists (S i').
        split; [lia|done].
    + destruct (IH _ _ Hin) as (i' & -> & H1 & H2). exists (S i').
      split; [lia|done].
Qed.

Lemma waitingFrom_nil {W} chunk (phases : list (Phase W)) j :
  length phases = length chunk -> waitingFrom j chunk phases = [] ->
  forall i awaited, phases !! i <> Some (Waits awaited).
Proof.
  revert phases j. induction chunk as [|to chunk IH]; intros phases j Hlen Hnil.
  - destruct phases; [|done]. intros i awaited. by rewrite lookup_nil.
  - destruct phases as [|[awaited'|s] phases]; try done.
    simpl in Hnil, Hlen. intros [|i] awaited; simpl; [done|].
    eapply IH; [|exact Hnil]. lia.
Qed.

Lemma outcomes_length {W} (phases : list (Phase W)) :
  (forall i awaited, phases !! i <> Some (Waits awaited)) ->
  length (outcomes phases) = length phases.
Proof.
  induction phases as [|[awaited|s] phases IH]; intros Hdone; [done| |].
  - by destruct (Hdone 0 awaited).
  - simpl. rewrite IH; [done|]. intros i awaited. apply (Hdone (S i)).
Qed.

(** *** Calm steps *)

Lemma calm_refl w : calm w w.
Proof. split; [apply quiet_step_refl|done]. Qed.

Lemma calm_trans w1 w2 w3 : calm w1 w2 -> calm w2 w3 -> calm w1 w3.
Proof.
  intros (Q1 & M1 & U1 & C1) (Q2 & M2 & U2 & C2).
  split; [by eapply quiet_step_trans|]. split; [congruence|].
  split; congruence.
Qed.

(** *** The workers of a chunk, whatever the order they go on in *)

Section Chunks.
Context {W : Type}.
Variables (env : Env) (work : Steps W).
Variables (n0 : nat) (P : nat -> Prop).
Variable Q : string -> nat -> list UpdateOne -> Prop.
Variables (inv : W -> nat -> Prop) (rank : W -> nat).
Hypothesis Hwork : steps_spec n0 P Q inv rank work.

Lemma startAll_spec chunk :
  forall index w,
    exists awaiteds w',
      startAll work chunk index w = (Ret (map Waits awaiteds), w') /\
      calm w w' /\
      length awaiteds = length chunk /\
      Forall (fun awaited => inv awaited 0 /\ S (rank awaited) <= maxAwaits)
        awaiteds /\
      dests (trace w') = (dests (trace w) ++ (chunk ≫= replicate n0))%list.
Proof.
  induction chunk as [|to chunk IH]; intros index w.
  - exists [], w. split; [done|]. split; [apply calm_refl|].
    split; [done|]. split; [done|]. by rewrite app_nil_r.
  - destruct (proj1 Hwork to index w) as (awaited & w1 & E1 & C1 & D1 & I1 & R1).
    destruct (IH (S index) w1) as (awaiteds & w2 & E2 & C2 & L2 & F2 & D2).
    exists (awaited :: awaiteds), w2. split.
    { cbn [startAll]. rewrite (bind_Ret _ _ _ _ _ E1), (bind_Ret _ _ _ _ _ E2).
      reflexivity. }
    split; [by eapply calm_trans|]. split; [simpl; lia|].
    split; [by constructor|].
    rewrite D2, D1. cbn. by rewrite <- app_assoc.
Qed.

Lemma settleAll_spec chunk :
  forall fuel turn phases bulkUpdates w ns adds,
    length phases = length chunk ->
    length ns = length chunk ->
    length adds = length chunk ->
    (forall i awaited,
       phases !! i = Some (Waits awaited) ->
       exists n, ns !! i = Some n /\ inv awaited n /\ adds !! i = Some []) ->
    (forall i s,
       phases !! i = Some (Done s) ->
       exists n to a,
         ns !! i = Some n /\ P n /\ chunk !! i = Some to /\
         adds !! i = Some a /\ Q to i a) ->
    weight rank phases <= fuel ->
    exists rs us w' ns' adds' later,
      settleAll env work fuel turn chunk phases bulkUpdates w =
        (Ret (rs, (bulkUpdates ++ us)%list), w') /\
      calm w w' /\
      length rs = length chunk /\
      length ns' = length chunk /\ Forall P ns' /\
      dests (trace w') = (dests (trace w) ++ later)%list /\
      (repeated ns chunk ++ later)%list ≡ₚ repeated ns' chunk /\
      length adds' = length chunk /\
      (forall i to a, chunk !! i = Some to -> adds' !! i = Some a -> Q to i a) /\
      (concat adds ++ us)%list ≡ₚ concat adds'.
Proof.
  induction fuel as [|fuel IH];
    intros turn phases bulkUpdates w ns adds Lp Ln La Hwaits Hdone Hfuel.
  all: destruct (waitingFrom 0 chunk phases) as [|first others] eqn:Hw.
  1, 3: (
    pose proof (waitingFrom_nil chunk phases 0 Lp Hw) as Hall;
    exists (outcomes phases), [], w, ns, adds, [];
    split; [cbn [settleAll]; rewrite Hw; by rewrite app_nil_r|];
    split; [apply calm_refl|];
    split; [rewrite outcomes_length by done; done|];
    split; [done|];
    split;
      [apply Forall_lookup; intros i n Hn;
       destruct (lookup_lt_is_Some_2 phases i) as [[awaited|s] Hph];
         [rewrite Lp, <- Ln; by eapply lookup_lt_Some
         |by destruct (Hall i awaited)
         |destruct (Hdone i s Hph) as (n' & to & a & Hn' & HP & _); congruence]|];
    split; [by rewrite app_nil_r|];
    split; [by rewrite app_nil_r|];
    split; [done|];
    split;
      [intros i to a Hto Ha;
       destruct (lookup_lt_is_Some_2 phases i) as [[awaited|s] Hph];
         [rewrite Lp; by eapply lookup_lt_Some
         |by destruct (Hall i awaited)
         |destruct (Hdone i s Hph) as (n' & to' & a' & _ & _ & Hto' & Ha' & HQ);
          congruence]|];
    by rewrite app_nil_r).
  - (* no fuel, and a worker waits *)
    assert (first ∈ waitingFrom 0 chunk phases) as Hin by (rewrite Hw; by left).
    destruct first as [[i to] awaited].
    destruct (waitingFrom_elem _ _ _ _ _ _ Hin) as (i' & _ & _ & Hph).
    pose proof (weight_waits rank phases i' awaited Hph). lia.
  - cbn [settleAll]. rewrite Hw. unfold bind at 1, past.
    set (k := arrival env (trace w) turn mod S (length others)).
    assert (nth k (first :: others) first ∈ waitingFrom 0 chunk phases) as Hin.
    { rewrite Hw. apply nth_elem_of. simpl. apply Nat.mod_upper_bound. lia. }
    destruct (nth k (first :: others) first) as [[i to] awaited].
    destruct (waitingFrom_elem _ _ _ _ _ _ Hin) as (i' & -> & Hto & Hph).
    simpl in *. clear Hin.
    destruct (Hwaits i' awaited Hph) as (n & Hn & Hinv & Ha).
    destruct (proj2 Hwork to i' awaited bulkUpdates w n Hinv)
      as (phase & bulkUpdates' & w1 & m & E1 & C1 & D1 & Hphase).
    rewrite (bind_Ret _ _ _ _ _ E1). cbn [fst snd].
    assert (exists added,
              bulkUpdates' = (bulkUpdates ++ added)%list /\
              match phase with
              | Waits awaited' =>
                  inv awaited' (n + m) /\ rank awaited' < rank awaited /\ added = []
              | Done s => P (n + m) /\ Q to i' added
              end) as (added & -> & Hphase').
    { destruct phase as [awaited'|s].
      - destruct Hphase as (? & ? & ->). exists []. by rewrite app_nil_r.
      - destruct Hphase as (? & added & -> & ?). by exists added. }
    clear Hphase.
    destruct (IH (S turn) (<[i' := phase]> phases) (bulkUpdates ++ added)%list w1
                (<[i' := n + m]> ns) (<[i' := added]> adds))
      as (rs & us & w' & ns' & adds' & later & E & C & Lr & Ln' & FP & D & Pd & La' & HQ & Pu).
    { by rewrite length_insert. }
    { by rewrite length_insert. }
    { by rewrite length_insert. }
    { intros j awaited' Hj. apply list_lookup_insert_Some in Hj as [(<- & -> & Hlt)|(Hne & Hj)].
      - destruct Hphase' as (Hinv' & _ & ->). exists (n + m).
        rewrite !list_lookup_insert_eq by (by eapply lookup_lt_Some). done.
      - destruct (Hwaits j awaited' Hj) as (n' & Hn' & Hinv' & Ha').
        exists n'. by rewrite !list_lookup_insert_ne by done. }
    { intros j s Hj. apply list_lookup_insert_Some in Hj as [(<- & -> & Hlt)|(Hne & Hj)].
      - destruct Hphase' as (HP & HQ). exists (n + m), to, added.
        rewrite !list_lookup_insert_eq by (by eapply lookup_lt_Some). done.
      - destruct (Hdone j s Hj) as (n' & to' & a' & Hn' & HP & Hto' & Ha' & HQ).
        exists n', to', a'. by rewrite !list_lookup_insert_ne by done. }
    { pose proof (weight_insert rank phases i' awaited phase Hph) as Hlt.
      assert (S (weight rank (<[i' := phase]> phases)) <= weight rank phases);
        [|lia].
      apply Hlt. destruct phase; [apply Hphase'|done]. }
    exists rs, (added ++ us)%list, w', ns', adds', (replicate m to ++ later)%list.
    split; [rewrite E; by rewrite <- app_assoc|].
    split; [by eapply calm_trans|]. split; [done|]. split; [done|].
    split; [done|].
    split; [rewrite D, D1; by rewrite <- app_assoc|].
    split.
    { rewrite <- Pd. rewrite (repeated_insert ns chunk i' n m to Hn Hto).
      by rewrite <- app_assoc. }
    split; [done|]. split; [done|].
    rewrite <- Pu. rewrite app_assoc. apply Permutation_app_tail.
    symmetry. change added with ([] ++ added)%list at 1.
    by apply concat_insert_app.
Qed.

(** The run of one chunk. The call of every worker comes first, in index
    order; what is posted after that is, up to its order, [later]. *)
Lemma runChunk_spec chunk :
  forall bulkUpdates w,
    exists rs us w' ns adds later,
      runChunk env work chunk bulkUpdates w =
        (Ret (rs, (bulkUpdates ++ us)%list), w') /\
      calm w w' /\
      length rs = length chunk /\
      length ns = length chunk /\ Forall P ns /\
      dests (trace w') =
        (dests (trace w) ++ (chunk ≫= replicate n0) ++ later)%list /\
      later ≡ₚ repeated ns chunk /\
      length adds = length chunk /\
      (forall i to a, chunk !! i = Some to -> adds !! i = Some a -> Q to i a) /\
      us ≡ₚ concat adds.
Proof.
  intros bulkUpdates w. unfold runChunk.
  destruct (startAll_spec chunk 0 w) as (awaiteds & w1 & E1 & C1 & L1 & F1 & D1).
  rewrite (bind_Ret _ _ _ _ _ E1).
  destruct (settleAll_spec chunk (length chunk * maxAwaits) 0 (map Waits awaiteds)
              bulkUpdates w1 (replicate (length chunk) 0)
              (replicate (length chunk) []))
    as (rs & us & w' & ns & adds & later & E & C & Lr & Ln & FP & D & Pd & La & HQ & Pu).
  { by rewrite length_map. }
  { by rewrite length_replicate. }
  { by rewrite length_replicate. }
  { intros i awaited Hi. change (map Waits awaiteds) with (Waits <$> awaiteds) in Hi.
    rewrite list_lookup_fmap in Hi.
    destruct (awaiteds !! i) as [awaited'|] eqn:Hi'; [|done].
    injection Hi as ->. exists 0.
    assert (i < length chunk) by (rewrite <- L1; by eapply lookup_lt_Some).
    rewrite !lookup_replicate_2 by done. split; [done|]. split; [|done].
    rewrite Forall_lookup in F1. by apply (F1 i awaited). }
  { intros i s Hi. change (map Waits awaiteds) with (Waits <$> awaiteds) in Hi.
    rewrite list_lookup_fmap in Hi. by destruct (awaiteds !! i). }
  { rewrite <- L1. apply weight_begun. eapply Forall_impl; [exact F1|].
    by intros awaited [_ ?]. }
  exists rs, us, w', ns, adds, later. split; [done|].
  split; [by eapply calm_trans|]. split; [done|]. split; [done|]. split; [done|].
  split; [rewrite D, D1; by rewrite <- app_assoc|].
  assert (repeated (replicate (length chunk) 0) chunk = []) as Hzero.
  { clear. unfold repeated. induction chunk as [|to chunk IH]; [done|].
    simpl. exact IH. }
  assert (concat (replicate (length chunk) (@nil UpdateOne)) = []) as Hnone.
  { clear. induction chunk as [|to chunk IH]; [done|]. simpl. exact IH. }
  rewrite Hzero in Pd. rewrite Hnone in Pu. simpl in Pd, Pu.
  done.
Qed.
End Chunks.

Lemma firsts_repeated (n0 : nat) chunk :
  forall ns,
    length ns = length chunk ->
    ((chunk ≫= replicate n0) ++ repeated ns chunk)%list ≡ₚ
      repeated ((fun n => n0 + n) <$> ns) chunk.
Proof.
  induction chunk as [|to chunk IH]; intros [|n ns] Hlen; try done.
  change ((to :: chunk) ≫= replicate n0)
    with (replicate n0 to ++ (chunk ≫= replicate n0))%list.
  change ((fun n => n0 + n) <$> n :: ns)
    with ((n0 + n) :: ((fun n => n0 + n) <$> ns)).
  rewrite !repeated_cons, replicate_add.
  rewrite <- !app_assoc. apply Permutation_app_head.
  rewrite <- (IH ns) by (simpl in Hlen; lia).
  rewrite !app_assoc. apply Permutation_app_tail. apply Permutation_app_comm.
Qed.

Lemma repeated_zeros ns chunk :
  Forall (fun n => n = 0) ns -> repeated ns chunk = [].
Proof.
  intros H. revert chunk. induction H as [|n ns -> _ IH]; intros [|to chunk]; try done.
  rewrite repeated_cons. simpl. apply IH.
Qed.

Lemma calm_pause (b : bool) ms w :
  exists w', (if b then sleep ms else ret tt) w = (Ret tt, w') /\ calm w w'.
Proof.
  destruct b.
  - eexists. split; [apply sleep_run|]. split.
    + eapply quiet_step_weaken; [|apply (steps_sleep ms w)]. done.
    + simpl. split; [done|]. split; [|done].
      unfold updated_ids. rewrite omap_app. simpl. by rewrite app_nil_r.
  - exists w. split; [done|]. apply calm_refl.
Qed.

Section ChunkLoop.
Context {W : Type}.
Variables (env : Env) (work : Steps W).
Variables (n0 : nat) (P : nat -> Prop).
Variable Q : string -> nat -> list UpdateOne -> Prop.
Variables (inv : W -> nat -> Prop) (rank : W -> nat).
Hypothesis Hwork : steps_spec n0 P Q inv rank work.

(** The chunks of a batch, one after the other. Of the requests only the
    recipients and their numbers are known; their order is known when no
    worker posts anything after its call. *)
Lemma chunkLoop_spec chunks :
  forall nchunks k counts bulkUpdates w,
    exists counts' us w' ns adds new,
      chunkLoop env work chunks nchunks k counts bulkUpdates w =
        (Ret (counts', (bulkUpdates ++ us)%list), w') /\
      calm w w' /\
      counts'.1 + counts'.2 = counts.1 + counts.2 + length (concat chunks) /\
      length ns = length (concat chunks) /\
      Forall (fun n => exists n1, n = n0 + n1 /\ P n1) ns /\
      dests (trace w') = (dests (trace w) ++ new)%list /\
      new ≡ₚ repeated ns (concat chunks) /\
      ((forall n, P n -> n = 0) -> new = concat chunks ≫= replicate n0) /\
      Forall2 (fun to a => exists i, Q to i a) (concat chunks) adds /\
      us ≡ₚ concat adds.
Proof.
  induction chunks as [|chunk chunks IH]; intros nchunks k counts bulkUpdates w.
  - exists counts, [], w, [], [], []. split; [simpl; by rewrite app_nil_r|].
    split; [apply calm_refl|]. simpl. split; [lia|]. split; [done|].
    split; [done|]. split; [by rewrite app_nil_r|]. split; [done|].
    split; [done|]. split; [constructor|done].
  - destruct (runChunk_spec env work n0 P Q inv rank Hwork chunk bulkUpdates w)
      as (rs & us1 & w1 & ns1 & adds1 & later & E1 & C1 & Lr & Ln1 & F1 & D1 & P1 & La1 & Q1 & U1).
    cbn [chunkLoop]. rewrite (bind_Ret _ _ _ _ _ E1). cbn [fst snd].
    destruct (calm_pause (k <? nchunks - 1)%nat 25%N w1) as (w2 & E2 & C2).
    rewrite (bind_Ret _ _ _ _ _ E2).
    destruct (IH nchunks (S k) (count_results rs counts) (bulkUpdates ++ us1)%list w2)
      as (c' & us2 & w3 & ns2 & adds2 & new2 & E3 & C3 & L3 & Ln2 & F2 & D3 & P3 & X3 & Q3 & U3).
    exists c', (us1 ++ us2)%list, w3, (((fun n => n0 + n) <$> ns1) ++ ns2)%list,
      (adds1 ++ adds2)%list, (((chunk ≫= replicate n0) ++ later) ++ new2)%list.
    split; [rewrite E3; by rewrite <- app_assoc|].
    split; [eapply calm_trans; [exact C1|]; by eapply calm_trans|].
    simpl concat. rewrite !length_app.
    split; [rewrite L3, count_results_sum; lia|].
    split; [rewrite length_fmap; lia|].
    split.
    { apply Forall_app. split; [|done]. apply Forall_fmap.
      eapply Forall_impl; [exact F1|]. intros n Hn. by exists n. }
    split.
    { rewrite D3. destruct C2 as (Q2 & _).
      assert (dests (trace w2) = dests (trace w1)) as ->.
      { destruct (k <? nchunks - 1)%nat.
        - rewrite sleep_run in E2. injection E2 as <-. apply dests_after_sleep.
        - by injection E2 as <-. }
      rewrite D1. by rewrite <- !app_assoc. }
    split.
    { rewrite repeated_app by (by rewrite length_fmap).
      apply Permutation_app; [|done].
      rewrite <- firsts_repeated by done. by apply Permutation_app_head. }
    split.
    { intros Hzero. rewrite (X3 Hzero).
      assert (later = []) as ->.
      { apply Permutation_nil_r. rewrite P1.
        rewrite repeated_zeros; [done|].
        eapply Forall_impl; [exact F1|]. exact Hzero. }
      rewrite app_nil_r. by rewrite bind_app. }
    split.
    { apply Forall2_app; [|done].
      apply Forall2_same_length_lookup_2; [by rewrite La1|].
      intros i to a Hto Ha. exists i. by eapply Q1. }
    rewrite concat_app. by apply Permutation_app.
Qed.
End ChunkLoop.

(** *** The two workers *)

Lemma posts_request md to : posts md = true <-> is_Some (request_of md to).
Proof.
  unfold posts, request_of. destruct (BulkMessageData.type md).
  - split; by eauto.
  - destruct (truthy _); split; try done; by intros [? ?].
  - destruct (truthy _); split; by eauto.
Qed.

Lemma calm_after_request req w : calm w (after_request req w).
Proof.
  split; [apply quiet_after_request|]. simpl. split; [done|]. split; [|done].
  unfold updated_ids. rewrite omap_app. simpl. by rewrite app_nil_r.
Qed.

Lemma calm_wake ms due w : exists w', wake ms due w = (Ret tt, w') /\ calm w w' /\
  dests (trace w') = dests (trace w).
Proof.
  eexists. split; [reflexivity|]. split.
  - split.
    + repeat split. exists [EvSleep ms]. split; [done|]. by constructor.
    + simpl. split; [done|]. split; [|done].
      unfold updated_ids. rewrite omap_app. simpl. by rewrite app_nil_r.
  - simpl. rewrite dests_app. simpl. by rewrite app_nil_r.
Qed.

(** One send: it posts one request to [to], or none at all when the
    message has nothing to post. *)
Lemma attempt_send_spec env md to w :
  exists sent w',
    attempt (send_by_type env md to) w = (Ret sent, w') /\
    calm w w' /\
    dests (trace w') =
      (dests (trace w) ++ replicate (if posts md then 1 else 0) to)%list.
Proof.
  rewrite attempt_send_run.
  destruct (request_of md to) as [req|] eqn:Hreq.
  - assert (posts md = true) as -> by (apply (posts_request md to); by eexists).
    do 2 eexists. split; [reflexivity|]. split; [apply calm_after_request|].
    by rewrite dests_after_request, (request_of_to _ _ _ Hreq).
  - assert (posts md = false) as ->.
    { destruct (posts md) eqn:Hp; [|done].
      apply (posts_request md to) in Hp as [? ?]. congruence. }
    do 2 eexists. split; [reflexivity|]. split; [apply calm_refl|].
    simpl. by rewrite app_nil_r.
Qed.

Lemma settle_push_spec {W} messageLog r bulkUpdates w :
  exists s added,
    @settle W (push_outcome messageLog r bulkUpdates) w =
      (Ret (Done s, (bulkUpdates ++ added)%list), w) /\
    match messageLog with
    | Some _id => exists u, added = [u] /\ filter_id u = _id
    | None => added = []
    end.
Proof.
  destruct (push_outcome_run messageLog r bulkUpdates w) as (s & us & E & H).
  exists s, us. split; [|done]. by rewrite settle_push, E.
Qed.

(** The steps of a worker of the background path: after its call such a
    worker posts one request per retry, [maxRetries] at most, and pushes
    one update, for the record [createdLogs[index]]. *)
Lemma workerSteps_spec env md createdLogs :
  steps_spec (if posts md then 1 else 0)
    (fun n => n <= maxRetries /\ (posts md = false -> n = 0))
    (fun to index added =>
       match createdLogs !! index with
       | Some _id => exists u, added = [u] /\ filter_id u = _id
       | None => added = []
       end)
    (worker_inv md) worker_rank (workerSteps env md createdLogs).
Proof.
  split.
  - intros to index w. cbn [begin workerSteps].
    destruct (attempt_send_spec env md to w) as (sent & w' & E & C & D).
    exists (AwaitSend 0 sent), w'. split; [by rewrite (bind_Ret _ _ _ _ _ E)|].
    split; [done|]. split; [done|]. split.
    + simpl. split; [lia|]. by destruct (posts md).
    + unfold maxAwaits. simpl. lia.
  - intros to index awaited bulkUpdates w n Hinv. cbn [resume workerSteps].
    destruct awaited as [retries [retryError|result]|retries ms due]; simpl in Hinv.
    + destruct Hinv as [Hle ->].
      destruct (Nat.ltb_spec maxRetries (S retries)) as [Hmax|Hmax].
      * destruct (settle_push_spec (W := Waiting) (createdLogs !! index)
                    (inl retryError) bulkUpdates w) as (s & added & E & H).
        exists (Done s), (bulkUpdates ++ added)%list, w, 0. split; [done|].
        split; [apply calm_refl|]. split; [simpl; by rewrite app_nil_r|].
        rewrite Nat.add_0_r. split; [|by exists added].
        split; [destruct (posts md); lia|]. by intros ->.
      * exists (Waits (AwaitPause (S retries)
                         (2 ^ N.of_nat (S retries) * 1000)%N
                         (now w + 2 ^ N.of_nat (S retries) * 1000)%N)),
          bulkUpdates, w, 0.
        split; [reflexivity|]. split; [apply calm_refl|].
        split; [simpl; by rewrite app_nil_r|].
        cbn [worker_inv worker_rank]. unfold maxRetries in *.
        split; [|split; [lia|done]].
        split; [lia|]. destruct (posts md); lia.
    + destruct Hinv as [Hle ->].
      destruct (settle_push_spec (W := Waiting) (createdLogs !! index)
                  (inr (first_message_id result)) bulkUpdates w)
        as (s & added & E & H).
      exists (Done s), (bulkUpdates ++ added)%list, w, 0. split; [done|].
      split; [apply calm_refl|]. split; [simpl; by rewrite app_nil_r|].
      rewrite Nat.add_0_r. split; [|by exists added].
      split; [destruct (posts md); lia|]. by intros ->.
    + destruct Hinv as [Hle ->].
      destruct (calm_wake ms due w) as (w1 & E1 & C1 & D1).
      rewrite (bind_Ret _ _ _ _ _ E1).
      destruct (Nat.leb_spec retries maxRetries) as [_|]; [|lia].
      destruct (attempt_send_spec env md to w1) as (sent & w2 & E2 & C2 & D2).
      exists (Waits (AwaitSend retries sent)), bulkUpdates, w2,
        (if posts md then 1 else 0).
      split; [by rewrite (bind_Ret _ _ _ _ _ E2)|].
      split; [by eapply calm_trans|]. split; [by rewrite D2, D1|].
      cbn [worker_inv worker_rank]. unfold maxRetries in *.
      split; [|split; [lia|done]].
      split; [lia|]. destruct (posts md); lia.
Qed.

(** The steps of a worker of the route: it posts its only request in its
    call and pushes one update, for the record at the first position of
    its number in the batch. *)
Lemma routeWorkerSteps_spec env rq batch createdLogs :
  steps_spec 1 (fun n => n = 0)
    (fun to index added =>
       match indexOf batch to ≫= (fun i => createdLogs !! i) with
       | Some _id => exists u, added = [u] /\ filter_id u = _id
       | None => added = []
       end)
    (fun _ n => n = 0) (fun _ => 0) (routeWorkerSteps env rq batch createdLogs).
Proof.
  split.
  - intros to index w. cbn [begin routeWorkerSteps].
    set (req := ReqTemplateDocument to (rq_mediaId rq)).
    assert (exists sent,
              attempt (sendDocumentByMediaId env to (rq_mediaId rq)) w =
                (Ret sent, after_request req w)) as [sent Hrun].
    { destruct (wrap_reply (gateway env (requests w) req)) eqn:H1.
      - eexists. apply attempt_Throw. rewrite sendDocumentByMediaId_run.
        fold req. by rewrite H1.
      - eexists. apply attempt_Ret. rewrite sendDocumentByMediaId_run.
        fold req. by rewrite H1. }
    exists sent, (after_request req w). split; [done|].
    split; [apply calm_after_request|]. split; [by rewrite dests_after_request|].
    split; [done|]. unfold maxAwaits. lia.
  - intros to index sent bulkUpdates w n ->. cbn [resume routeWorkerSteps].
    match goal with |- context [push_outcome ?a ?b ?c] =>
      destruct (settle_push_spec (W := JsError + ResponseData) a b c w)
        as (s & added & E & H) end.
    exists (Done s), (bulkUpdates ++ added)%list, w, 0. split; [done|].
    split; [apply calm_refl|]. split; [simpl; by rewrite app_nil_r|].
    split; [done|]. by exists added.
Qed.

Lemma steps_bulk_update env us :
  steps not_request
    (if (0 <? length us)%nat then
       try_catch (bulkWrite env us)
         (fun error => console_error "Error in batch update" ;;;
                       individual_updates env us)
     else ret tt).
Proof.
  destruct (0 <? length us)%nat; [|apply steps_ret].
  apply steps_try_catch; [apply steps_bulkWrite|].
  intros e. apply steps_bind; [apply steps_console_error|].
  intros. apply steps_individual_updates.
Qed.

Lemma returns_bulk_update_if env us :
  returns
    (if (0 <? length us)%nat then
       try_catch (bulkWrite env us)
         (fun error => console_error "Error in batch update" ;;;
                       individual_updates env us)
     else ret tt).
Proof.
  destruct (0 <? length us)%nat; [apply returns_bulk_update | apply returns_ret].
Qed.

(** What one batch of the background path does: when [insertMany] fails it
    throws that error; otherwise it returns counters that add up to the
    size of the batch, has stored one record per recipient under the
    formatted number, and has posted every request to a raw number: the
    requests are, up to their order, the recipients, each taken one to
    three times. *)
Lemma processBatch_spec env ms md startIndex config w :
  0 < CONCURRENCY_LIMIT config ->
  match store_fault env (storeCalls w) CallInsertMany with
  | Some e =>
      exists w',
        processBatchWithConcurrency env ms md startIndex config w = (Throw e, w') /\
        quiet_step not_request w w' /\ faulted w'
  | None =>
      exists r w' ns new,
        processBatchWithConcurrency env ms md startIndex config w = (Ret r, w') /\
        processed r = length ms /\
        success r + failed r = length ms /\
        operationSaves w' = operationSaves w /\
        bulkOperation w' = bulkOperation w /\
        (exists evs, trace w' = (trace w ++ evs)%list) /\
        tos w' = (tos w ++ map formatMobileNumber ms)%list /\
        length ns = length ms /\
        Forall (fun n => n <= S maxRetries /\ (posts md = true -> 1 <= n)) ns /\
        dests (trace w') = (dests (trace w) ++ new)%list /\
        new ≡ₚ repeated ns ms
  end.
Proof.
  intros Hc. unfold processBatchWithConcurrency.
  erewrite bind_Ret by reflexivity.
  destruct (store_fault env (storeCalls w) CallInsertMany) as [e|] eqn:Hf.
  - erewrite bind_Throw by (apply insertMany_fault, Hf).
    eexists. split; [reflexivity|]. split.
    + repeat split. exists [EvStoreFault CallInsertMany e]. split; [done|].
      by constructor.
    + unfold faulted. simpl. apply Exists_app. right. by constructor.
  - erewrite bind_Ret by (apply insertMany_run, Hf).
    destruct (batches_spec ms (CONCURRENCY_LIMIT config) Hc)
      as (chunks & Hb & Hcat & _ & _).
    rewrite Hb.
    match goal with |- context [bind (chunkLoop env ?wk chunks ?n ?k ?c ?bu) _ ?w1] =>
      destruct (chunkLoop_spec env wk _ _ _ _ _ (workerSteps_spec env md _)
                  chunks n k c bu w1)
        as (c' & bu' & w2 & ns & adds & new & E2 & C2 & L2 & Lns & Fns & D2 & P2 & _)
    end.
    rewrite (bind_Ret _ _ _ _ _ E2). simpl snd. simpl fst.
    destruct (returns_run _ w2 (returns_bulk_update_if env bu')) as ([] & w3 & E3).
    pose proof (steps_bulk_update env bu' w2) as Q3. rewrite E3 in Q3. simpl in Q3.
    rewrite (bind_Ret _ _ _ _ _ E3).
    rewrite Hcat in *. simpl in L2.
    destruct C2 as ((S2 & B2 & T2 & evs2 & Tr2 & _) & _).
    simpl in S2, B2, Tr2, D2. unfold tos in T2. simpl in T2.
    pose proof (quiet_step_dests _ _ Q3) as D3.
    destruct Q3 as (S3 & B3 & T3 & evs3 & Tr3 & _).
    eexists _, w3, ns, new. split; [reflexivity|]. simpl.
    split; [done|]. split; [lia|]. split; [congruence|]. split; [congruence|].
    split.
    { exists (evs2 ++ evs3)%list. rewrite Tr3, Tr2. simpl. by rewrite app_assoc. }
    split.
    { rewrite T3. unfold tos at 1. rewrite T2. unfold tos. rewrite map_app, map_map. done. }
    split; [done|]. split.
    { eapply Forall_impl; [exact Fns|]. intros n (n1 & -> & Hn1 & Hzero).
      unfold maxRetries in *. destruct (posts md); [lia|].
      rewrite (Hzero eq_refl). split; [lia|done]. }
    split; [|done].
    rewrite D3, D2. done.
Qed.

(** A batch leaves the Operation record alone and keeps the marks of
    earlier storage failures. *)
Lemma processBatch_frame env ms md startIndex config w :
  0 < CONCURRENCY_LIMIT config ->
  operationSaves (snd (processBatchWithConcurrency env ms md startIndex config w)) =
    operationSaves w /\
  bulkOperation (snd (processBatchWithConcurrency env ms md startIndex config w)) =
    bulkOperation w /\
  (faulted w ->
   faulted (snd (processBatchWithConcurrency env ms md startIndex config w))).
Proof.
  intros Hc. pose proof (processBatch_spec env ms md startIndex config w Hc) as H.
  destruct (store_fault env (storeCalls w) CallInsertMany).
  - destruct H as (w' & -> & (S1 & B1 & _) & F). simpl. auto.
  - destruct H as (r & w' & ns & new & -> & _ & _ & S1 & B1 & (evs & Tr) & _). simpl.
    split; [done|]. split; [done|]. unfold faulted. rewrite Tr.
    intros. apply Exists_app. by left.
Qed.

(** ** C10: the recipient on record and the recipient of the request *)

Lemma all_digits_strip s : all_digits (strip_non_digits s) = true.
Proof.
  induction s as [|c s IH]; simpl; [done|].
  destruct (is_digit c) eqn:Hc; simpl; [by rewrite Hc|done].
Qed.

Lemma all_digits_format s : all_digits (formatMobileNumber s) = true.
Proof.
  unfold formatMobileNumber.
  destruct (String.length (strip_non_digits s) =? 10)%nat; simpl;
    apply all_digits_strip.
Qed.

(** C10. In a batch of the background path the record of the i-th
    recipient is stored under [formatMobileNumber] of the input (its digits
    only, with a leading 1 when there are exactly ten), while the requests
    of the batch are posted to the inputs as they are: up to their order,
    which depends on the order the replies arrive in, they are the inputs,
    each taken between one and three times. So an input that differs from
    its formatted form is on record under another recipient than the one
    the message went to. *)
Theorem stored_recipient_differs env ms md startIndex config w r w' :
  0 < CONCURRENCY_LIMIT config ->
  processBatchWithConcurrency env ms md startIndex config w = (Ret r, w') ->
  tos w' = (tos w ++ map formatMobileNumber ms)%list /\
  (exists ns new,
     length ns = length ms /\
     Forall (fun n => n <= 3 /\ (posts md = true -> 1 <= n)) ns /\
     dests (trace w') = (dests (trace w) ++ new)%list /\
     new ≡ₚ repeated ns ms) /\
  (forall i raw,
     ms !! i = Some raw ->
     exists l,
       messageLogs w' !! (length (messageLogs w) + i) = Some l /\
       MessageLog.to l = formatMobileNumber raw /\
       all_digits (MessageLog.to l) = true /\
       MessageLog.to l =
         (if (String.length (strip_non_digits raw) =? 10)%nat
          then "1" ++ strip_non_digits raw else strip_non_digits raw) /\
       (formatMobileNumber raw <> raw -> MessageLog.to l <> raw)).
Proof.
  intros Hc Hrun.
  pose proof (processBatch_spec env ms md startIndex config w Hc) as H.
  destruct (store_fault env (storeCalls w) CallInsertMany).
  { destruct H as (w0 & E & _). congruence. }
  destruct H as (r0 & w0 & ns & new & E & _ & _ & _ & _ & _ & Htos & Lns & Fns & D & Pm).
  rewrite Hrun in E. injection E as <- <-.
  split; [done|]. split; [by exists ns, new|].
  intros i raw Hi.
  assert (tos w' !! (length (messageLogs w) + i) = Some (formatMobileNumber raw)) as Hl.
  { rewrite Htos. unfold tos at 1. rewrite <- (length_map MessageLog.to).
    rewrite lookup_app_r by lia.
    replace (length (map MessageLog.to (messageLogs w)) + i
             - length (map MessageLog.to (messageLogs w))) with i by lia.
    change (map formatMobileNumber ms) with (formatMobileNumber <$> ms).
    by rewrite list_lookup_fmap, Hi. }
  unfold tos in Hl. change (map MessageLog.to (messageLogs w'))
    with (MessageLog.to <$> messageLogs w') in Hl.
  rewrite list_lookup_fmap in Hl.
  destruct (messageLogs w' !! (length (messageLogs w) + i)) as [l|]; [|discriminate].
  injection Hl as Hl. exists l. split; [done|]. split; [done|].
  split; [rewrite Hl; apply all_digits_format|].
  split; [by rewrite Hl|]. by rewrite Hl.
Qed.

Lemma stored_recipient_differs_witness :
  let run := processBatchWithConcurrency env_ok ["(555) 123-4567"]
               (text_to ["(555) 123-4567"]) 0 (getOptimalConfig 1) emptyWorld in
  tos (snd run) = ["15551234567"] /\
  (exists ns new,
     length ns = 1 /\
     Forall (fun n => n <= 3 /\
                      (posts (text_to ["(555) 123-4567"]) = true -> 1 <= n)) ns /\
     dests (trace (snd run)) = (dests (trace emptyWorld) ++ new)%list /\
     new ≡ₚ repeated ns ["(555) 123-4567"]) /\
  (forall i raw,
     ["(555) 123-4567"] !! i = Some raw ->
     exists l,
       messageLogs (snd run) !! (0 + i) = Some l /\
       MessageLog.to l = formatMobileNumber raw /\
       all_digits (MessageLog.to l) = true /\
       MessageLog.to l =
         (if (String.length (strip_non_digits raw) =? 10)%nat
          then "1" ++ strip_non_digits raw else strip_non_digits raw) /\
       (formatMobileNumber raw <> raw -> MessageLog.to l <> raw)).
Proof.
  apply (stored_recipient_differs env_ok ["(555) 123-4567"]
           (text_to ["(555) 123-4567"]) 0 (getOptimalConfig 1) emptyWorld
           {| processed := 1; success := 1; failed := 0 |}).
  - simpl. lia.
  - reflexivity.
Defined.

(** ** The Operation record along a run *)

Lemma nondecreasing_nil : nondecreasing [].
Proof. intros i j oi oj _ H. by rewrite lookup_nil in H. Qed.

Lemma nondecreasing_snoc l d :
  nondecreasing l ->
  (forall o, o ∈ l -> settled o <= settled d) ->
  nondecreasing (l ++ [d]).
Proof.
  intros Hl Hd i j oi oj Hij Hi Hj.
  destruct (decide (j < length l)) as [Hjl|Hjl].
  - rewrite lookup_app_l in Hi, Hj by lia. eauto.
  - rewrite lookup_app_r in Hj by lia.
    destruct (j - length l) as [|k] eqn:Hk; simpl in Hj; [|by rewrite lookup_nil in Hj].
    injection Hj as <-.
    destruct (decide (i < length l)) as [Hil|Hil].
    + rewrite lookup_app_l in Hi by lia. apply Hd. eapply list_elem_of_lookup_2, Hi.
    + rewrite lookup_app_r in Hi by lia.
      destruct (i - length l) as [|k'] eqn:Hk'; simpl in Hi;
        [|by rewrite lookup_nil in Hi].
      by injection Hi as <-.
Qed.

Lemma history_bound doc l o : history doc l -> o ∈ l -> settled o <= settled doc.
Proof.
  intros [HF _] Ho. rewrite Forall_forall in HF. by apply HF.
Qed.

Lemma history_in_progress doc l : history doc l -> Forall in_progress l.
Proof. intros [HF _]. eapply Forall_impl; [exact HF|]. by intros o [? _]. Qed.

Lemma history_raise doc doc' l :
  history doc l -> settled doc <= settled doc' -> history doc' l.
Proof.
  intros [HF Hm] Hle. split; [|done].
  eapply Forall_impl; [exact HF|]. intros o [? ?]. split; [done|lia].
Qed.

Lemma history_snoc T doc l :
  live T doc -> history doc l -> history doc (l ++ [doc]).
Proof.
  intros (HT & Hc & Hs & Hcompl) [HF Hm]. split.
  - apply Forall_app. split; [done|]. constructor; [|done].
    split; [|done]. split; [done|]. split; [|done].
    unfold terminal. by rewrite Hs.
  - apply nondecreasing_snoc; [done|].
    intros o Ho. rewrite Forall_forall in HF. by apply HF.
Qed.

Lemma live_set_counts T doc p s f :
  live T doc -> p = s + f -> p <= T ->
  live T (BulkOperation.set_counts p s f doc).
Proof.
  intros (HT & Hc & Hs & Hcompl) Hp HpT. repeat split; simpl; auto.
  by rewrite HT.
Qed.

Lemma assign_run f w :
  assign f w = (Ret tt, set_bulkOperation (f <$> bulkOperation w) w).
Proof. reflexivity. Qed.

Lemma save_run env w :
  save env w =
    match store_fault env (storeCalls w) CallSave with
    | Some e =>
        (Throw e,
         {| messageLogs := messageLogs w; operationSaves := operationSaves w;
            bulkOperation := bulkOperation w;
            trace := trace w ++ [EvStoreFault CallSave e];
            now := now w; requests := requests w;
            storeCalls := S (storeCalls w) |})
    | None =>
        (Ret tt,
         {| messageLogs := messageLogs w;
            operationSaves :=
              match bulkOperation w with
              | Some doc => operationSaves w ++ [doc]
              | None => operationSaves w
              end;
            bulkOperation := bulkOperation w; trace := trace w;
            now := now w; requests := requests w;
            storeCalls := S (storeCalls w) |})
    end.
Proof.
  unfold save, bind. rewrite store_call_run.
  destruct (store_fault env (storeCalls w) CallSave); [done|].
  simpl. by destruct (bulkOperation w).
Qed.

Lemma faulted_snoc tr c e :
  Exists (fun ev => is_store_fault ev = true) (tr ++ [EvStoreFault c e]).
Proof. apply Exists_app. right. by constructor. Qed.

(** A checkpoint: the save, when it is due, appends the document. *)
Lemma checkpoint_spec env T (due : bool) w doc :
  bulkOperation w = Some doc -> live T doc -> history doc (operationSaves w) ->
  exists o w',
    (if due then save env else ret tt) w = (o, w') /\
    bulkOperation w' = Some doc /\
    history doc (operationSaves w') /\
    match o with
    | Ret _ => True
    | Throw _ => faulted w'
    | Diverge => False
    end /\
    (no_store_fault env -> o = Ret tt).
Proof.
  intros Hdoc Hlive Hhist. destruct due.
  - rewrite save_run. destruct (store_fault env (storeCalls w) CallSave) as [e|] eqn:Hf.
    + do 2 eexists. split; [reflexivity|]. simpl. split; [done|]. split; [done|].
      split; [apply faulted_snoc|]. intros Hnf. by rewrite Hnf in Hf.
    + do 2 eexists. split; [reflexivity|]. simpl. rewrite Hdoc.
      split; [done|]. split; [by apply (history_snoc T)|]. done.
  - exists (Ret tt), w. split; [done|]. split; [done|]. split; [done|]. done.
Qed.

Lemma pause_run (b : bool) ms w :
  exists w',
    (if b then sleep ms else ret tt) w = (Ret tt, w') /\
    operationSaves w' = operationSaves w /\
    bulkOperation w' = bulkOperation w.
Proof. destruct b; eexists; (split; [reflexivity|]); by simpl. Qed.

(** The batch loop of the background path keeps the document live and the
    saved states in order; it throws only after a storage fault. *)
Lemma batchLoop_spec env md config T :
  0 < CONCURRENCY_LIMIT config ->
  forall bs nbatches batchIndex p s f w doc,
    bulkOperation w = Some doc -> live T doc -> history doc (operationSaves w) ->
    p = s + f -> settled doc <= p -> p + length (concat bs) <= T ->
    exists o w' doc',
      batchLoop env md config bs nbatches batchIndex p s f w = (o, w') /\
      bulkOperation w' = Some doc' /\ live T doc' /\
      history doc' (operationSaves w') /\
      match o with
      | Ret _ => True
      | Throw _ => faulted w'
      | Diverge => False
      end /\
      (no_store_fault env -> o = Ret tt).
Proof.
  intros Hc. induction bs as [|batch bs IH];
    intros nbatches batchIndex p s f w doc Hdoc Hlive Hhist Hp Hle HT.
  - exists (Ret tt), w, doc. split; [done|]. split; [done|]. split; [done|]. split; [done|]. done.
  - simpl batchLoop. simpl in HT. rewrite length_app in HT.
    pose proof (processBatch_spec env batch md (batchIndex * BATCH_SIZE config)
                  config w Hc) as Hb.
    destruct (store_fault env (storeCalls w) CallInsertMany) as [e|] eqn:Hf.
    + destruct Hb as (w' & E & (S1 & B1 & _) & Hfault).
      rewrite (bind_Throw _ _ _ _ _ E).
      exists (Throw e), w', doc. split; [done|]. split; [congruence|].
      split; [done|]. split; [by rewrite S1|]. split; [done|].
      intros Hnf. by rewrite Hnf in Hf.
    + destruct Hb as (r & w1 & ns & new & E & Hproc & Hsum & S1 & B1 & _).
      rewrite (bind_Ret _ _ _ _ _ E). cbv zeta.
      set (p' := p + processed r). set (s' := s + success r).
      set (f' := f + failed r).
      rewrite (bind_Ret _ _ _ _ _ (assign_run _ w1)).
      set (doc2 := BulkOperation.set_counts p' s' f' doc).
      set (w2 := set_bulkOperation _ w1).
      assert (bulkOperation w2 = Some doc2) as Hdoc2.
      { unfold w2. simpl. by rewrite B1, Hdoc. }
      assert (live T doc2) as Hlive2.
      { apply live_set_counts; [done|unfold p', s', f'; lia|unfold p'; lia]. }
      assert (history doc2 (operationSaves w2)) as Hhist2.
      { unfold w2. simpl. rewrite S1. eapply history_raise; [exact Hhist|].
        unfold doc2, settled in *. simpl. unfold s', f'. lia. }
      destruct (checkpoint_spec env T
                  ((batchIndex mod 3 =? 0)%nat || (batchIndex =? nbatches - 1)%nat)
                  w2 doc2 Hdoc2 Hlive2 Hhist2)
        as (o3 & w3 & E3 & Hdoc3 & Hhist3 & Ho3 & Hnf3).
      destruct o3 as [[]|e3|]; [| |done].
      * rewrite (bind_Ret _ _ _ _ _ E3).
        destruct (pause_run (batchIndex <? nbatches - 1)%nat
                    (N.of_nat (RATE_LIMIT_DELAY config)) w3) as (w4 & E4 & S4 & B4).
        rewrite (bind_Ret _ _ _ _ _ E4).
        apply (IH nbatches (S batchIndex) p' s' f' w4 doc2).
        -- congruence.
        -- done.
        -- by rewrite S4.
        -- unfold p', s', f'. lia.
        -- unfold doc2, settled in *. simpl. unfold p', s', f'. lia.
        -- unfold p'. lia.
      * rewrite (bind_Throw _ _ _ _ _ E3).
        exists (Throw e3), w3, doc2. split; [done|]. split; [done|].
        split; [done|]. split; [done|]. split; [done|].
        intros Hnf. by specialize (Hnf3 Hnf).
Qed.

Lemma String_of_error_nonempty e : String_of_error e <> EmptyString.
Proof.
  unfold String_of_error. destruct (String.eqb (message e) EmptyString).
  - apply class_name_nonempty.
  - destruct (name e); discriminate.
Qed.

Lemma no_store_fault_contra env n c e :
  store_fault env n c = Some e -> ~ no_store_fault env.
Proof. intros Hf Hnf. by rewrite Hnf in Hf. Qed.

(** The [catch] block of the background path: it closes the Operation as
    FAILED with the text of the error, unless its own save fails too. *)
Lemma failure_handler_spec env error w doc mid :
  bulkOperation w = Some doc ->
  counts_ok doc ->
  operationSaves w = mid ->
  (forall o, o ∈ mid -> settled o <= settled doc) ->
  faulted w ->
  let w' :=
    snd ((assign (BulkOperation.set_status BulkOperation.FAILED) ;;;
          assign (BulkOperation.set_error (String_of_error error)) ;;;
          d <- new_Date ;;
          assign (BulkOperation.set_completedAt d) ;;;
          save env ;;;
          console_error "Bulk operation failed") w) in
  (operationSaves w' = mid /\
   exists n e, store_fault env n CallSave = Some e) \/
  (exists d, closed_by w' mid d /\
             BulkOperation.status d = BulkOperation.FAILED).
Proof.
  intros Hdoc Hc Hmid Hbound Hfault.
  rewrite (bind_Ret _ _ _ _ _ (assign_run _ w)).
  erewrite bind_Ret by apply assign_run.
  erewrite bind_Ret by reflexivity.
  erewrite bind_Ret by apply assign_run.
  unfold bind at 1. rewrite save_run. simpl storeCalls.
  destruct (store_fault env (storeCalls w) CallSave) as [e|] eqn:Hf; simpl.
  - left. split; [done|]. eauto.
  - right. rewrite Hdoc. simpl. eexists. split.
    { split; [by rewrite Hmid|]. split; [exact Hc|]. split; [exact Hbound|].
      split; [by eexists|]. right. split; [done|]. split.
      + unfold faulted in *. simpl. apply Exists_app. by left.
      + eexists. split; [reflexivity|]. apply String_of_error_nonempty. }
    reflexivity.
Qed.

Lemma snd_detached (m : M unit) w : snd (detached m w) = snd (m w).
Proof. unfold detached. by destruct (m w) as [[a|e|] w']. Qed.

Lemma create_run env doc w :
  create env doc w =
    match store_fault env (storeCalls w) CallCreate with
    | Some e =>
        (Throw e,
         {| messageLogs := messageLogs w; operationSaves := operationSaves w;
            bulkOperation := bulkOperation w;
            trace := trace w ++ [EvStoreFault CallCreate e];
            now := now w; requests := requests w;
            storeCalls := S (storeCalls w) |})
    | None =>
        (Ret tt,
         {| messageLogs := messageLogs w;
            operationSaves := operationSaves w ++ [doc];
            bulkOperation := Some doc; trace := trace w;
            now := now w; requests := requests w;
            storeCalls := S (storeCalls w) |})
    end.
Proof.
  unfold create, bind. rewrite store_call_run.
  by destruct (store_fault env (storeCalls w) CallCreate).
Qed.

Lemma findById_run env w :
  findById env w =
    match store_fault env (storeCalls w) CallFindById with
    | Some e =>
        (Throw e,
         {| messageLogs := messageLogs w; operationSaves := operationSaves w;
            bulkOperation := bulkOperation w;
            trace := trace w ++ [EvStoreFault CallFindById e];
            now := now w; requests := requests w;
            storeCalls := S (storeCalls w) |})
    | None =>
        (Ret (last (operationSaves w)),
         {| messageLogs := messageLogs w; operationSaves := operationSaves w;
            bulkOperation := last (operationSaves w); trace := trace w;
            now := now w; requests := requests w;
            storeCalls := S (storeCalls w) |})
    end.
Proof.
  unfold findById, bind. rewrite store_call_run.
  by destruct (store_fault env (storeCalls w) CallFindById).
Qed.

(** The [try] block and the [catch] block of the background path, from a
    live document. *)
Lemma background_try_spec env md ms w doc :
  bulkOperation w = Some doc ->
  live (length ms) doc ->
  settled doc = 0 ->
  history doc (operationSaves w) ->
  run_shape env
    (snd (try_catch
        (let config := getOptimalConfig (Z.of_nat (length ms)) in
         match batches ms (BATCH_SIZE config) with
         | None => diverge
         | Some bs =>
             batchLoop env md config bs (length bs) 0 0 0 0 ;;;
             assign (BulkOperation.set_status BulkOperation.COMPLETED) ;;;
             d <- new_Date ;;
             assign (BulkOperation.set_completedAt d) ;;;
             save env
         end)
        (fun error =>
           assign (BulkOperation.set_status BulkOperation.FAILED) ;;;
           assign (BulkOperation.set_error (String_of_error error)) ;;;
           d <- new_Date ;;
           assign (BulkOperation.set_completedAt d) ;;;
           save env ;;;
           console_error "Bulk operation failed") w)).
Proof.
  intros Hdoc Hlive Hzero Hhist. cbv zeta.
  destruct (getOptimalConfig_positive (Z.of_nat (length ms))) as [HB HC].
  set (config := getOptimalConfig (Z.of_nat (length ms))) in *.
  destruct (batches_spec ms (BATCH_SIZE config) HB) as (bs & Hbs & Hcat & _ & _).
  rewrite Hbs.
  destruct (batchLoop_spec env md config (length ms) HC bs (length bs) 0 0 0 0 w doc
              Hdoc Hlive Hhist eq_refl ltac:(lia) ltac:(rewrite Hcat; lia))
    as (o & w1 & doc1 & E1 & Hdoc1 & Hlive1 & Hhist1 & Ho & Hnf1).
  destruct o as [[]|e|]; [| |done].
  - (* the loop is over: the Operation is completed *)
    unfold try_catch.
    rewrite (bind_Ret _ _ _ _ _ E1).
    rewrite (bind_Ret _ _ _ _ _ (assign_run _ w1)).
    erewrite bind_Ret by reflexivity.
    erewrite bind_Ret by apply assign_run.
    rewrite save_run. simpl storeCalls. simpl bulkOperation. rewrite Hdoc1.
    simpl fmap.
    destruct Hlive1 as (HT1 & Hc1 & Hs1 & Hcompl1).
    destruct (store_fault env (storeCalls w1) CallSave) as [e|] eqn:Hf.
    + (* the last save fails: the [catch] block runs *)
      match goal with |- run_shape env (snd (?h ?wX)) =>
        edestruct (failure_handler_spec env e wX) as [[Hs He]|(d & Hd & Hst)]
      end.
      { reflexivity. }
      { exact Hc1. }
      { reflexivity. }
      { intros o Ho'. simpl in Ho'. apply (history_bound _ _ _ Hhist1 Ho'). }
      { apply faulted_snoc. }
      * exists (operationSaves w1). split; [by eapply history_in_progress|].
        split; [apply Hhist1|]. left. split; [exact Hs|].
        by eapply no_store_fault_contra.
      * exists (operationSaves w1). split; [by eapply history_in_progress|].
        split; [apply Hhist1|]. right. exists d. split; [exact Hd|].
        intros Hnf. by rewrite Hnf in Hf.
    + exists (operationSaves w1). split; [by eapply history_in_progress|].
      split; [apply Hhist1|]. right. eexists. split.
      { split; [reflexivity|]. split; [exact Hc1|].
        split; [intros o Ho'; apply (history_bound _ _ _ Hhist1 Ho')|].
        split; [by eexists|]. by left. }
      done.
  - (* a batch or a checkpoint has thrown *)
    unfold try_catch. rewrite (bind_Throw _ _ _ _ _ E1).
    destruct Hlive1 as (HT1 & Hc1 & Hs1 & Hcompl1).
    edestruct (failure_handler_spec env e w1) as [[Hs He]|(d & Hd & Hst)].
    { exact Hdoc1. }
    { exact Hc1. }
    { reflexivity. }
    { intros o Ho'. apply (history_bound _ _ _ Hhist1 Ho'). }
    { exact Ho. }
    + exists (operationSaves w1). split; [by eapply history_in_progress|].
      split; [apply Hhist1|]. left. split; [exact Hs|].
      intros Hnf. by specialize (Hnf1 Hnf).
    + exists (operationSaves w1). split; [by eapply history_in_progress|].
      split; [apply Hhist1|]. right. exists d. split; [exact Hd|].
      intros Hnf. by specialize (Hnf1 Hnf).
Qed.

Lemma in_progress_created (doc : BulkOperation.t) :
  BulkOperation.processedCount doc = 0 ->
  BulkOperation.successCount doc = 0 ->
  BulkOperation.failedCount doc = 0 ->
  BulkOperation.status doc = BulkOperation.PENDING ->
  BulkOperation.completedAt doc = None ->
  in_progress doc /\
  live (BulkOperation.totalRecipients doc)
    (BulkOperation.set_status BulkOperation.PROCESSING doc) /\
  settled (BulkOperation.set_status BulkOperation.PROCESSING doc) = 0 /\
  history (BulkOperation.set_status BulkOperation.PROCESSING doc) [doc].
Proof.
  intros Hp Hs Hf Hst Hc.
  assert (counts_ok doc) as Hok by (unfold counts_ok; lia).
  assert (in_progress doc) as Hin.
  { split; [done|]. split; [|done]. unfold terminal. by rewrite Hst. }
  split; [done|]. split.
  { split; [done|]. split; [done|]. split; [done|]. done. }
  split; [unfold settled; simpl; lia|].
  split.
  - constructor; [|done]. split; [done|]. unfold settled. simpl. lia.
  - intros i j oi oj Hij Hi Hj.
    destruct i as [|i], j as [|j]; simpl in Hi, Hj;
      try (by rewrite lookup_nil in Hi); try (by rewrite lookup_nil in Hj).
    injection Hi as <-. injection Hj as <-. lia.
Qed.

(** The saved states of a run of the background path. *)
Lemma processBulkMessage_shape env md w :
  run_shape env (snd (processBulkMessage env md (start w))).
Proof.
  unfold processBulkMessage.
  erewrite bind_Ret by reflexivity.
  match goal with |- context [create env ?d] => set (doc0 := d) end.
  unfold bind at 1. rewrite create_run. simpl storeCalls.
  destruct (store_fault env (storeCalls w) CallCreate) as [e|] eqn:Hcreate.
  { exists []. split; [done|]. split; [apply nondecreasing_nil|].
    left. split; [done|]. by eapply no_store_fault_contra. }
  rewrite snd_detached. unfold processBulkMessagesInBackground.
  unfold bind at 1. rewrite findById_run. simpl storeCalls.
  destruct (in_progress_created doc0 eq_refl eq_refl eq_refl eq_refl eq_refl)
    as (Hin0 & Hlive1 & Hzero1 & Hhist1).
  destruct (store_fault env (S (storeCalls w)) CallFindById) as [e|] eqn:Hfind.
  { exists [doc0]. split; [by constructor|]. split; [apply Hhist1|].
    left. split; [done|]. by eapply no_store_fault_contra. }
  change (operationSaves (start w)) with (@nil BulkOperation.t).
  change (last (operationSaves _)) with (Some doc0). cbv iota.
  rewrite (bind_Ret _ _ _ _ _ (assign_run _ _)).
  unfold bind at 1. rewrite save_run. simpl storeCalls. simpl bulkOperation.
  destruct (store_fault env (S (S (storeCalls w))) CallSave) as [e|] eqn:Hsave.
  { exists [doc0]. split; [by constructor|]. split; [apply Hhist1|].
    left. split; [done|]. by eapply no_store_fault_contra. }
  apply background_try_spec with
    (doc := BulkOperation.set_status BulkOperation.PROCESSING doc0).
  - reflexivity.
  - exact Hlive1.
  - exact Hzero1.
  - simpl. apply (history_snoc _ _ _ Hlive1 Hhist1).
Qed.

(** The batch loop of the route. *)
Lemma routeBatchLoop_spec env rq T :
  forall bs nbatches batchIndex p s f w doc,
    bulkOperation w = Some doc -> live T doc -> history doc (operationSaves w) ->
    p = s + f -> settled doc <= p -> p + length (concat bs) <= T ->
    exists o w' doc',
      routeBatchLoop env rq bs nbatches batchIndex p s f w = (o, w') /\
      bulkOperation w' = Some doc' /\ live T doc' /\
      history doc' (operationSaves w') /\
      o <> Diverge.
Proof.
  induction bs as [|batch bs IH];
    intros nbatches batchIndex p s f w doc Hdoc Hlive Hhist Hp Hle HT.
  - exists (Ret tt), w, doc. split; [done|]. split; [done|]. split; [done|].
    split; [done|]. done.
  - simpl routeBatchLoop. simpl in HT. rewrite length_app in HT.
    erewrite bind_Ret by reflexivity.
    destruct (store_fault env (storeCalls w) CallInsertMany) as [e|] eqn:Hf.
    { erewrite bind_Throw by (apply insertMany_fault, Hf).
      eexists _, _, doc. split; [reflexivity|]. simpl.
      split; [done|]. split; [done|]. split; [done|]. done. }
    erewrite bind_Ret by (apply insertMany_run, Hf).
    destruct (batches_spec batch (CONCURRENCY_LIMIT routeConfig) ltac:(simpl; lia))
      as (chunks & Hb & Hcat & _ & _).
    simpl in Hb. rewrite Hb.
    match goal with |- context [bind (chunkLoop env ?wk chunks ?n ?k ?c ?bu) _ ?w1] =>
      destruct (chunkLoop_spec env wk _ _ _ _ _ (routeWorkerSteps_spec env rq _ _)
                  chunks n k c bu w1)
        as (c' & bu' & w2 & ns & adds & new & E2 & (Q2 & _) & L2 & _)
    end.
    rewrite (bind_Ret _ _ _ _ _ E2). simpl snd. simpl fst. cbv zeta.
    rewrite Hcat in L2. simpl in L2.
    destruct Q2 as (S2 & B2 & _). simpl in S2, B2.
    set (update_records :=
           if (0 <? length bu')%nat
           then try_catch (bulkWrite env bu')
                  (fun error => console_error "Error in batch update")
           else ret tt).
    assert (exists w3, update_records w2 = (Ret tt, w3) /\
                       quiet_step not_request w2 w3) as (w3 & E3 & Q3).
    { assert (returns update_records) as Hr.
      { unfold update_records. destruct (0 <? length bu')%nat; [|apply returns_ret].
        apply returns_try_catch; [apply halts_bulkWrite|].
        intros. apply returns_console_error. }
      assert (steps not_request update_records) as Hs.
      { unfold update_records. destruct (0 <? length bu')%nat; [|apply steps_ret].
        apply steps_try_catch; [apply steps_bulkWrite|].
        intros. apply steps_console_error. }
      destruct (returns_run _ w2 Hr) as ([] & w3 & E3).
      exists w3. split; [done|]. specialize (Hs w2). by rewrite E3 in Hs. }
    rewrite (bind_Ret _ _ _ _ _ E3).
    destruct Q3 as (S3 & B3 & _).
    set (p' := p + length batch).
    rewrite (bind_Ret _ _ _ _ _ (assign_run _ w3)).
    set (doc2 := BulkOperation.set_counts p' c'.1 c'.2 doc).
    set (w4 := set_bulkOperation _ w3).
    assert (bulkOperation w4 = Some doc2) as Hdoc2.
    { unfold w4. simpl. by rewrite B3, B2, Hdoc. }
    assert (live T doc2) as Hlive2.
    { apply live_set_counts; [done|unfold p'; lia|unfold p'; lia]. }
    assert (history doc2 (operationSaves w4)) as Hhist2.
    { unfold w4. simpl. rewrite S3, S2. eapply history_raise; [exact Hhist|].
      unfold doc2, settled in *. simpl. lia. }
    destruct (checkpoint_spec env T
                ((batchIndex mod 3 =? 0)%nat || (batchIndex =? nbatches - 1)%nat)
                w4 doc2 Hdoc2 Hlive2 Hhist2)
      as (o5 & w5 & E5 & Hdoc5 & Hhist5 & Ho5 & _).
    destruct o5 as [[]|e5|]; [| |done].
    + rewrite (bind_Ret _ _ _ _ _ E5).
      destruct (pause_run (batchIndex <? nbatches - 1)%nat
                  (N.of_nat (RATE_LIMIT_DELAY routeConfig)) w5) as (w6 & E6 & S6 & B6).
      rewrite (bind_Ret _ _ _ _ _ E6).
      apply (IH nbatches (S batchIndex) p' c'.1 c'.2 w6 doc2).
      * congruence.
      * done.
      * by rewrite S6.
      * unfold p'. lia.
      * unfold doc2, settled in *. simpl. unfold p'. lia.
      * unfold p'. lia.
    + rewrite (bind_Throw _ _ _ _ _ E5).
      exists (Throw e5), w5, doc2. split; [done|]. split; [done|].
      split; [done|]. split; [done|]. done.
Qed.

(** The saved states of a run of the route: states in progress, closed by
    the COMPLETED state when no storage call fails on the way. *)
Lemma csvBulkDocument_shape env rq w :
  route_shape (snd (csvBulkDocument env rq (start w))).
Proof.
  unfold csvBulkDocument.
  destruct (length (rq_mobileNumbers rq) =? 0)%nat.
  { exists []. split; [done|]. split; [apply nondecreasing_nil|]. by left. }
  erewrite bind_Ret by reflexivity.
  match goal with |- context [create env ?d] => set (doc0 := d) end.
  unfold bind at 1. unfold try_catch at 1. rewrite create_run. simpl storeCalls.
  destruct (store_fault env (storeCalls w) CallCreate) as [e|] eqn:Hcreate.
  { exists []. split; [done|]. split; [apply nondecreasing_nil|]. by left. }
  destruct (in_progress_created doc0 eq_refl eq_refl eq_refl eq_refl eq_refl)
    as (Hin0 & Hlive1 & Hzero1 & Hhist1).
  rewrite (bind_Ret _ _ _ _ _ (assign_run _ _)).
  unfold bind at 1. rewrite save_run. simpl storeCalls. simpl bulkOperation.
  destruct (store_fault env (S (storeCalls w)) CallSave) as [e|] eqn:Hsave.
  { exists [doc0]. split; [by constructor|]. split; [apply Hhist1|]. by left. }
  simpl fmap.
  destruct (batches_spec (rq_mobileNumbers rq) (BATCH_SIZE routeConfig)
              ltac:(simpl; lia)) as (bs & Hbs & Hcat & _ & _).
  rewrite Hbs.
  set (doc1 := BulkOperation.set_status BulkOperation.PROCESSING doc0) in *.
  match goal with |- context [bind (routeBatchLoop env rq bs ?n 0 0 0 0) _ ?w1] =>
    destruct (routeBatchLoop_spec env rq (length (rq_mobileNumbers rq))
                bs n 0 0 0 0 w1 doc1 eq_refl Hlive1
                (history_snoc _ _ _ Hlive1 Hhist1) eq_refl
                ltac:(rewrite Hzero1; lia) ltac:(rewrite Hcat; lia))
      as (o & w2 & doc2 & E2 & Hdoc2 & Hlive2 & Hhist2 & Ho)
  end.
  destruct Hlive2 as (HT2 & Hc2 & Hs2 & Hcompl2).
  destruct o as [[]|e|]; [| |done].
  - rewrite (bind_Ret _ _ _ _ _ E2).
    rewrite (bind_Ret _ _ _ _ _ (assign_run _ w2)).
    erewrite bind_Ret by reflexivity.
    erewrite bind_Ret by apply assign_run.
    rewrite save_run. simpl storeCalls. simpl bulkOperation. rewrite Hdoc2.
    simpl fmap.
    exists (operationSaves w2). split; [by eapply history_in_progress|].
    split; [apply Hhist2|].
    destruct (store_fault env (storeCalls w2) CallSave) as [e|] eqn:Hf; simpl.
    + by left.
    + right. eexists. split.
      { split; [reflexivity|]. split; [exact Hc2|].
        split; [intros o Ho'; apply (history_bound _ _ _ Hhist2 Ho')|].
        split; [by eexists|]. by left. }
      done.
  - rewrite (bind_Throw _ _ _ _ _ E2). simpl.
    exists (operationSaves w2). split; [by eapply history_in_progress|].
    split; [apply Hhist2|]. by left.
Qed.

(** ** C3: the Operation record *)

Lemma in_progress_open o :
  in_progress o ->
  counts_ok o /\
  (is_Some (BulkOperation.completedAt o) <-> terminal o = true) /\
  BulkOperation.status o <> BulkOperation.FAILED.
Proof.
  intros (Hc & Ht & Hcompl). split; [done|]. split.
  - rewrite Hcompl, Ht. split; [by intros [? ?]|done].
  - intros Hs. unfold terminal in Ht. by rewrite Hs in Ht.
Qed.

Lemma closed_by_terminal w' mid d :
  closed_by w' mid d -> terminal d = true.
Proof.
  intros (_ & _ & _ & _ & [Hs|(Hs & _)]); unfold terminal; by rewrite Hs.
Qed.

(** The counters of every saved state are consistent and the settled count
    does not decrease, whether the history is closed or not. *)
Lemma shape_counters w' mid :
  Forall in_progress mid -> nondecreasing mid ->
  (operationSaves w' = mid \/ exists d, closed_by w' mid d) ->
  Forall counts_ok (operationSaves w') /\ nondecreasing (operationSaves w').
Proof.
  intros Hmid Hmono [->|(d & Hd)].
  - split; [|done]. eapply Forall_impl; [exact Hmid|].
    intros o Ho. by apply in_progress_open.
  - destruct Hd as (-> & Hc & Hbound & _). split.
    + apply Forall_app. split; [|by constructor].
      eapply Forall_impl; [exact Hmid|]. intros o Ho. by apply in_progress_open.
    + by apply nondecreasing_snoc.
Qed.

(** [completedAt] is set in the closing state and in no other, and the
    closing state is the last one. *)
Lemma shape_completedAt w' mid :
  Forall in_progress mid ->
  (operationSaves w' = mid \/ exists d, closed_by w' mid d) ->
  forall i o,
    operationSaves w' !! i = Some o ->
    (is_Some (BulkOperation.completedAt o) <-> terminal o = true) /\
    (terminal o = true -> S i = length (operationSaves w')).
Proof.
  intros Hmid Hshape i o Hi.
  assert (forall o', o' ∈ mid ->
            (is_Some (BulkOperation.completedAt o') <-> terminal o' = true) /\
            terminal o' = false) as Hopen.
  { intros o' Ho'. rewrite Forall_forall in Hmid.
    destruct (in_progress_open o' (Hmid o' Ho')) as (_ & Hiff & _).
    split; [done|]. by destruct (Hmid o' Ho') as (_ & ? & _). }
  destruct Hshape as [Hs|(d & Hd)].
  - rewrite Hs in Hi. destruct (Hopen o (list_elem_of_lookup_2 _ _ _ Hi)) as [Hiff Hf].
    split; [done|]. intros Ht. congruence.
  - pose proof (closed_by_terminal _ _ _ Hd) as Hterm.
    destruct Hd as (Hs & _ & _ & Hcompl & _). rewrite Hs in *.
    destruct (decide (i < length mid)) as [Hlt|Hge].
    + rewrite lookup_app_l in Hi by lia.
      destruct (Hopen o (list_elem_of_lookup_2 _ _ _ Hi)) as [Hiff Hf].
      split; [done|]. intros Ht. congruence.
    + rewrite lookup_app_r in Hi by lia.
      destruct (i - length mid) as [|k] eqn:Hk; simpl in Hi;
        [|by rewrite lookup_nil in Hi].
      injection Hi as <-. split; [by split|].
      intros _. rewrite length_app. simpl. lia.
Qed.

(** C3. In a run of the background path and in a run of the route, every
    state of the Operation record that is saved, the closing one included,
    has [processedCount = successCount + failedCount] and
    [processedCount <= totalRecipients], and from one saved state to the
    next [successCount + failedCount] does not decrease. *)
Theorem counters_invariant env md rq w :
  (Forall counts_ok (operationSaves (snd (processBulkMessage env md (start w)))) /\
   nondecreasing (operationSaves (snd (processBulkMessage env md (start w))))) /\
  (Forall counts_ok (operationSaves (snd (csvBulkDocument env rq (start w)))) /\
   nondecreasing (operationSaves (snd (csvBulkDocument env rq (start w))))).
Proof.
  split.
  - destruct (processBulkMessage_shape env md w) as (mid & Hmid & Hmono & Hshape).
    apply (shape_counters _ mid Hmid Hmono).
    destruct Hshape as [[Hs _]|(d & Hd & _)]; [by left | right; by exists d].
  - destruct (csvBulkDocument_shape env rq w) as (mid & Hmid & Hmono & Hshape).
    apply (shape_counters _ mid Hmid Hmono).
    destruct Hshape as [Hs|(d & Hd & _)]; [by left | right; by exists d].
Qed.

(** Of the states of the Operation that are saved in a run of the
    background path: when no storage call fails the last one is COMPLETED
    whatever the gateway answers, also when every recipient fails; a saved
    state in status FAILED comes after a failed storage call, with a
    non-empty error and with [completedAt]; and a saved state has
    [completedAt] exactly when it is COMPLETED or FAILED, and is then the
    last state saved. A run of the route saves no FAILED state at all, and
    its saved states have [completedAt] in the same way. *)
Theorem operation_fails_only_on_storage_fault env md rq w :
  (no_store_fault env ->
   exists d,
     last (operationSaves (snd (processBulkMessage env md (start w)))) = Some d /\
     BulkOperation.status d = BulkOperation.COMPLETED) /\
  (forall d,
     d ∈ operationSaves (snd (processBulkMessage env md (start w))) ->
     BulkOperation.status d = BulkOperation.FAILED ->
     faulted (snd (processBulkMessage env md (start w))) /\
     (exists e, BulkOperation.error d = Some e /\ e <> EmptyString) /\
     is_Some (BulkOperation.completedAt d)) /\
  (forall i d,
     operationSaves (snd (processBulkMessage env md (start w))) !! i = Some d ->
     (is_Some (BulkOperation.completedAt d) <-> terminal d = true) /\
     (terminal d = true ->
      S i = length (operationSaves (snd (processBulkMessage env md (start w)))))) /\
  (forall i d,
     operationSaves (snd (csvBulkDocument env rq (start w))) !! i = Some d ->
     BulkOperation.status d <> BulkOperation.FAILED /\
     (is_Some (BulkOperation.completedAt d) <-> terminal d = true) /\
     (terminal d = true ->
      S i = length (operationSaves (snd (csvBulkDocument env rq (start w)))))).
Proof.
  destruct (processBulkMessage_shape env md w) as (mid & Hmid & Hmono & Hshape).
  set (w' := snd (processBulkMessage env md (start w))) in *.
  split; [|split; [|split]]; cycle 3.
  { destruct (csvBulkDocument_shape env rq w) as (mid' & Hmid' & _ & Hshape').
    set (w'' := snd (csvBulkDocument env rq (start w))) in *.
    intros i d Hi. split.
    - assert (forall o, o ∈ mid' -> BulkOperation.status o <> BulkOperation.FAILED)
        as Hopen.
      { intros o Ho. rewrite Forall_forall in Hmid'.
        by apply in_progress_open, Hmid'. }
      destruct Hshape' as [Hs|(d' & (Hs & _) & Hcompleted)].
      + rewrite Hs in Hi. apply Hopen. eapply list_elem_of_lookup_2, Hi.
      + rewrite Hs in Hi. apply list_elem_of_lookup_2 in Hi.
        apply elem_of_app in Hi as [Hi|Hi]; [by apply Hopen|].
        apply list_elem_of_singleton in Hi as ->. congruence.
    - apply (shape_completedAt w'' mid' Hmid'); [|done].
      destruct Hshape' as [Hs|(d' & Hd' & _)]; [by left | right; by exists d']. }
  - intros Hnf. destruct Hshape as [[_ Hfault]|(d & Hd & Hcompleted)]; [done|].
    exists d. split; [|by apply Hcompleted].
    destruct Hd as (-> & _). apply last_snoc.
  - intros d Hd Hfailed.
    assert (forall o, o ∈ mid -> BulkOperation.status o <> BulkOperation.FAILED)
      as Hopen.
    { intros o Ho. rewrite Forall_forall in Hmid.
      by apply in_progress_open, Hmid. }
    destruct Hshape as [[Hs _]|(d' & Hd' & _)].
    + rewrite Hs in Hd. by destruct (Hopen d Hd).
    + destruct Hd' as (Hs & _ & _ & Hcompl & Hstatus). rewrite Hs in Hd.
      apply elem_of_app in Hd as [Hd|Hd]; [by destruct (Hopen d Hd)|].
      apply list_elem_of_singleton in Hd as ->.
      destruct Hstatus as [Hc|(_ & Hf & He)]; [congruence|]. done.
  - apply (shape_completedAt w' mid Hmid).
    destruct Hshape as [[Hs _]|(d & Hd & _)]; [by left | right; by exists d].
Qed.

Lemma operation_fails_only_on_storage_fault_witness :
  exists d,
    last (operationSaves
            (snd (processBulkMessage env_timeout (text_to ["919876543210"])
                    (start emptyWorld)))) = Some d /\
    BulkOperation.status d = BulkOperation.COMPLETED.
Proof.
  apply (proj1 (operation_fails_only_on_storage_fault env_timeout
                  (text_to ["919876543210"]) (document_to ["919876543210"])
                  emptyWorld)).
  intros n c. reflexivity.
Defined.

(** The run of Scenario E: [insertMany] fails in the first batch. The
    Operation is saved as PENDING, PROCESSING and FAILED. *)
Example storage_fault_fails_operation :
  (fun o => (BulkOperation.status o, BulkOperation.error o,
             BulkOperation.processedCount o)) <$>
    operationSaves (snd (processBulkMessage env_insert_down
                           (text_to ["919876543210"; "919876543211"])
                           (start emptyWorld))) =
    [(BulkOperation.PENDING, None, 0);
     (BulkOperation.PROCESSING, None, 0);
     (BulkOperation.FAILED, Some "MongoNetworkError: connection closed", 0)].
Proof. by vm_compute. Qed.

(** Seven recipients of whom none can be reached: two batches, two
    checkpoints, and the Operation is completed with seven failures. *)
Example all_recipients_fail :
  (fun o => (BulkOperation.status o, BulkOperation.processedCount o,
             BulkOperation.successCount o, BulkOperation.failedCount o)) <$>
    operationSaves (snd (processBulkMessage env_unregistered
                           (text_to ["911"; "912"; "913"; "914"; "915"; "916"; "917"])
                           (start emptyWorld))) =
    [(BulkOperation.PENDING, 0, 0, 0);
     (BulkOperation.PROCESSING, 0, 0, 0);
     (BulkOperation.PROCESSING, 5, 0, 5);
     (BulkOperation.PROCESSING, 7, 0, 7);
     (BulkOperation.COMPLETED, 7, 0, 7)].
Proof. by vm_compute. Qed.

(** ** Mobile numbers: normalisation and validation *)

Lemma strip_all_digits s : all_digits s = true -> strip_non_digits s = s.
Proof.
  induction s as [|c s IH]; simpl; [done|].
  destruct (is_digit c); simpl; [|discriminate].
  intros H. by rewrite IH.
Qed.

Lemma strip_idempotent s : strip_non_digits (strip_non_digits s) = strip_non_digits s.
Proof. apply strip_all_digits, all_digits_strip. Qed.

Lemma strip_format s :
  strip_non_digits (formatMobileNumber s) = formatMobileNumber s.
Proof. apply strip_all_digits, all_digits_format. Qed.

Lemma length_format s :
  String.length (formatMobileNumber s) =
    if (String.length (strip_non_digits s) =? 10)%nat then 11
    else String.length (strip_non_digits s).
Proof.
  unfold formatMobileNumber.
  destruct (Nat.eqb_spec (String.length (strip_non_digits s)) 10) as [E|E]; [|done].
  simpl. by rewrite E.
Qed.

(** Normalising a number twice is the same as normalising it once: the
    leading 1 is added to ten digits and never to the eleven that result. *)
Theorem formatMobileNumber_idempotent s :
  formatMobileNumber (formatMobileNumber s) = formatMobileNumber s.
Proof.
  unfold formatMobileNumber at 1. rewrite strip_format, length_format.
  destruct (Nat.eqb_spec (String.length (strip_non_digits s)) 10) as [E|E]; [done|].
  destruct (Nat.eqb_spec (String.length (strip_non_digits s)) 10); [contradiction|done].
Qed.

Lemma isValidMobileNumber_spec s :
  isValidMobileNumber s = true <->
  8 <= String.length (strip_non_digits s) <= 15.
Proof.
  unfold isValidMobileNumber. rewrite all_digits_strip.
  destruct (Nat.ltb_spec (String.length (strip_non_digits s)) 8);
    destruct (Nat.ltb_spec 15 (String.length (strip_non_digits s)));
    destruct (Nat.leb_spec 8 (String.length (strip_non_digits s)));
    destruct (Nat.leb_spec (String.length (strip_non_digits s)) 15);
    simpl; split; intros; try lia; try done.
Qed.

Lemma isValid_format s :
  isValidMobileNumber (formatMobileNumber s) = isValidMobileNumber s.
Proof.
  destruct (isValidMobileNumber s) eqn:Hs.
  - apply isValidMobileNumber_spec. rewrite strip_format, length_format.
    apply isValidMobileNumber_spec in Hs.
    destruct (String.length (strip_non_digits s) =? 10)%nat; lia.
  - destruct (isValidMobileNumber (formatMobileNumber s)) eqn:Hf; [|done].
    apply isValidMobileNumber_spec in Hf. rewrite strip_format, length_format in Hf.
    assert (isValidMobileNumber s = true) as Hs'; [|congruence].
    apply isValidMobileNumber_spec.
    destruct (Nat.eqb_spec (String.length (strip_non_digits s)) 10); lia.
Qed.

(** A number is valid exactly when it has 8 to 15 digits, whatever else it
    contains, and normalising it does not change whether it is valid. *)
Theorem validity_survives_format s :
  (isValidMobileNumber s = true <->
   8 <= String.length (strip_non_digits s) <= 15) /\
  isValidMobileNumber (formatMobileNumber s) = isValidMobileNumber s.
Proof. split; [apply isValidMobileNumber_spec | apply isValid_format]. Qed.

(** ** The plan and the batcher, further *)

(** A larger operation never gets a smaller batch, a smaller width or a
    longer pause, and a batch is always wider than one chunk. *)
Theorem getOptimalConfig_monotone (n m : Z) :
  (n <= m)%Z ->
  BATCH_SIZE (getOptimalConfig n) <= BATCH_SIZE (getOptimalConfig m) /\
  CONCURRENCY_LIMIT (getOptimalConfig n) <= CONCURRENCY_LIMIT (getOptimalConfig m) /\
  RATE_LIMIT_DELAY (getOptimalConfig m) <= RATE_LIMIT_DELAY (getOptimalConfig n) /\
  CONCURRENCY_LIMIT (getOptimalConfig n) < BATCH_SIZE (getOptimalConfig n).
Proof.
  intros Hnm. unfold getOptimalConfig.
  repeat match goal with
         | |- context [(?a <=? ?b)%Z] => destruct (Z.leb_spec a b)
         end; simpl; try lia.
Qed.

Lemma getOptimalConfig_monotone_witness :
  BATCH_SIZE (getOptimalConfig 20) <= BATCH_SIZE (getOptimalConfig 21) /\
  CONCURRENCY_LIMIT (getOptimalConfig 20) <= CONCURRENCY_LIMIT (getOptimalConfig 21) /\
  RATE_LIMIT_DELAY (getOptimalConfig 21) <= RATE_LIMIT_DELAY (getOptimalConfig 20) /\
  CONCURRENCY_LIMIT (getOptimalConfig 20) < BATCH_SIZE (getOptimalConfig 20).
Proof. apply (getOptimalConfig_monotone 20 21). lia. Defined.

Lemma ceil_step (r size : nat) :
  0 < size -> 0 < r ->
  S ((r - size + size - 1) / size) = (r + size - 1) / size.
Proof.
  intros Hs Hr. destruct (le_lt_dec size r) as [Hle|Hlt].
  - replace (r + size - 1) with ((r - size + size - 1) + 1 * size) by lia.
    rewrite Nat.div_add by lia. lia.
  - replace (r - size + size - 1) with (size - 1) by lia.
    rewrite (Nat.div_small (size - 1)) by lia.
    apply (Nat.div_unique _ _ 1 (r - 1)); lia.
Qed.

Lemma sliceLoop_length {A} size (Hsize : 0 < size) (xs : list A) :
  forall fuel i out,
    length xs - i <= fuel ->
    exists rest,
      sliceLoop fuel xs size i out = Some (out ++ rest)%list /\
      length rest = (length xs - i + size - 1) / size.
Proof.
  induction fuel as [|fuel IH]; intros i out Hfuel; simpl.
  - destruct (Nat.ltb_spec i (length xs)); [lia|].
    exists []. rewrite app_nil_r. split; [done|].
    replace (length xs - i + size - 1) with (size - 1) by lia.
    by rewrite Nat.div_small by lia.
  - destruct (Nat.ltb_spec i (length xs)) as [Hlt|Hge].
    + destruct (IH (i + size) (out ++ [slice xs i (i + size)])%list)
        as (rest & Heq & Hlen); [lia|].
      exists (slice xs i (i + size) :: rest). split.
      * rewrite Heq. by rewrite <- app_assoc.
      * simpl. rewrite Hlen.
        replace (length xs - (i + size)) with (length xs - i - size) by lia.
        apply ceil_step; lia.
    + exists []. rewrite app_nil_r. split; [done|].
      replace (length xs - i + size - 1) with (size - 1) by lia.
      by rewrite Nat.div_small by lia.
Qed.

(** For a batch size [b > 0] the slicing loop ends, and the number of
    batches it returns is the number of recipients divided by the batch
    size, rounded up. *)
Theorem batches_count (R : list string) (b : nat) :
  0 < b ->
  exists bs,
    batches R b = Some bs /\
    length bs = (length R + b - 1) / b.
Proof.
  intros Hb.
  destruct (sliceLoop_length b Hb R (length R) 0 []) as (rest & Heq & Hlen); [lia|].
  exists rest. unfold batches. rewrite Heq. split; [done|].
  rewrite Hlen. f_equal. lia.
Qed.

Lemma batches_count_witness :
  exists bs,
    batches ["a"; "b"; "c"; "d"; "e"; "f"; "g"] 3 = Some bs /\
    length bs = (length ["a"; "b"; "c"; "d"; "e"; "f"; "g"] + 3 - 1) / 3.
Proof.
  apply (batches_count ["a"; "b"; "c"; "d"; "e"; "f"; "g"] 3). lia.
Defined.

(** ** The wrappers, further *)

(** A wrapper succeeds exactly on a 2xx reply whose first message has an
    id, and then hands back the body of the reply as it came. *)
Theorem wrap_reply_success reply d :
  wrap_reply reply = inr d <->
  reply = Http2xx (Some d) /\ truthy (first_message_id (Some d)) = true.
Proof.
  unfold wrap_reply, check_success, first_message_id. split.
  - destruct reply as [[d'|]|e]; try discriminate.
    destruct (messages d') as [[|m ms]|] eqn:Hm; try discriminate.
    destruct (truthy (msg_id m)) eqn:Hid; [|discriminate].
    intros [= <-]. rewrite Hm. done.
  - intros [-> Hid]. destruct (messages d) as [[|m ms]|]; try discriminate.
    by rewrite Hid.
Qed.

(** The error a wrapper throws never carries a response body with an
    [error] member: such an error is replaced by a plain [Error] whose
    text depends on the error code alone, so the engine records the JSON
    text of a body only when the body has no [error] member. *)
Theorem wrapper_error_is_translated reply e :
  wrap_reply reply = inl e ->
  (forall d, response_data e = Some d -> wa_error d = None) /\
  (forall e0 d waError,
     reply = HttpFailure e0 -> response_data e0 = Some d ->
     wa_error d = Some waError ->
     response e = None /\ name e = ClassError /\
     error_detail e = "Error: " ++ message e /\
     ((code waError = 131026)%Z ->
      message e = "Phone number is not registered on WhatsApp") /\
     ((code waError = 131021)%Z -> message e = "Invalid phone number format") /\
     ((code waError = 131047)%Z ->
      message e = "Phone number is not a WhatsApp number") /\
     ((code waError = 100)%Z ->
      message e =
        "Invalid parameter - phone number may not be valid or registered on WhatsApp")).
Proof.
  unfold wrap_reply. intros Hw.
  assert (exists e1, check_success reply = inl e1 /\ e = translate_error e1)
    as (e1 & Hc & ->).
  { destruct (check_success reply) as [e1|d1]; [|discriminate].
    injection Hw as <-. by exists e1. }
  split.
  - intros d. unfold translate_error.
    destruct (response_data e1) as [d1|] eqn:Hd1.
    + destruct (wa_error d1) as [waError|] eqn:Hwa.
      * repeat match goal with
               | |- context [(?a =? ?b)%Z] => destruct (a =? b)%Z
               end; discriminate.
      * rewrite Hd1. by intros [= <-].
    + rewrite Hd1. discriminate.
  - intros e0 d waError -> Hd Hwa. simpl in Hc. injection Hc as <-.
    unfold translate_error. rewrite Hd, Hwa.
    destruct (Z.eqb_spec (code waError) 131026) as [E1|E1];
      [|destruct (Z.eqb_spec (code waError) 131021) as [E2|E2];
        [|destruct (Z.eqb_spec (code waError) 131047) as [E3|E3];
          [|destruct (Z.eqb_spec (code waError) 100) as [E4|E4]]]];
      (split; [done|]); (split; [done|]); split;
      try (unfold error_detail, String_of_error; simpl; done);
      repeat split; intros; try done; try lia.
Qed.

Lemma wrapper_error_is_translated_witness :
  (forall d,
     response_data (new_Error "Phone number is not registered on WhatsApp") = Some d ->
     wa_error d = None) /\
  (forall e0 d waError,
     unregistered_reply = HttpFailure e0 -> response_data e0 = Some d ->
     wa_error d = Some waError ->
     response (new_Error "Phone number is not registered on WhatsApp") = None /\
     name (new_Error "Phone number is not registered on WhatsApp") = ClassError /\
     error_detail (new_Error "Phone number is not registered on WhatsApp") =
       "Error: " ++ message (new_Error "Phone number is not registered on WhatsApp") /\
     ((code waError = 131026)%Z ->
      message (new_Error "Phone number is not registered on WhatsApp") =
        "Phone number is not registered on WhatsApp") /\
     ((code waError = 131021)%Z ->
      message (new_Error "Phone number is not registered on WhatsApp") =
        "Invalid phone number format") /\
     ((code waError = 131047)%Z ->
      message (new_Error "Phone number is not registered on WhatsApp") =
        "Phone number is not a WhatsApp number") /\
     ((code waError = 100)%Z ->
      message (new_Error "Phone number is not registered on WhatsApp") =
        "Invalid parameter - phone number may not be valid or registered on WhatsApp")).
Proof.
  apply (wrapper_error_is_translated unregistered_reply
           (new_Error "Phone number is not registered on WhatsApp")).
  reflexivity.
Defined.

(** ** The rows of a CSV file *)

Lemma foldl_invariant {A B} (I : B -> Prop) (f : B -> A -> B) (l : list A) :
  (forall acc x, x ∈ l -> I acc -> I (f acc x)) ->
  forall acc, I acc -> I (foldl f acc l).
Proof.
  induction l as [|x l IH]; intros Hstep acc Hacc; simpl; [done|].
  apply IH.
  - intros acc' y Hy. apply Hstep. by right.
  - apply Hstep; [by left | done].
Qed.

Lemma row_get_elem row key v : row_get row key = Some v -> (key, v) ∈ row.
Proof.
  induction row as [|[k v'] row IH]; simpl; [discriminate|].
  destruct (String.eqb_spec k key) as [->|Hne].
  - intros [= ->]. by left.
  - intros H. right. by apply IH.
Qed.

Lemma js_or_cases x y : js_or x y = x /\ truthy x = true \/ js_or x y = y.
Proof. unfold js_or. destruct (truthy x); auto. Qed.

Lemma named_value_elem row col v :
  named_value row col = Some v -> exists k, (k, v) ∈ row.
Proof.
  unfold named_value. intros H.
  destruct (js_or_cases (row_get row col)
              (js_or (row_get row (toLowerCase col)) (row_get row (toUpperCase col))))
    as [[E _]|E]; rewrite E in H.
  { eexists. by apply row_get_elem. }
  destruct (js_or_cases (row_get row (toLowerCase col))
              (row_get row (toUpperCase col)))
    as [[E' _]|E']; rewrite E' in H; eexists; by apply row_get_elem.
Qed.

Lemma truthy_Some v : truthy (Some v) = true <-> v <> EmptyString.
Proof.
  simpl. destruct (String.eqb_spec v EmptyString); simpl; split; intros; done.
Qed.

Section Rows.
Variable trim : string -> string.

Lemma find_named_origin row cols m :
  find_named trim row cols = Some m ->
  exists col value,
    col ∈ cols /\ named_value row col = Some value /\ value <> EmptyString /\
    m = trim value.
Proof.
  induction cols as [|col cols IH]; simpl; [discriminate|].
  destruct (truthy (named_value row col)) eqn:Ht.
  - intros [= <-]. destruct (named_value row col) as [value|] eqn:Hv; [|discriminate].
    exists col, value. split; [by left|]. split; [done|].
    split; [by apply truthy_Some|done].
  - intros H. destruct (IH H) as (col' & value & Hin & Hrest).
    exists col', value. split; [by right|done].
Qed.

Lemma find_named_None row cols :
  find_named trim row cols = None <->
  forall col, col ∈ cols -> truthy (named_value row col) = false.
Proof.
  induction cols as [|col cols IH]; simpl.
  - split; [|done]. intros _ col Hcol. by apply elem_of_nil in Hcol.
  - destruct (truthy (named_value row col)) eqn:Ht.
    + split; [discriminate|]. intros H. specialize (H col ltac:(by left)). congruence.
    + rewrite IH. split.
      * intros H col' [->|Hin]%elem_of_cons; auto.
      * intros H col' Hin. apply H. by right.
Qed.

Lemma scan_values_origin entries m :
  scan_values trim entries = Some m ->
  exists k v,
    (k, v) ∈ entries /\ v <> EmptyString /\ m = trim v /\ isValidMobileNumber m = true.
Proof.
  induction entries as [|[k v] entries IH]; simpl; [discriminate|].
  destruct (negb (String.eqb v EmptyString)) eqn:Ht.
  - destruct (isValidMobileNumber (trim v)) eqn:Hv.
    + intros [= <-]. exists k, v. split; [by left|].
      split; [|done]. apply truthy_Some. by simpl.
    + intros H. destruct (IH H) as (k' & v' & Hin & Hrest).
      exists k', v'. split; [by right|done].
  - intros H. destruct (IH H) as (k' & v' & Hin & Hrest).
    exists k', v'. split; [by right|done].
Qed.

Lemma scan_values_None entries :
  scan_values trim entries = None <->
  forall k v, (k, v) ∈ entries -> v <> EmptyString -> isValidMobileNumber (trim v) = false.
Proof.
  induction entries as [|[k v] entries IH]; simpl.
  - split; [|done]. intros _ k v Hin. by apply elem_of_nil in Hin.
  - destruct (negb (String.eqb v EmptyString)) eqn:Ht.
    + destruct (isValidMobileNumber (trim v)) eqn:Hv.
      * split; [discriminate|]. intros H.
        rewrite (H k v) in Hv; [discriminate|by left|].
        apply truthy_Some. by simpl.
      * rewrite IH. split.
        -- intros H k' v' [[= -> ->]|Hin]%elem_of_cons Hne; eauto.
        -- intros H k' v' Hin. apply (H k'). by right.
    + rewrite IH. split.
      * intros H k' v' [[= -> ->]|Hin]%elem_of_cons Hne; [|eauto].
        apply truthy_Some in Hne. simpl in Hne. congruence.
      * intros H k' v' Hin. apply (H k'). by right.
Qed.

Lemma findMobileNumber_origin row m :
  findMobileNumber trim row = Some m ->
  exists k v, (k, v) ∈ row /\ v <> EmptyString /\ m = trim v.
Proof.
  unfold findMobileNumber.
  destruct (find_named trim row possibleColumns) as [m'|] eqn:Hn.
  - intros [= <-].
    destruct (find_named_origin _ _ _ Hn) as (col & value & _ & Hv & Hne & ->).
    destruct (named_value_elem _ _ _ Hv) as [k Hk]. by exists k, value.
  - intros H. destruct (scan_values_origin _ _ H) as (k & v & Hin & Hne & -> & _).
    by exists k, v.
Qed.

(** [findMobileNumber] finds nothing exactly when no named column has a
    value and no cell at all is a valid number once trimmed; what it finds
    is always the trimmed value of a non-empty cell, and a value taken from
    a named column is returned whether it is valid or not. *)
Theorem findMobileNumber_result (row : CSVRow) :
  (findMobileNumber trim row = None <->
   (forall col, col ∈ possibleColumns -> truthy (named_value row col) = false) /\
   (forall k v, (k, v) ∈ row -> v <> EmptyString -> isValidMobileNumber (trim v) = false)) /\
  (forall m,
     findMobileNumber trim row = Some m ->
     exists k v, (k, v) ∈ row /\ v <> EmptyString /\ m = trim v) /\
  (forall col value,
     col ∈ possibleColumns -> named_value row col = Some value -> value <> EmptyString ->
     exists col' value',
       col' ∈ possibleColumns /\ named_value row col' = Some value' /\
       findMobileNumber trim row = Some (trim value')).
Proof.
  split; [|split]; [unfold findMobileNumber| |unfold findMobileNumber].
  - destruct (find_named trim row possibleColumns) as [m|] eqn:Hn.
    + split; [discriminate|]. intros [H _].
      apply (proj2 (find_named_None row possibleColumns)) in H. congruence.
    + rewrite scan_values_None.
      pose proof (proj1 (find_named_None row possibleColumns) Hn) as Hn'.
      split; [by split|]. by intros [_ H].
  - intros m Hm. by apply findMobileNumber_origin.
  - intros col value Hcol Hv Hne.
    destruct (find_named trim row possibleColumns) as [m|] eqn:Hn.
    + destruct (find_named_origin _ _ _ Hn) as (col' & value' & Hin & Hv' & _ & ->).
      by exists col', value'.
    + pose proof (proj1 (find_named_None row possibleColumns) Hn col Hcol) as Hn'.
      rewrite Hv in Hn'. apply truthy_Some in Hne. congruence.
Qed.

Lemma on_data_totalRows acc row :
  ParsedCSVData.totalRows (on_data trim acc row) = S (ParsedCSVData.totalRows acc).
Proof.
  unfold on_data. destruct (truthy _); [|done].
  by destruct (isValidMobileNumber _).
Qed.

(** The summary of [parseCSVBuffer] adds up: every row is counted once, as
    valid or as invalid, there is one number per valid row and one error
    line per invalid row. *)
Theorem parseCSVRows_counts (rows : list CSVRow) :
  ParsedCSVData.totalRows (parseCSVRows trim rows) = length rows /\
  ParsedCSVData.validNumbers (parseCSVRows trim rows)
    + ParsedCSVData.invalidNumbers (parseCSVRows trim rows) = length rows /\
  length (ParsedCSVData.mobileNumbers (parseCSVRows trim rows)) =
    ParsedCSVData.validNumbers (parseCSVRows trim rows) /\
  length (ParsedCSVData.errors (parseCSVRows trim rows)) =
    ParsedCSVData.invalidNumbers (parseCSVRows trim rows).
Proof.
  unfold parseCSVRows.
  set (init := {| ParsedCSVData.mobileNumbers := []; ParsedCSVData.totalRows := 0;
                  ParsedCSVData.validNumbers := 0;
                  ParsedCSVData.invalidNumbers := 0;
                  ParsedCSVData.errors := [] |}).
  assert (forall rows acc,
            ParsedCSVData.totalRows (foldl (on_data trim) acc rows) =
              ParsedCSVData.totalRows acc + length rows) as Htotal.
  { clear. induction rows as [|row rows IH]; intros acc; simpl; [lia|].
    rewrite IH, on_data_totalRows. lia. }
  split; [by rewrite Htotal|].
  rewrite <- (Nat.add_0_l (length rows)) at 1.
  change 0 with (ParsedCSVData.totalRows init) at 1. rewrite <- Htotal.
  apply (foldl_invariant
           (fun acc =>
              ParsedCSVData.validNumbers acc + ParsedCSVData.invalidNumbers acc =
                ParsedCSVData.totalRows acc /\
              length (ParsedCSVData.mobileNumbers acc) =
                ParsedCSVData.validNumbers acc /\
              length (ParsedCSVData.errors acc) =
                ParsedCSVData.invalidNumbers acc)); [|done].
  intros acc row _ (H1 & H2 & H3). unfold on_data.
  destruct (truthy _); [destruct (isValidMobileNumber _)|]; simpl;
    rewrite ?length_app; simpl; lia.
Qed.

(** Every number [parseCSVBuffer] accepts is the trimmed value of a cell of
    the file and has 8 to 15 digits; it is kept as it is written, and its
    normalised form is valid as well. *)
Theorem parseCSVRows_numbers (rows : list CSVRow) (m : string) :
  m ∈ ParsedCSVData.mobileNumbers (parseCSVRows trim rows) ->
  isValidMobileNumber m = true /\
  isValidMobileNumber (formatMobileNumber m) = true /\
  m <> EmptyString /\
  exists row k v, row ∈ rows /\ (k, v) ∈ row /\ v <> EmptyString /\ m = trim v.
Proof.
  unfold parseCSVRows. revert m.
  apply (foldl_invariant
           (fun acc =>
              forall m, m ∈ ParsedCSVData.mobileNumbers acc ->
                isValidMobileNumber m = true /\
                isValidMobileNumber (formatMobileNumber m) = true /\
                m <> EmptyString /\
                exists row k v, row ∈ rows /\ (k, v) ∈ row /\ v <> EmptyString /\ m = trim v));
    [|intros m Hm; by apply elem_of_nil in Hm].
  intros acc row Hrow IH m. unfold on_data.
  destruct (truthy (findMobileNumber trim row)) eqn:Ht; [|apply IH].
  destruct (findMobileNumber trim row) as [number|] eqn:Hf; [|discriminate].
  simpl default.
  destruct (isValidMobileNumber number) eqn:Hv; [|apply IH]. simpl.
  intros [Hm|Hm]%elem_of_app; [by apply IH|].
  apply list_elem_of_singleton in Hm as ->.
  split; [done|]. split.
  { by rewrite isValid_format. }
  split; [by apply truthy_Some|].
  destruct (findMobileNumber_origin row number Hf) as (k & v & Hin & Hne & ->).
  by exists row, k, v.
Qed.
End Rows.

Lemma parseCSVRows_numbers_witness :
  isValidMobileNumber "+91 98765 43210" = true /\
  isValidMobileNumber (formatMobileNumber "+91 98765 43210") = true /\
  "+91 98765 43210" <> EmptyString /\
  exists row k v,
    row ∈ [[("name", "Asha"); ("Mobile", "+91 98765 43210")]] /\
    (k, v) ∈ row /\ v <> EmptyString /\ "+91 98765 43210" = v.
Proof.
  apply (parseCSVRows_numbers (fun s => s)
           [[("name", "Asha"); ("Mobile", "+91 98765 43210")]] "+91 98765 43210").
  vm_compute. left.
Defined.

(** ** The bulk update and its fallback *)

Lemma write_update_run u w :
  exists w',
    write_update u w = (Ret tt, w') /\
    messageLogs w' = alter (apply_set (update u)) (filter_id u) (messageLogs w) /\
    storeCalls w' = storeCalls w /\
    updated_ids (trace w') =
      (updated_ids (trace w) ++
         match messageLogs w !! filter_id u with
         | Some _ => [filter_id u]
         | None => []
         end)%list.
Proof.
  unfold write_update.
  destruct (messageLogs w !! filter_id u) as [l|] eqn:Hl.
  - eexists. split; [reflexivity|]. simpl. split; [done|]. split; [done|].
    unfold updated_ids. by rewrite omap_app.
  - exists w. split; [done|]. split; [|split; [done|by rewrite app_nil_r]].
    symmetry. apply list_eq. intros i. rewrite list_lookup_alter.
    destruct (decide (filter_id u = i)) as [<-|]; [|done]. by rewrite Hl.
Qed.

Lemma write_updates_logs us :
  forall w,
    messageLogs (snd (write_updates us w)) = apply_updates us (messageLogs w).
Proof.
  induction us as [|u us IH]; intros w; simpl; [done|].
  destruct (write_update_run u w) as (w' & E & Hlogs & _).
  rewrite (bind_Ret _ _ _ _ _ E), IH, Hlogs. done.
Qed.

Lemma individual_updates_logs env us :
  (forall n, store_fault env n CallFindByIdAndUpdate = None) ->
  forall w,
    messageLogs (snd (individual_updates env us w)) =
      apply_updates us (messageLogs w).
Proof.
  intros Hnf. induction us as [|u us IH]; intros w; simpl; [done|].
  assert (exists w',
            try_catch (findByIdAndUpdate env u)
              (fun individualError => console_error "Individual update failed") w =
              (Ret tt, w') /\
            messageLogs w' = alter (apply_set (update u)) (filter_id u) (messageLogs w))
    as (w' & E & Hlogs).
  { unfold try_catch, findByIdAndUpdate, bind. rewrite store_call_run, Hnf.
    match goal with |- context [write_update u ?w0] =>
      destruct (write_update_run u w0) as (w' & E & Hlogs & _) end.
    rewrite E. by exists w'. }
  rewrite (bind_Ret _ _ _ _ _ E), IH, Hlogs. done.
Qed.

(** Whether [bulkWrite] succeeds or fails, the background path leaves the
    collection with every update of the batch applied, as long as no
    single [findByIdAndUpdate] of the fallback fails; it never throws. *)
Theorem bulk_update_fallback env us w :
  (forall n, store_fault env n CallFindByIdAndUpdate = None) ->
  exists w',
    try_catch (bulkWrite env us)
      (fun error => console_error "Error in batch update" ;;;
                    individual_updates env us) w = (Ret tt, w') /\
    messageLogs w' = apply_updates us (messageLogs w).
Proof.
  intros Hnf.
  destruct (returns_run _ w (returns_bulk_update env us)) as ([] & w' & E).
  exists w'. split; [done|].
  change w' with (snd (Ret tt, w')). rewrite <- E.
  unfold try_catch, bulkWrite. unfold bind at 1. rewrite store_call_run.
  destruct (store_fault env (storeCalls w) CallBulkWrite) as [e|].
  - unfold bind. simpl. rewrite individual_updates_logs by done. done.
  - match goal with |- context [write_updates us ?w0] =>
      pose proof (write_updates_logs us w0) as Hl;
      destruct (returns_run _ w0 (returns_write_updates us)) as ([] & w1 & E1)
    end.
    rewrite E1 in *. simpl in *. done.
Qed.

Lemma bulk_update_fallback_witness :
  exists w',
    try_catch (bulkWrite env_bulkWrite_down
                 [{| filter_id := 0; update := SetSent (Some "wamid.1") 0%N |}])
      (fun error => console_error "Error in batch update" ;;;
                    individual_updates env_bulkWrite_down
                      [{| filter_id := 0; update := SetSent (Some "wamid.1") 0%N |}])
      (set_messageLogs
         [MessageLog.queued "919876543210" TEXT (PayloadText None) None "clerk" 0%N]
         emptyWorld) = (Ret tt, w') /\
    messageLogs w' =
      apply_updates [{| filter_id := 0; update := SetSent (Some "wamid.1") 0%N |}]
        [MessageLog.queued "919876543210" TEXT (PayloadText None) None "clerk" 0%N].
Proof.
  apply (bulk_update_fallback env_bulkWrite_down
           [{| filter_id := 0; update := SetSent (Some "wamid.1") 0%N |}]
           (set_messageLogs
              [MessageLog.queued "919876543210" TEXT (PayloadText None) None "clerk" 0%N]
              emptyWorld)).
  intros n. reflexivity.
Defined.

(** ** A run without storage fault *)

Lemma set_counts_id doc :
  BulkOperation.set_counts (BulkOperation.processedCount doc)
    (BulkOperation.successCount doc) (BulkOperation.failedCount doc) doc = doc.
Proof. by destruct doc. Qed.

Lemma repeated_length ns ms (P : nat -> Prop) bound :
  length ns = length ms -> Forall P ns -> (forall n, P n -> n <= bound) ->
  length (repeated ns ms) <= bound * length ms.
Proof.
  intros Hlen HF Hb. revert ms Hlen.
  induction HF as [|n ns Hn _ IH]; intros [|m ms] Hlen; simpl in *; try lia.
  rewrite repeated_cons, length_app, length_replicate.
  specialize (IH ms ltac:(lia)). specialize (Hb n Hn). lia.
Qed.

Lemma repeated_ones ns ms :
  length ns = length ms -> Forall (fun n => n = 1) ns -> repeated ns ms = ms.
Proof.
  intros Hlen HF. revert ms Hlen.
  induction HF as [|n ns -> _ IH]; intros [|m ms] Hlen; simpl in *; try lia; [done|].
  rewrite repeated_cons. simpl. f_equal. apply IH. lia.
Qed.

Lemma pause_quiet (b : bool) ms w :
  exists w',
    (if b then sleep ms else ret tt) w = (Ret tt, w') /\
    bulkOperation w' = bulkOperation w /\
    messageLogs w' = messageLogs w /\
    dests (trace w') = dests (trace w) /\
    updated_ids (trace w') = updated_ids (trace w).
Proof.
  destruct b.
  - eexists. split; [apply sleep_run|]. simpl. split; [done|]. split; [done|].
    unfold dests, updated_ids. rewrite !omap_app. simpl. by rewrite !app_nil_r.
  - by exists w.
Qed.

Lemma save_no_fault env w :
  no_store_fault env ->
  exists w',
    save env w = (Ret tt, w') /\
    bulkOperation w' = bulkOperation w /\
    messageLogs w' = messageLogs w /\
    trace w' = trace w /\
    operationSaves w' =
      match bulkOperation w with
      | Some doc => (operationSaves w ++ [doc])%list
      | None => operationSaves w
      end.
Proof.
  intros Hnf. rewrite save_run, Hnf. eexists. split; [reflexivity|]. by simpl.
Qed.

(** The batch loop of the background path when no storage call fails. *)
Lemma batchLoop_no_fault env md config :
  0 < CONCURRENCY_LIMIT config -> no_store_fault env ->
  forall bs nbatches batchIndex p s f w doc,
    bulkOperation w = Some doc -> p = s + f ->
    BulkOperation.processedCount doc = p ->
    BulkOperation.successCount doc = s ->
    BulkOperation.failedCount doc = f ->
    exists w' p' s' f' ns new,
      batchLoop env md config bs nbatches batchIndex p s f w = (Ret tt, w') /\
      bulkOperation w' = Some (BulkOperation.set_counts p' s' f' doc) /\
      p' = p + length (concat bs) /\ p' = s' + f' /\
      tos w' = (tos w ++ map formatMobileNumber (concat bs))%list /\
      length ns = length (concat bs) /\
      Forall (attempts_ok md) ns /\
      dests (trace w') = (dests (trace w) ++ new)%list /\
      new ≡ₚ repeated ns (concat bs).
Proof.
  intros Hc Hnf. induction bs as [|batch bs IH];
    intros nbatches batchIndex p s f w doc Hdoc Hp Hdp Hds Hdf.
  - exists w, p, s, f, [], []. split; [done|]. split.
    { rewrite Hdoc. f_equal. rewrite <- Hdp, <- Hds, <- Hdf.
      by rewrite set_counts_id. }
    simpl. rewrite !app_nil_r. split; [lia|]. split; [done|]. split; [done|].
    split; [done|]. split; [done|]. done.
  - simpl batchLoop.
    pose proof (processBatch_spec env batch md (batchIndex * BATCH_SIZE config)
                  config w Hc) as Hb.
    rewrite Hnf in Hb.
    destruct Hb as (r & w1 & ns1 & new1 & E & Hproc & Hsum & S1 & B1 & _ & T1 & L1 & F1 & D1 & P1).
    rewrite (bind_Ret _ _ _ _ _ E). cbv zeta.
    rewrite (bind_Ret _ _ _ _ _ (assign_run _ w1)).
    set (p1 := p + processed r). set (s1 := s + success r).
    set (f1 := f + failed r).
    set (w2 := set_bulkOperation _ w1).
    assert (bulkOperation w2 = Some (BulkOperation.set_counts p1 s1 f1 doc)) as Hdoc2.
    { unfold w2. simpl. by rewrite B1, Hdoc. }
    assert (exists w3,
              (if (batchIndex mod 3 =? 0)%nat || (batchIndex =? nbatches - 1)%nat
               then save env else ret tt) w2 = (Ret tt, w3) /\
              bulkOperation w3 = bulkOperation w2 /\
              messageLogs w3 = messageLogs w2 /\ trace w3 = trace w2)
      as (w3 & E3 & B3 & M3 & Tr3).
    { destruct ((batchIndex mod 3 =? 0)%nat || (batchIndex =? nbatches - 1)%nat).
      - destruct (save_no_fault env w2 Hnf) as (w3 & E3 & B3 & M3 & Tr3 & _).
        by exists w3.
      - by exists w2. }
    rewrite (bind_Ret _ _ _ _ _ E3).
    destruct (pause_quiet (batchIndex <? nbatches - 1)%nat
                (N.of_nat (RATE_LIMIT_DELAY config)) w3)
      as (w4 & E4 & B4 & M4 & D4 & _).
    rewrite (bind_Ret _ _ _ _ _ E4).
    destruct (IH nbatches (S batchIndex) p1 s1 f1 w4
                (BulkOperation.set_counts p1 s1 f1 doc))
      as (w' & p' & s' & f' & ns2 & new2 & E' & B' & Hp' & Hsum' & T' & L' & F' & D' & P').
    { congruence. }
    { unfold p1, s1, f1. lia. }
    { done. }
    { done. }
    { done. }
    exists w', p', s', f', (ns1 ++ ns2)%list, (new1 ++ new2)%list. split; [done|].
    split; [by rewrite B'|]. simpl concat. rewrite length_app, map_app.
    split; [unfold p1 in Hp'; lia|]. split; [done|].
    split.
    { rewrite T'. unfold tos at 1. rewrite M4, M3. unfold w2. simpl.
      fold (tos w1). rewrite T1. by rewrite <- app_assoc. }
    split; [rewrite length_app; lia|]. split; [by apply Forall_app|].
    split.
    { rewrite D', D4, Tr3. unfold w2. simpl. rewrite D1.
      by rewrite <- app_assoc. }
    rewrite repeated_app by done. by apply Permutation_app.
Qed.

(** A run of the background path when no storage call fails. *)
Lemma background_no_fault env md w :
  no_store_fault env ->
  exists w' d ns,
    processBulkMessage env md (start w) = (Ret tt, w') /\
    last (operationSaves w') = Some d /\
    BulkOperation.status d = BulkOperation.COMPLETED /\
    is_Some (BulkOperation.completedAt d) /\
    BulkOperation.totalRecipients d = length (BulkMessageData.mobileNumbers md) /\
    BulkOperation.processedCount d = length (BulkMessageData.mobileNumbers md) /\
    BulkOperation.successCount d + BulkOperation.failedCount d =
      length (BulkMessageData.mobileNumbers md) /\
    tos w' = (tos w ++ map formatMobileNumber (BulkMessageData.mobileNumbers md))%list /\
    length ns = length (BulkMessageData.mobileNumbers md) /\
    Forall (attempts_ok md) ns /\
    dests (trace w') ≡ₚ repeated ns (BulkMessageData.mobileNumbers md).
Proof.
  intros Hnf. unfold processBulkMessage.
  erewrite bind_Ret by reflexivity.
  match goal with |- context [create env ?d] => set (doc0 := d) end.
  unfold bind at 1. rewrite create_run, Hnf.
  unfold detached, processBulkMessagesInBackground.
  unfold bind at 1. rewrite findById_run, Hnf.
  change (operationSaves (start w)) with (@nil BulkOperation.t).
  cbn [last operationSaves app]. cbv iota.
  rewrite (bind_Ret _ _ _ _ _ (assign_run _ _)).
  unfold bind at 1. rewrite save_run, Hnf.
  set (R := BulkMessageData.mobileNumbers md).
  destruct (getOptimalConfig_positive (Z.of_nat (length R))) as [HB HC].
  set (config := getOptimalConfig (Z.of_nat (length R))) in *.
  destruct (batches_spec R (BATCH_SIZE config) HB) as (bs & Hbs & Hcat & _ & _).
  cbv zeta. fold config. rewrite Hbs.
  set (doc1 := BulkOperation.set_status BulkOperation.PROCESSING doc0).
  match goal with |- context [try_catch (bind (batchLoop env md config bs ?n 0 0 0 0) _) _ ?w1] =>
    destruct (batchLoop_no_fault env md config HC Hnf bs n 0 0 0 0 w1 doc1
                eq_refl eq_refl eq_refl eq_refl eq_refl)
      as (w2 & p' & s' & f' & ns & new & E2 & B2 & Hp' & Hsum' & T2 & L2 & F2 & D2 & P2)
  end.
  rewrite Hcat in *.
  unfold try_catch.
  rewrite (bind_Ret _ _ _ _ _ E2).
  rewrite (bind_Ret _ _ _ _ _ (assign_run _ w2)).
  erewrite bind_Ret by reflexivity.
  erewrite bind_Ret by apply assign_run.
  rewrite save_run, Hnf. simpl bulkOperation. rewrite B2. simpl fmap.
  eexists _, _, ns. split; [reflexivity|]. simpl operationSaves.
  split; [apply last_snoc|]. simpl.
  split; [done|]. split; [by eexists|]. split; [done|]. split; [lia|].
  split; [lia|]. split; [exact T2|]. split; [done|]. split; [done|].
  simpl in D2. rewrite D2. exact P2.
Qed.

(** When no storage call fails, the Operation of the background path ends
    COMPLETED with every recipient accounted for: [processedCount] and
    [successCount + failedCount] both equal [totalRecipients], the number
    of recipients submitted, whatever the gateway answered. *)
Theorem background_accounts_for_all env md w :
  no_store_fault env ->
  exists d,
    last (operationSaves (snd (processBulkMessage env md (start w)))) = Some d /\
    BulkOperation.status d = BulkOperation.COMPLETED /\
    is_Some (BulkOperation.completedAt d) /\
    BulkOperation.totalRecipients d = length (BulkMessageData.mobileNumbers md) /\
    BulkOperation.processedCount d = length (BulkMessageData.mobileNumbers md) /\
    BulkOperation.successCount d + BulkOperation.failedCount d =
      length (BulkMessageData.mobileNumbers md).
Proof.
  intros Hnf.
  destruct (background_no_fault env md w Hnf)
    as (w' & d & ns & -> & H1 & H2 & H3 & H4 & H5 & H6 & _).
  exists d. simpl. repeat split; auto.
Qed.

Lemma background_accounts_for_all_witness :
  exists d,
    last (operationSaves
            (snd (processBulkMessage env_unregistered
                    (text_to ["911"; "912"; "913"; "914"; "915"; "916"; "917"])
                    (start emptyWorld)))) = Some d /\
    BulkOperation.status d = BulkOperation.COMPLETED /\
    is_Some (BulkOperation.completedAt d) /\
    BulkOperation.totalRecipients d = 7 /\
    BulkOperation.processedCount d = 7 /\
    BulkOperation.successCount d + BulkOperation.failedCount d = 7.
Proof.
  apply (background_accounts_for_all env_unregistered
           (text_to ["911"; "912"; "913"; "914"; "915"; "916"; "917"]) emptyWorld).
  intros n c. reflexivity.
Defined.

(** When no storage call fails, the background path creates exactly one
    Dispatch Record per recipient, in the order of the input and under the
    normalised number, after the records that were there before. *)
Theorem background_one_record_each env md w :
  no_store_fault env ->
  tos (snd (processBulkMessage env md (start w))) =
    (tos w ++ map formatMobileNumber (BulkMessageData.mobileNumbers md))%list.
Proof.
  intros Hnf.
  destruct (background_no_fault env md w Hnf)
    as (w' & d & ns & -> & _ & _ & _ & _ & _ & _ & H & _).
  exact H.
Qed.

Lemma background_one_record_each_witness :
  tos (snd (processBulkMessage env_third_time
              (text_to ["(555) 123-4567"; "919876543210"]) (start emptyWorld))) =
    ["15551234567"; "919876543210"].
Proof.
  apply (background_one_record_each env_third_time
           (text_to ["(555) 123-4567"; "919876543210"]) emptyWorld).
  intros n c. reflexivity.
Defined.

(** When no storage call fails, the requests of a run of the background
    path are, up to their order, the recipients of the input, each taken
    between one and three times (not at all if the message has nothing to
    post): every recipient is attempted at least once and at most three
    times, no request goes to anyone else, and there are never more than
    three times as many requests as recipients. Nothing is said of the
    order of the requests, which depends on the order the replies arrive
    in. *)
Theorem background_requests env md w :
  no_store_fault env ->
  exists ns,
    length ns = length (BulkMessageData.mobileNumbers md) /\
    Forall (attempts_ok md) ns /\
    dests (trace (snd (processBulkMessage env md (start w)))) ≡ₚ
      repeated ns (BulkMessageData.mobileNumbers md) /\
    length (dests (trace (snd (processBulkMessage env md (start w))))) <=
      3 * length (BulkMessageData.mobileNumbers md).
Proof.
  intros Hnf.
  destruct (background_no_fault env md w Hnf)
    as (w' & d & ns & -> & _ & _ & _ & _ & _ & _ & _ & L & F & D).
  exists ns. simpl snd. split; [done|]. split; [done|].
  split; [done|].
  rewrite D. apply (repeated_length _ _ (attempts_ok md)); [done|done|].
  by intros n [Hn _].
Qed.

Lemma background_requests_witness :
  exists ns,
    length ns = 2 /\
    Forall (attempts_ok (text_to ["911"; "912"])) ns /\
    dests (trace (snd (processBulkMessage env_third_time (text_to ["911"; "912"])
                         (start emptyWorld)))) ≡ₚ
      repeated ns ["911"; "912"] /\
    length (dests (trace (snd (processBulkMessage env_third_time
                                 (text_to ["911"; "912"]) (start emptyWorld))))) <=
      3 * 2.
Proof.
  apply (background_requests env_third_time (text_to ["911"; "912"]) emptyWorld).
  intros n c. reflexivity.
Defined.

(** ** The route when no storage call fails *)

Lemma indexOf_elem batch to :
  to ∈ batch ->
  exists j, indexOf batch to = Some j /\ batch !! j = Some to.
Proof.
  induction batch as [|y batch IH]; [by intros ?%elem_of_nil|].
  intros Hin. simpl. destruct (String.eqb_spec y to) as [->|Hne].
  - by exists 0.
  - apply elem_of_cons in Hin as [->|Hin]; [done|].
    destruct (IH Hin) as (j & Hj & Hl). exists (S j). by rewrite Hj.
Qed.

Lemma indexOf_NoDup batch j to :
  NoDup batch -> batch !! j = Some to -> indexOf batch to = Some j.
Proof.
  intros Hnd. revert j. induction Hnd as [|y batch Hy Hnd IH]; intros j Hj.
  - by rewrite lookup_nil in Hj.
  - simpl. destruct j as [|j]; simpl in Hj.
    + injection Hj as ->. by rewrite String.eqb_refl.
    + destruct (String.eqb_spec y to) as [->|Hne].
      * destruct Hy. eapply list_elem_of_lookup_2, Hj.
      * by rewrite (IH j Hj).
Qed.

Lemma keys_of_distinct batch base :
  NoDup batch ->
  map (fun to => base + default 0 (indexOf batch to)) batch = seq base (length batch).
Proof.
  intros Hnd. apply list_eq. intros i.
  change (map ?f batch) with (f <$> batch). rewrite list_lookup_fmap.
  destruct (batch !! i) as [to|] eqn:Hi; simpl.
  - rewrite (indexOf_NoDup _ _ _ Hnd Hi). simpl.
    symmetry. apply lookup_seq_lt. by eapply lookup_lt_Some.
  - symmetry. apply lookup_seq_ge. by apply lookup_ge_None.
Qed.

(** The updates the workers of the route push for numbers of the batch:
    one each, for the record at the first position of the number. *)
Lemma route_adds batch base (items : list string) (adds : list (list UpdateOne)) :
  (forall to, to ∈ items -> to ∈ batch) ->
  Forall2
    (fun to a =>
       exists i : nat,
         match indexOf batch to ≫= (fun i => seq base (length batch) !! i) with
         | Some _id => exists u, a = [u] /\ filter_id u = _id
         | None => a = []
         end) items adds ->
  map filter_id (concat adds) =
    map (fun to => base + default 0 (indexOf batch to)) items.
Proof.
  intros Hsub H. induction H as [|to a items adds (_ & Ha) _ IH]; [done|].
  destruct (indexOf_elem batch to) as (j & Hj & Hl); [apply Hsub; by left|].
  rewrite Hj in Ha. simpl in Ha.
  rewrite (lookup_seq_lt base (length batch) j) in Ha by (by eapply lookup_lt_Some).
  destruct Ha as (u & -> & Hu). simpl. rewrite Hu, Hj. simpl. f_equal.
  apply IH. intros to' Hto'. apply Hsub. by right.
Qed.

Lemma bind_replicate_1 {A} (l : list A) : l ≫= replicate 1 = l.
Proof.
  induction l as [|x l IH]; [done|].
  change (x :: (l ≫= replicate 1) = x :: l). by rewrite IH.
Qed.

Lemma closed_apply_set u l : closed_log (apply_set u l).
Proof. destruct u; [by left | by right]. Qed.

(** *** The effect of the updates of a batch *)

Lemma apply_updates_snoc us u logs :
  apply_updates (us ++ [u]) logs =
    alter (apply_set (update u)) (filter_id u) (apply_updates us logs).
Proof. unfold apply_updates. by rewrite foldl_app. Qed.

Lemma apply_updates_length us logs :
  length (apply_updates us logs) = length logs.
Proof.
  induction us as [|u us IH] using rev_ind; [done|].
  by rewrite apply_updates_snoc, length_alter.
Qed.

(** A record no update is for is left as it is. *)
Lemma apply_updates_other us logs i :
  i ∉ map filter_id us -> apply_updates us logs !! i = logs !! i.
Proof.
  induction us as [|u us IH] using rev_ind; intros Hi; [done|].
  rewrite map_app in Hi. rewrite apply_updates_snoc.
  rewrite list_lookup_alter_ne.
  - apply IH. intros H. apply Hi. apply elem_of_app. by left.
  - intros <-. apply Hi. apply elem_of_app. right. by left.
Qed.

(** A record an update is for ends SENT or FAILED. *)
Lemma apply_updates_closed us logs i :
  i ∈ map filter_id us -> i < length logs ->
  exists l, apply_updates us logs !! i = Some l /\ closed_log l.
Proof.
  induction us as [|u us IH] using rev_ind; intros Hi Hlt.
  - by apply elem_of_nil in Hi.
  - rewrite apply_updates_snoc. destruct (decide (filter_id u = i)) as [<-|Hne].
    + destruct (lookup_lt_is_Some_2 (apply_updates us logs) (filter_id u))
        as [l Hl]; [by rewrite apply_updates_length|].
      exists (apply_set (update u) l). split; [|apply closed_apply_set].
      by rewrite list_lookup_alter_eq, Hl.
    + rewrite list_lookup_alter_ne by done. apply IH; [|done].
      rewrite map_app in Hi. apply elem_of_app in Hi as [Hi|Hi]; [done|].
      apply list_elem_of_singleton in Hi. simpl in Hi. congruence.
Qed.

(** Updates for the records of a batch, one each in whatever order. *)
Lemma apply_updates_batch us pre docs :
  map filter_id us ≡ₚ seq (length pre) (length docs) ->
  exists news,
    apply_updates us (pre ++ docs) = (pre ++ news)%list /\
    length news = length docs /\
    Forall closed_log news.
Proof.
  intros Hperm.
  set (result := apply_updates us (pre ++ docs)).
  assert (length result = length pre + length docs) as Hlen.
  { unfold result. by rewrite apply_updates_length, length_app. }
  exists (drop (length pre) result). split; [|split].
  - apply list_eq. intros i. destruct (decide (i < length pre)) as [Hlt|Hge].
    + rewrite lookup_app_l by done. unfold result.
      rewrite apply_updates_other; [by rewrite lookup_app_l|].
      rewrite Hperm. intros Hin%elem_of_seq. lia.
    + rewrite lookup_app_r by lia. rewrite lookup_drop. f_equal. lia.
  - rewrite length_drop. lia.
  - apply Forall_lookup. intros j l Hj. rewrite lookup_drop in Hj.
    destruct (apply_updates_closed us (pre ++ docs) (length pre + j))
      as (l' & Hl' & Hclosed).
    + rewrite Hperm. apply elem_of_seq. apply lookup_lt_Some in Hj. lia.
    + rewrite length_app. apply lookup_lt_Some in Hj. lia.
    + unfold result in Hj. congruence.
Qed.

Lemma write_updates_run us :
  forall w,
    (forall u, u ∈ us -> filter_id u < length (messageLogs w)) ->
    exists w',
      write_updates us w = (Ret tt, w') /\
      messageLogs w' = apply_updates us (messageLogs w) /\
      updated_ids (trace w') = (updated_ids (trace w) ++ map filter_id us)%list /\
      quiet_step not_request w w'.
Proof.
  induction us as [|u us IH]; intros w Hbound; simpl.
  - exists w. rewrite app_nil_r. split; [done|]. split; [done|]. split; [done|].
    apply quiet_step_refl.
  - destruct (write_update_run u w) as (w1 & E1 & Hlogs1 & _ & Hupd1).
    pose proof (steps_write_update u w) as Q1. rewrite E1 in Q1. simpl in Q1.
    rewrite (bind_Ret _ _ _ _ _ E1).
    destruct (lookup_lt_is_Some_2 (messageLogs w) (filter_id u)) as [l Hl].
    { apply Hbound. by left. }
    rewrite Hl in Hupd1.
    destruct (IH w1) as (w' & E' & Hlogs' & Hupd' & Q').
    { intros u' Hu'. rewrite Hlogs1, length_alter. apply Hbound. by right. }
    exists w'. split; [done|]. split; [by rewrite Hlogs', Hlogs1|].
    split; [rewrite Hupd', Hupd1; by rewrite <- app_assoc|].
    eapply quiet_step_trans; eauto.
Qed.

(** The update step of the route when [bulkWrite] does not fail. *)
Lemma route_bulk_update env us w :
  no_store_fault env ->
  (forall u, u ∈ us -> filter_id u < length (messageLogs w)) ->
  exists w',
    (if (0 <? length us)%nat
     then try_catch (bulkWrite env us)
            (fun error => console_error "Error in batch update")
     else ret tt) w = (Ret tt, w') /\
    messageLogs w' = apply_updates us (messageLogs w) /\
    updated_ids (trace w') = (updated_ids (trace w) ++ map filter_id us)%list /\
    quiet_step not_request w w'.
Proof.
  intros Hnf Hbound. destruct us as [|u us].
  - exists w. simpl. rewrite app_nil_r. split; [done|]. split; [done|].
    split; [done|]. apply quiet_step_refl.
  - change (0 <? length (u :: us))%nat with true. cbv iota.
    unfold try_catch, bulkWrite. unfold bind at 1. rewrite store_call_run, Hnf.
    match goal with |- context [write_updates ?l ?w0] =>
      destruct (write_updates_run l w0) as (w' & E & Hlogs & Hupd & Q)
    end.
    { exact Hbound. }
    rewrite E. exists w'. split; [done|]. split; [done|]. split; [done|].
    destruct Q as (S1 & B1 & T1 & evs & Tr & F). repeat split; auto.
    exists evs. by split.
Qed.

Lemma indexOf_bound batch to :
  to ∈ batch -> default 0 (indexOf batch to) < length batch.
Proof.
  intros Hin. destruct (indexOf_elem batch to Hin) as (j & -> & Hl).
  simpl. by eapply lookup_lt_Some.
Qed.

Lemma to_queued_batch (batch : list string) type payload department sentBy d :
  map MessageLog.to
    (map (fun mobileNumber =>
            MessageLog.queued mobileNumber type payload department sentBy d) batch) =
    batch.
Proof. induction batch as [|to batch IH]; simpl; [done|]. by rewrite IH. Qed.

Lemma concat_distinct (batch : list string) (bs : list (list string)) :
  NoDup (concat (batch :: bs)) -> NoDup batch /\ NoDup (concat bs).
Proof. simpl. intros (H1 & _ & H2)%NoDup_app. done. Qed.

(** The batch loop of the route when no storage call fails. *)
Lemma routeBatchLoop_no_fault env rq :
  no_store_fault env ->
  forall bs nbatches batchIndex p s f w doc,
    bulkOperation w = Some doc -> p = s + f ->
    BulkOperation.processedCount doc = p ->
    BulkOperation.successCount doc = s ->
    BulkOperation.failedCount doc = f ->
    exists w' p' s' f',
      routeBatchLoop env rq bs nbatches batchIndex p s f w = (Ret tt, w') /\
      bulkOperation w' = Some (BulkOperation.set_counts p' s' f' doc) /\
      p' = p + length (concat bs) /\ p' = s' + f' /\
      tos w' = (tos w ++ concat bs)%list /\
      dests (trace w') = (dests (trace w) ++ concat bs)%list /\
      (NoDup (concat bs) ->
       exists news ids,
         messageLogs w' = (messageLogs w ++ news)%list /\
         Forall closed_log news /\
         updated_ids (trace w') = (updated_ids (trace w) ++ ids)%list /\
         ids ≡ₚ seq (length (messageLogs w)) (length (concat bs))).
Proof.
  intros Hnf. induction bs as [|batch bs IH];
    intros nbatches batchIndex p s f w doc Hdoc Hp Hdp Hds Hdf.
  - exists w, p, s, f. split; [done|]. split.
    { rewrite Hdoc. f_equal. rewrite <- Hdp, <- Hds, <- Hdf.
      by rewrite set_counts_id. }
    simpl. rewrite !app_nil_r. split; [lia|]. split; [done|]. split; [done|].
    split; [done|]. intros _. exists [], []. by rewrite !app_nil_r.
  - simpl routeBatchLoop.
    erewrite bind_Ret by reflexivity.
    erewrite bind_Ret by (apply insertMany_run, Hnf).
    rewrite length_map.
    destruct (batches_spec batch (CONCURRENCY_LIMIT routeConfig) ltac:(simpl; lia))
      as (chunks & Hb & Hcat & _ & _).
    simpl in Hb. rewrite Hb.
    set (base := length (messageLogs w)).
    match goal with |- context [(messageLogs w ++ ?ds)%list] => set (docs := ds) end.
    match goal with |- context [bind (chunkLoop env ?wk chunks ?n ?k ?c ?bu) _ ?w1] =>
      destruct (chunkLoop_spec env wk _ _ _ _ _
                  (routeWorkerSteps_spec env rq batch (seq base (length batch)))
                  chunks n k c bu w1)
        as (c' & us & w2 & ns & adds & new & E2 & C2 & L2 & Lns & Fns & D2 & P2 & X2 & Q2 & U2)
    end.
    simpl app in E2.
    rewrite (bind_Ret _ _ _ _ _ E2). simpl snd. simpl fst. cbv zeta.
    rewrite Hcat in *. simpl in L2, D2.
    rewrite (X2 (fun n H => H)), bind_replicate_1 in D2.
    destruct C2 as ((_ & B2 & T2 & _) & M2 & Up2 & _). simpl in B2, M2, Up2.
    assert (map filter_id us ≡ₚ
              map (fun to => base + default 0 (indexOf batch to)) batch) as Hids.
    { rewrite <- (route_adds batch base batch adds); [|done|exact Q2].
      change (map filter_id us) with (filter_id <$> us).
      change (map filter_id (concat adds)) with (filter_id <$> concat adds).
      by rewrite U2. }
    assert (tos w2 = (tos w ++ batch)%list) as T2'.
    { rewrite T2. unfold tos. simpl. rewrite map_app. f_equal.
      apply to_queued_batch. }
    assert (length docs = length batch) as Ldocs.
    { unfold docs. by rewrite length_map. }
    destruct (route_bulk_update env us w2 Hnf) as (w3 & E3 & M3 & U3 & Q3).
    { intros u Hu. rewrite M2, length_app, Ldocs. fold base.
      assert (filter_id u ∈ map filter_id us) as Hin.
      { change (map filter_id us) with (filter_id <$> us).
        by apply list_elem_of_fmap_2. }
      rewrite Hids in Hin.
      change (map ?g batch) with (g <$> batch) in Hin.
      apply list_elem_of_fmap in Hin as (to & -> & Hto).
      pose proof (indexOf_bound batch to Hto). lia. }
    rewrite (bind_Ret _ _ _ _ _ E3).
    pose proof (quiet_step_dests _ _ Q3) as D3.
    destruct Q3 as (_ & B3 & T3 & _).
    rewrite (bind_Ret _ _ _ _ _ (assign_run _ w3)).
    set (p1 := p + length batch).
    set (w4 := set_bulkOperation _ w3).
    assert (bulkOperation w4 =
              Some (BulkOperation.set_counts p1 c'.1 c'.2 doc)) as Hdoc4.
    { unfold w4. simpl. by rewrite B3, B2, Hdoc. }
    assert (exists w5,
              (if (batchIndex mod 3 =? 0)%nat || (batchIndex =? nbatches - 1)%nat
               then save env else ret tt) w4 = (Ret tt, w5) /\
              bulkOperation w5 = bulkOperation w4 /\
              messageLogs w5 = messageLogs w4 /\ trace w5 = trace w4)
      as (w5 & E5 & B5 & M5 & Tr5).
    { destruct ((batchIndex mod 3 =? 0)%nat || (batchIndex =? nbatches - 1)%nat).
      - destruct (save_no_fault env w4 Hnf) as (w5 & E5 & B5 & M5 & Tr5 & _).
        by exists w5.
      - by exists w4. }
    rewrite (bind_Ret _ _ _ _ _ E5).
    destruct (pause_quiet (batchIndex <? nbatches - 1)%nat
                (N.of_nat (RATE_LIMIT_DELAY routeConfig)) w5)
      as (w6 & E6 & B6 & M6 & D6 & U6).
    rewrite (bind_Ret _ _ _ _ _ E6).
    destruct (IH nbatches (S batchIndex) p1 c'.1 c'.2 w6
                (BulkOperation.set_counts p1 c'.1 c'.2 doc))
      as (w' & p' & s' & f' & E' & B' & Hp' & Hsum' & T' & D' & N').
    { congruence. }
    { unfold p1. simpl in L2. lia. }
    { done. }
    { done. }
    { done. }
    assert (messageLogs w6 = messageLogs w3) as M63.
    { rewrite M6, M5. done. }
    exists w', p', s', f'. split; [done|]. split; [by rewrite B'|].
    simpl concat. rewrite length_app.
    split; [unfold p1 in Hp'; lia|]. split; [done|].
    split.
    { rewrite T'. unfold tos at 1. rewrite M63. fold (tos w3).
      rewrite T3, T2'. by rewrite <- app_assoc. }
    split.
    { rewrite D', D6, Tr5. unfold w4. simpl. rewrite D3, D2.
      by rewrite <- app_assoc. }
    intros [Hnd1 Hnd2]%concat_distinct.
    destruct (N' Hnd2) as (news2 & ids2 & M' & F' & U' & Pi').
    rewrite (keys_of_distinct batch base Hnd1) in Hids.
    destruct (apply_updates_batch us (messageLogs w) docs) as (news1 & A1 & L1 & F1).
    { by rewrite Ldocs. }
    assert (messageLogs w3 = (messageLogs w ++ news1)%list) as M3'.
    { rewrite M3, M2. exact A1. }
    exists (news1 ++ news2)%list, (map filter_id us ++ ids2)%list. split.
    { rewrite M', M63, M3'. by rewrite <- app_assoc. }
    split; [by apply Forall_app|].
    split.
    { rewrite U', U6, Tr5. unfold w4. simpl trace. rewrite U3, Up2. simpl trace.
      by rewrite <- app_assoc. }
    rewrite seq_app. apply Permutation_app; [done|].
    rewrite Pi', M63, M3', length_app, L1, Ldocs. done.
Qed.

(** A run of the route when no storage call fails. *)
Lemma route_no_fault env rq w :
  no_store_fault env -> rq_mobileNumbers rq <> [] ->
  exists w' d,
    csvBulkDocument env rq (start w) = (Ret tt, w') /\
    last (operationSaves w') = Some d /\
    BulkOperation.status d = BulkOperation.COMPLETED /\
    is_Some (BulkOperation.completedAt d) /\
    BulkOperation.totalRecipients d = length (rq_mobileNumbers rq) /\
    BulkOperation.processedCount d = length (rq_mobileNumbers rq) /\
    BulkOperation.successCount d + BulkOperation.failedCount d =
      length (rq_mobileNumbers rq) /\
    tos w' = (tos w ++ rq_mobileNumbers rq)%list /\
    dests (trace w') = rq_mobileNumbers rq /\
    (NoDup (rq_mobileNumbers rq) ->
     exists news,
       messageLogs w' = (messageLogs w ++ news)%list /\
       Forall closed_log news /\
       updated_ids (trace w') ≡ₚ
         seq (length (messageLogs w)) (length (rq_mobileNumbers rq))).
Proof.
  intros Hnf Hne. unfold csvBulkDocument.
  set (R := rq_mobileNumbers rq) in *.
  destruct R as [|to0 R0] eqn:HR; [done|]. rewrite <- HR in *.
  replace (length R =? 0)%nat with false by (by rewrite HR).
  erewrite bind_Ret by reflexivity.
  match goal with |- context [create env ?d] => set (doc0 := d) end.
  unfold bind at 1. unfold try_catch at 1. rewrite create_run, Hnf.
  rewrite (bind_Ret _ _ _ _ _ (assign_run _ _)).
  unfold bind at 1. rewrite save_run, Hnf.
  destruct (batches_spec R (BATCH_SIZE routeConfig) ltac:(simpl; lia))
    as (bs & Hbs & Hcat & _ & _).
  rewrite Hbs.
  set (doc1 := BulkOperation.set_status BulkOperation.PROCESSING doc0).
  match goal with |- context [bind (routeBatchLoop env rq bs ?n 0 0 0 0) _ ?w1] =>
    destruct (routeBatchLoop_no_fault env rq Hnf bs n 0 0 0 0 w1 doc1
                eq_refl eq_refl eq_refl eq_refl eq_refl)
      as (w2 & p' & s' & f' & E2 & B2 & Hp' & Hsum' & T2 & D2 & N2)
  end.
  rewrite Hcat in *.
  rewrite (bind_Ret _ _ _ _ _ E2).
  rewrite (bind_Ret _ _ _ _ _ (assign_run _ w2)).
  erewrite bind_Ret by reflexivity.
  erewrite bind_Ret by apply assign_run.
  rewrite save_run, Hnf. simpl bulkOperation. rewrite B2. simpl fmap.
  eexists _, _. split; [reflexivity|]. simpl operationSaves.
  split; [apply last_snoc|]. simpl.
  split; [done|]. split; [by eexists|]. split; [done|]. split; [lia|].
  split; [lia|]. split; [exact T2|]. split; [exact D2|].
  intros Hnd. destruct (N2 Hnd) as (news & ids & M & F & U & Pi).
  exists news. split; [exact M|]. split; [exact F|].
  rewrite U. exact Pi.
Qed.

(** When no storage call fails, the route posts exactly one request per
    number of the upload, in the order of the upload, and creates exactly
    one Dispatch Record per number, under the number as uploaded, after the
    records that were there before; an upload with no number posts and
    records nothing. *)
Theorem route_one_request_each env rq w :
  no_store_fault env ->
  dests (trace (snd (csvBulkDocument env rq (start w)))) = rq_mobileNumbers rq /\
  tos (snd (csvBulkDocument env rq (start w))) = (tos w ++ rq_mobileNumbers rq)%list.
Proof.
  intros Hnf. destruct (rq_mobileNumbers rq) as [|to0 R0] eqn:HR.
  - unfold csvBulkDocument. rewrite HR. simpl. by rewrite app_nil_r.
  - destruct (route_no_fault env rq w Hnf ltac:(by rewrite HR))
      as (w' & d & -> & _ & _ & _ & _ & _ & _ & T & D & _).
    simpl snd. by rewrite <- HR.
Qed.

Lemma route_one_request_each_witness :
  dests (trace (snd (csvBulkDocument env_unregistered
                       (document_to ["911"; "912"; "911"]) (start emptyWorld)))) =
    ["911"; "912"; "911"] /\
  tos (snd (csvBulkDocument env_unregistered
              (document_to ["911"; "912"; "911"]) (start emptyWorld))) =
    ["911"; "912"; "911"].
Proof.
  apply (route_one_request_each env_unregistered
           (document_to ["911"; "912"; "911"]) emptyWorld).
  intros n c. reflexivity.
Defined.

(** When no storage call fails and the upload holds at least one number,
    the Operation of the route ends COMPLETED with every number accounted
    for: [processedCount] and [successCount + failedCount] both equal
    [totalRecipients], the number of numbers uploaded, whatever the gateway
    answered. *)
Theorem route_accounts_for_all env rq w :
  no_store_fault env -> rq_mobileNumbers rq <> [] ->
  exists d,
    last (operationSaves (snd (csvBulkDocument env rq (start w)))) = Some d /\
    BulkOperation.status d = BulkOperation.COMPLETED /\
    is_Some (BulkOperation.completedAt d) /\
    BulkOperation.totalRecipients d = length (rq_mobileNumbers rq) /\
    BulkOperation.processedCount d = length (rq_mobileNumbers rq) /\
    BulkOperation.successCount d + BulkOperation.failedCount d =
      length (rq_mobileNumbers rq).
Proof.
  intros Hnf Hne.
  destruct (route_no_fault env rq w Hnf Hne)
    as (w' & d & -> & H1 & H2 & H3 & H4 & H5 & H6 & _).
  exists d. simpl. repeat split; auto.
Qed.

Lemma route_accounts_for_all_witness :
  exists d,
    last (operationSaves
            (snd (csvBulkDocument env_timeout (document_to ["911"; "912"; "913"])
                    (start emptyWorld)))) = Some d /\
    BulkOperation.status d = BulkOperation.COMPLETED /\
    is_Some (BulkOperation.completedAt d) /\
    BulkOperation.totalRecipients d = 3 /\
    BulkOperation.processedCount d = 3 /\
    BulkOperation.successCount d + BulkOperation.failedCount d = 3.
Proof.
  apply (route_accounts_for_all env_timeout (document_to ["911"; "912"; "913"])
           emptyWorld).
  - intros n c. reflexivity.
  - discriminate.
Defined.

(** When no storage call fails and no number occurs twice in the upload,
    the route leaves the earlier records as they were, and every record it
    created is updated exactly once and ends SENT or FAILED: none stays
    QUEUED, none is updated twice and no other record is updated. Nothing
    is said of the order of the updates, which is the order the replies
    arrive in. *)
Theorem route_closes_each_record_once env rq w :
  no_store_fault env -> NoDup (rq_mobileNumbers rq) ->
  exists news,
    messageLogs (snd (csvBulkDocument env rq (start w))) =
      (messageLogs w ++ news)%list /\
    map MessageLog.to news = rq_mobileNumbers rq /\
    Forall closed_log news /\
    updated_ids (trace (snd (csvBulkDocument env rq (start w)))) ≡ₚ
      seq (length (messageLogs w)) (length (rq_mobileNumbers rq)).
Proof.
  intros Hnf Hnd. destruct (rq_mobileNumbers rq) as [|to0 R0] eqn:HR.
  - unfold csvBulkDocument. rewrite HR. simpl. exists [].
    by rewrite app_nil_r.
  - destruct (route_no_fault env rq w Hnf ltac:(by rewrite HR))
      as (w' & d & -> & _ & _ & _ & _ & _ & _ & T & _ & N).
    rewrite HR in N, T. destruct (N Hnd) as (news & M & F & U).
    exists news. simpl snd. split; [done|].
    split; [|split; [done|by rewrite U]].
    unfold tos in T. rewrite M, map_app in T. by apply app_inv_head in T.
Qed.

Lemma route_closes_each_record_once_witness :
  exists news,
    messageLogs (snd (csvBulkDocument env_no_id (document_to ["911"; "912"])
                        (start emptyWorld))) =
      (messageLogs emptyWorld ++ news)%list /\
    map MessageLog.to news = ["911"; "912"] /\
    Forall closed_log news /\
    updated_ids (trace (snd (csvBulkDocument env_no_id (document_to ["911"; "912"])
                               (start emptyWorld)))) ≡ₚ
      seq (length (messageLogs emptyWorld)) 2.
Proof.
  apply (route_closes_each_record_once env_no_id (document_to ["911"; "912"])
           emptyWorld).
  - intros n c. reflexivity.
  - apply NoDup_cons. split; [|apply NoDup_singleton].
    intros H%list_elem_of_singleton. discriminate.
Defined.

(** ** [sendBulkText] and the [/bulk] route *)

Lemma wrap_reply_id reply d :
  wrap_reply reply = inr d -> truthy (first_message_id (Some d)) = true.
Proof.
  unfold wrap_reply, check_success, first_message_id.
  destruct reply as [[d'|]|e]; try discriminate.
  destruct (messages d') as [[|m ms]|] eqn:Hm; try discriminate.
  destruct (truthy (msg_id m)) eqn:Hid; [|discriminate].
  intros [= <-]. by rewrite Hm.
Qed.

Lemma dests_text_requests body recipients :
  dests (map (fun to => EvRequest (ReqText to body)) recipients) = recipients.
Proof.
  induction recipients as [|to rest IH]; [done|].
  unfold dests in *. simpl. f_equal. exact IH.
Qed.

Lemma sendBulkText_loop_run env body recipients :
  forall results w,
    exists w',
      sendBulkText_loop env recipients body results w =
        (Ret (results ++
              imap (fun i to =>
                      bulk_result to
                        (wrap_reply (gateway env (requests w + i)
                                       (ReqText to (Some body)))))
                   recipients)%list, w') /\
      trace w' =
        (trace w ++ map (fun to => EvRequest (ReqText to (Some body))) recipients)%list /\
      messageLogs w' = messageLogs w /\
      operationSaves w' = operationSaves w /\
      bulkOperation w' = bulkOperation w /\
      storeCalls w' = storeCalls w /\
      now w' = now w.
Proof.
  induction recipients as [|to rest IH]; intros results w.
  - exists w. simpl. by rewrite !app_nil_r.
  - simpl sendBulkText_loop.
    set (req := ReqText to (Some body)).
    assert (attempt (sendText env to (Some body)) w =
              (Ret (wrap_reply (gateway env (requests w) req)), after_request req w))
      as Hrun.
    { destruct (wrap_reply (gateway env (requests w) req)) eqn:H1.
      - apply attempt_Throw. rewrite sendText_run. fold req. by rewrite H1.
      - apply attempt_Ret. rewrite sendText_run. fold req. by rewrite H1. }
    rewrite (bind_Ret _ _ _ _ _ Hrun).
    destruct (IH (results ++ [bulk_result to (wrap_reply (gateway env (requests w) req))])%list
                (after_request req w)) as (w' & E & Tr & M & S & B & C & N).
    exists w'. split.
    { rewrite E. f_equal. f_equal. rewrite <- app_assoc. f_equal. simpl.
      rewrite Nat.add_0_r. f_equal. apply imap_ext. intros i x _. simpl.
      by rewrite Nat.add_succ_r. }
    split; [rewrite Tr; simpl; by rewrite <- app_assoc|].
    by repeat split.
Qed.

(** [sendBulkText] never throws. It posts one text request per recipient,
    in the order given, whatever the earlier requests came to, and hands
    back one result per recipient in that order: the i-th result is what
    the wrapper makes of the reply to the i-th request. It touches no
    record. *)
Theorem sendBulkText_results env recipients body w :
  fst (sendBulkText env recipients body w) =
    Ret (imap (fun i to =>
                 bulk_result to
                   (wrap_reply (gateway env (requests w + i)
                                  (ReqText to (Some body)))))
              recipients) /\
  dests (trace (snd (sendBulkText env recipients body w))) =
    (dests (trace w) ++ recipients)%list /\
  messageLogs (snd (sendBulkText env recipients body w)) = messageLogs w.
Proof.
  unfold sendBulkText.
  destruct (sendBulkText_loop_run env body recipients [] w)
    as (w' & -> & Tr & M & _).
  simpl. split; [done|]. split; [|done].
  by rewrite Tr, dests_app, dests_text_requests.
Qed.

Lemma result_to_bulk_result to r : result_to (bulk_result to r) = to.
Proof. by destruct r. Qed.

Lemma map_imap_to {A} (f : nat -> string -> A) (g : A -> string) (l : list string) :
  (forall i to, g (f i to) = to) -> map g (imap f l) = l.
Proof.
  intros H. revert f H. induction l as [|x l IH]; intros f H; [done|].
  simpl. rewrite H. f_equal. apply IH. intros i to. apply H.
Qed.

Lemma Forall_imap {A B} (P : B -> Prop) (f : nat -> A -> B) (l : list A) :
  (forall i x, P (f i x)) -> Forall P (imap f l).
Proof.
  intros H. revert f H. induction l as [|x l IH]; intros f H; [constructor|].
  simpl. constructor; [apply H|]. apply IH. intros i y. apply H.
Qed.

Lemma bulk_log_of_reply body department userId d to reply :
  bulk_logged (bulk_log body department userId d (bulk_result to (wrap_reply reply))).
Proof.
  destruct (wrap_reply reply) as [e|data] eqn:Hw; simpl.
  - right. split; [done|]. split; [done|].
    destruct (response_data e); by eexists.
  - left. split; [done|]. split; [|done]. by apply (wrap_reply_id reply).
Qed.

Lemma to_bulk_log body department userId d r :
  MessageLog.to (bulk_log body department userId d r) = result_to r.
Proof. done. Qed.

(** A run of the handler of [/bulk] up to the call of [insertMany]. *)
Lemma bulkTextRoute_run env recipients body department userId w :
  exists results w1,
    sendBulkText env recipients body w = (Ret results, w1) /\
    bulkTextRoute env recipients body department userId w =
      (_ <- insertMany env (map (bulk_log body department userId (now w)) results) ;;
       ret results) w1 /\
    map result_to results = recipients /\
    Forall bulk_logged (map (bulk_log body department userId (now w)) results) /\
    dests (trace w1) = (dests (trace w) ++ recipients)%list /\
    messageLogs w1 = messageLogs w /\
    storeCalls w1 = storeCalls w.
Proof.
  unfold sendBulkText.
  destruct (sendBulkText_loop_run env body recipients [] w)
    as (w1 & E & Tr & M & _ & _ & C & N).
  simpl app in E. eexists _, w1. split; [exact E|].
  split.
  { unfold bulkTextRoute, sendBulkText. rewrite (bind_Ret _ _ _ _ _ E).
    erewrite bind_Ret by reflexivity. by rewrite N. }
  split; [apply map_imap_to; intros; apply result_to_bulk_result|].
  split.
  { change (map ?f (imap ?g recipients)) with (f <$> imap g recipients).
    rewrite fmap_imap. apply Forall_imap. intros i to.
    apply bulk_log_of_reply. }
  split; [by rewrite Tr, dests_app, dests_text_requests|].
  done.
Qed.

(** When [insertMany] does not fail, the handler of [/bulk] answers with
    one result per recipient and adds, after all the requests, exactly one
    record per recipient, in the order given and under the number as
    given. A record is SENT with the non-empty message id of the reply and
    no error, or FAILED with an error text and no message id: none is
    QUEUED. One request goes to each recipient, with no retry. *)
Theorem bulkTextRoute_records env recipients body department userId w :
  store_fault env (storeCalls w) CallInsertMany = None ->
  exists results news,
    fst (bulkTextRoute env recipients body department userId w) = Ret results /\
    map result_to results = recipients /\
    messageLogs (snd (bulkTextRoute env recipients body department userId w)) =
      (messageLogs w ++ news)%list /\
    map MessageLog.to news = recipients /\
    Forall bulk_logged news /\
    dests (trace (snd (bulkTextRoute env recipients body department userId w))) =
      (dests (trace w) ++ recipients)%list.
Proof.
  intros Hnf.
  destruct (bulkTextRoute_run env recipients body department userId w)
    as (results & w1 & _ & -> & Hto & Hlogs & D & M & C).
  erewrite bind_Ret by (apply insertMany_run; by rewrite C).
  exists results, (map (bulk_log body department userId (now w)) results).
  simpl. split; [done|]. split; [done|]. split; [by rewrite M|].
  split; [|by split].
  rewrite <- Hto. clear. induction results as [|r rs IH]; [done|].
  simpl. by rewrite IH.
Qed.

Lemma bulkTextRoute_records_witness :
  exists results news,
    fst (bulkTextRoute env_third_time ["911111111111"; "912222222222"] "Hello"
           (Some "MAG") "clerk" emptyWorld) = Ret results /\
    map result_to results = ["911111111111"; "912222222222"] /\
    messageLogs (snd (bulkTextRoute env_third_time ["911111111111"; "912222222222"]
                        "Hello" (Some "MAG") "clerk" emptyWorld)) =
      (messageLogs emptyWorld ++ news)%list /\
    map MessageLog.to news = ["911111111111"; "912222222222"] /\
    Forall bulk_logged news /\
    dests (trace (snd (bulkTextRoute env_third_time ["911111111111"; "912222222222"]
                         "Hello" (Some "MAG") "clerk" emptyWorld))) =
      (dests (trace emptyWorld) ++ ["911111111111"; "912222222222"])%list.
Proof.
  apply (bulkTextRoute_records env_third_time ["911111111111"; "912222222222"]
           "Hello" (Some "MAG") "clerk" emptyWorld).
  reflexivity.
Defined.

(** When [insertMany] fails, the handler of [/bulk] throws that error (it
    answers 502), after one request has gone to every recipient: the
    messages are out, no record of them is written and the results are not
    handed back. *)
Theorem bulkTextRoute_unrecorded env recipients body department userId w e :
  recipients <> [] ->
  store_fault env (storeCalls w) CallInsertMany = Some e ->
  fst (bulkTextRoute env recipients body department userId w) = Throw e /\
  messageLogs (snd (bulkTextRoute env recipients body department userId w)) =
    messageLogs w /\
  dests (trace (snd (bulkTextRoute env recipients body department userId w))) =
    (dests (trace w) ++ recipients)%list.
Proof.
  intros _ Hf.
  destruct (bulkTextRoute_run env recipients body department userId w)
    as (results & w1 & _ & -> & Hto & Hlogs & D & M & C).
  erewrite bind_Throw by (apply insertMany_fault; rewrite C; exact Hf).
  simpl. split; [done|]. split; [done|].
  rewrite dests_app, D. simpl. by rewrite app_nil_r.
Qed.

Lemma bulkTextRoute_unrecorded_witness :
  fst (bulkTextRoute env_insert_down ["911111111111"; "912222222222"] "Hello"
         None "clerk" emptyWorld) =
    Throw {| name := ClassMongoNetworkError;
             message := "connection closed"; response := None |} /\
  messageLogs (snd (bulkTextRoute env_insert_down ["911111111111"; "912222222222"]
                      "Hello" None "clerk" emptyWorld)) =
    messageLogs emptyWorld /\
  dests (trace (snd (bulkTextRoute env_insert_down ["911111111111"; "912222222222"]
                       "Hello" None "clerk" emptyWorld))) =
    (dests (trace emptyWorld) ++ ["911111111111"; "912222222222"])%list.
Proof.
  apply (bulkTextRoute_unrecorded env_insert_down ["911111111111"; "912222222222"]
           "Hello" None "clerk" emptyWorld
           {| name := ClassMongoNetworkError;
              message := "connection closed"; response := None |}).
  - discriminate.
  - reflexivity.
Defined.

(** ** A message with nothing to post *)



(** ** The workers of a chunk and the order they go on in *)

(** A chunk of one worker: with nobody else to go on between its [await]s,
    the worker of the background path does what [worker] does from its call
    to its end, and the worker of the route does what [routeWorker] does. *)
Theorem chunk_of_one_worker env md rq batch createdLogs to bulkUpdates w :
  runChunk env (workerSteps env md createdLogs) [to] bulkUpdates w =
    (p <- worker env md createdLogs bulkUpdates to 0 ;;
     ret ([fst p], snd p)) w /\
  runChunk env (routeWorkerSteps env rq batch createdLogs) [to] bulkUpdates w =
    (p <- routeWorker env rq batch createdLogs bulkUpdates to 0 ;;
     ret ([fst p], snd p)) w.
Proof. split; [apply worker_alone|apply routeWorker_alone]. Qed.

(** The workers of a chunk of the background path are all called before
    any of them goes on: when the message has something to post, the chunk
    settles, its first requests go out in the order of the chunk, one to
    each recipient, before any retry, and the retries that follow are, up to
    their order, the recipients of the chunk taken at most [maxRetries]
    times each. *)
Theorem chunk_posts_first_requests_first env md createdLogs chunk bulkUpdates w :
  posts md = true ->
  exists rs us w' ns later,
    runChunk env (workerSteps env md createdLogs) chunk bulkUpdates w =
      (Ret (rs, us), w') /\
    length rs = length chunk /\
    length ns = length chunk /\
    Forall (fun n => n <= maxRetries) ns /\
    dests (trace w') = (dests (trace w) ++ chunk ++ later)%list /\
    later ≡ₚ repeated ns chunk.
Proof.
  intros Hposts.
  destruct (runChunk_spec env _ _ _ _ _ _ (workerSteps_spec env md createdLogs)
              chunk bulkUpdates w)
    as (rs & us & w' & ns & adds & later & E & _ & Lr & Ln & FP & D & Pl & _).
  exists rs, (bulkUpdates ++ us)%list, w', ns, later.
  split; [done|]. split; [done|]. split; [done|].
  split; [eapply Forall_impl; [exact FP|]; by intros n [? _]|].
  split; [|done].
  rewrite Hposts in D. by rewrite bind_replicate_1 in D.
Qed.

Lemma chunk_posts_first_requests_first_witness :
  exists rs us w' ns later,
    runChunk env_timeout (workerSteps env_timeout (text_to ["911"; "912"]) [0; 1])
      ["911"; "912"] [] emptyWorld = (Ret (rs, us), w') /\
    length rs = length ["911"; "912"] /\
    length ns = length ["911"; "912"] /\
    Forall (fun n => n <= maxRetries) ns /\
    dests (trace w') = (dests (trace emptyWorld) ++ ["911"; "912"] ++ later)%list /\
    later ≡ₚ repeated ns ["911"; "912"].
Proof.
  apply (chunk_posts_first_requests_first env_timeout (text_to ["911"; "912"])
           [0; 1] ["911"; "912"] [] emptyWorld).
  reflexivity.
Defined.

(** The order of the requests and of the updates follows the order in which
    the workers go on. Two recipients whose requests all time out, in the
    background path: if the first waiting worker always goes on, the
    retries of the first recipient come before those of the second and the
    pauses add up to 12 s; if the workers go on in turn, the requests
    alternate and the pauses overlap, 6 s in all. In the route, when the
    reply to the second recipient is handled first, the record of the
    second recipient is updated first; each update still reaches the record
    of its recipient. *)
Theorem order_follows_the_replies :
  (let w := snd (processBulkMessage env_timeout (text_to ["911"; "912"])
                   emptyWorld) in
   dests (trace w) = ["911"; "912"; "911"; "911"; "912"; "912"] /\
   now w = 12000%N) /\
  (let w := snd (processBulkMessage (in_turn env_timeout) (text_to ["911"; "912"])
                   emptyWorld) in
   dests (trace w) = ["911"; "912"; "911"; "912"; "911"; "912"] /\
   now w = 6000%N) /\
  (let w := snd (csvBulkDocument (second_first env_first_lost)
                   (document_to ["911"; "912"]) emptyWorld) in
   dests (trace w) = ["911"; "912"] /\
   updated_ids (trace w) = [1; 0] /\
   (fun l => (MessageLog.to l, MessageLog.status l)) <$> messageLogs w =
     [("911", MessageLog.FAILED); ("912", MessageLog.SENT)]).
Proof. by vm_compute. Qed.
